(** * yixiaojuan: exam-page normalisation and question segmentation

    A shallow embedding of the algorithmic core of [ocr_server/main.py] and
    [ocr_server/erase_server.py], and the properties of it that the
    specification states.

    Conventions of the embedding.
    - A numpy image is a list of rows; a colour pixel is a triple of
      channel values, a mask or grayscale value is a [Z] in 0..255.
    - A Python [str] is a list of Unicode code points ([Z]).
    - Python and numpy floats are modelled by exact numbers: pixel
      coordinates by [Z], angles by [Q].
    - The OpenCV routines whose result depends on floating-point kernels or
      on search heuristics (colour conversion, Gaussian means, inpainting,
      line detection, resampling) are the fields of the class [OpenCV]; the
      integer ones (range tests, thresholds, morphology, bounding boxes)
      are defined here. *)

From Stdlib Require Import ZArith QArith Qabs Lia Lqa List String Ascii.
From Stdlib Require Import Sorting.Sorted Sorting.Permutation.
From stdpp Require Import base tactics option list gmap sorting.

Close Scope Q_scope.
Open Scope Z_scope.

(** ** Exceptions *)

(** A Python call either returns a value or raises. *)
Inductive exn :=
| cv2_error
| ValueError
| OtherError (code : Z).

Inductive result (A : Type) :=
| Ok (a : A)
| Raise (e : exn).
Arguments Ok {A} a.
Arguments Raise {A} e.

Definition rbind {A B} (m : result A) (k : A -> result B) : result B :=
  match m with
  | Ok a => k a
  | Raise e => Raise e
  end.

(** [try: body except Exception: handler] *)
Definition try_except {A} (body : result A) (handler : exn -> result A) : result A :=
  match body with
  | Ok a => Ok a
  | Raise e => handler e
  end.

Notation "x <-r m ;; k" := (rbind m (fun x => k))
  (at level 100, m at next level, right associativity).

(** ** Stable sorting, as [list.sort(key=...)] and [np.sort] do *)

Fixpoint insert_by {A} (le : A -> A -> bool) (a : A) (l : list A) : list A :=
  match l with
  | [] => [a]
  | b :: l' => if le a b then a :: b :: l' else b :: insert_by le a l'
  end.

Definition sort_by {A} (le : A -> A -> bool) (l : list A) : list A :=
  foldr (insert_by le) [] l.

(** ** Images *)

Definition pixel := (Z * Z * Z)%type.
Abbreviation grid A := (list (list A)) (only parsing).
Abbreviation image := (grid pixel) (only parsing).
Abbreviation mask := (grid Z) (only parsing).

(** An [np.ndarray] holding a picture: two axes (grayscale) or three. *)
Inductive ndarray :=
| Gray2 (g : grid Z)
| Color3 (c : image).

Definition map2d {A B} (f : A -> B) (g : grid A) : grid B := map (map f) g.
Definition zip2d {A B C} (f : A -> B -> C) (a : grid A) (b : grid B) : grid C :=
  zip_with (zip_with f) a b.

(** [g[y, x]], with [d] outside the array. *)
Definition get2d {A} (d : A) (g : grid A) (y x : Z) : A :=
  if (y <? 0) || (x <? 0) then d
  else nth (Z.to_nat x) (nth (Z.to_nat y) g []) d.

(** Builds an array of the shape of [g] from the coordinates. *)
Definition tabulate_like {A B} (g : grid A) (f : Z -> Z -> B) : grid B :=
  imap (fun y row => imap (fun x _ => f (Z.of_nat y) (Z.of_nat x)) row) g.

Definition tabulate {B} (rows cols : nat) (f : Z -> Z -> B) : grid B :=
  map (fun y => map (fun x => f (Z.of_nat y) (Z.of_nat x)) (seq 0 cols)) (seq 0 rows).

(** [img.shape[0]] and [img.shape[1]]. *)
Definition height {A} (g : grid A) : Z := Z.of_nat (length g).
Definition width {A} (g : grid A) : Z := Z.of_nat (length (hd [] g)).

Definition shape0 (a : ndarray) : Z :=
  match a with Gray2 g => height g | Color3 c => height c end.
Definition shape1 (a : ndarray) : Z :=
  match a with Gray2 g => width g | Color3 c => width c end.

(** Python slice [l[a:b]] for a list of length [n] (negative bounds count
    from the end, everything is clipped to [0..n]). *)
Definition slice_bound (n i : Z) : Z :=
  if i <? 0 then Z.max 0 (n + i) else Z.min n i.

Definition py_slice {A} (l : list A) (a b : Z) : list A :=
  let n := Z.of_nat (length l) in
  let a' := slice_bound n a in
  let b' := slice_bound n b in
  take (Z.to_nat (b' - a')) (drop (Z.to_nat a') l).

(** [img[y0:y1, x0:x1]] *)
Definition crop {A} (g : grid A) (y0 y1 x0 x1 : Z) : grid A :=
  map (fun row => py_slice row x0 x1) (py_slice g y0 y1).

Definition crop_nd (a : ndarray) (y0 y1 x0 x1 : Z) : ndarray :=
  match a with
  | Gray2 g => Gray2 (crop g y0 y1 x0 x1)
  | Color3 c => Color3 (crop c y0 y1 x0 x1)
  end.

(** ** The OpenCV collaborator *)

Definition point := (Z * Z)%type.
Definition segment := (Z * Z * Z * Z)%type.

(** A 3x3 homography or 2x3 affine matrix, row by row. *)
Definition matrix := list (list Q).

Class OpenCV := {
  (** [cv2.cvtColor(_, COLOR_BGR2HSV)] and [COLOR_BGR2GRAY], per pixel *)
  bgr2hsv : pixel -> pixel;
  bgr2gray : pixel -> Z;
  (** the Gaussian-weighted mean of the [block] x [block] neighbourhood of
      [(y, x)], as [cv2.adaptiveThreshold] computes it *)
  gaussian_mean : grid Z -> Z -> Z -> Z -> Z;
  (** the value of [cv2.GaussianBlur(img, (3, 3), 0)] at [(y, x)] *)
  gaussian_blur3 : image -> Z -> Z -> pixel;
  (** [cv2.inpaint(img, mask, radius, INPAINT_TELEA)] *)
  inpaint : image -> mask -> Z -> result image;
  (** [cv2.HoughLinesP(cv2.Canny(gray, 50, 150), 1, pi/180, 100, 100, 10)]:
      [None] when no line is found *)
  hough_lines : grid Z -> option (list segment);
  (** [np.degrees(np.arctan2(dy, dx))] *)
  atan2_deg : Z -> Z -> Q;
  (** [cv2.getPerspectiveTransform(src, dst)] *)
  getPerspectiveTransform : list point -> list point -> matrix;
  (** the pixel of [cv2.warpPerspective(img, M, _)] at [(y, x)] *)
  warp_perspective_at : ndarray -> matrix -> Z -> Z -> pixel;
  warp_perspective_gray_at : ndarray -> matrix -> Z -> Z -> Z;
  (** [cv2.warpAffine] about the centre by an angle, on the enlarged canvas
      [(new_w, new_h)], white border *)
  rotated_size : Z -> Z -> Q -> Z * Z;
  warp_affine_at : ndarray -> Q -> Z -> Z -> pixel;
  warp_affine_gray_at : ndarray -> Q -> Z -> Z -> Z;
}.

(** ** [erase_server.py]: corner ordering, rectification, cropping, skew *)

Module EraseServer.

(** [np.argmin]: the index of the first occurrence of the minimum;
    raises [ValueError] on an empty array. *)
Fixpoint argmin (l : list Z) : option nat :=
  match l with
  | [] => None
  | x :: l' =>
      match argmin l' with
      | None => Some 0%nat
      | Some j => if nth j l' 0 <? x then Some (S j) else Some 0%nat
      end
  end.

(** [np.argmax]: the index of the first occurrence of the maximum. *)
Fixpoint argmax (l : list Z) : option nat :=
  match l with
  | [] => None
  | x :: l' =>
      match argmax l' with
      | None => Some 0%nat
      | Some j => if x <? nth j l' 0 then Some (S j) else Some 0%nat
      end
  end.

Record rect := mkRect { tl : point; tr : point; br : point; bl : point }.

(** [pts.sum(axis=1)] and [np.diff(pts, axis=1)] *)
Definition coord_sum (p : point) : Z := p.1 + p.2.
Definition coord_diff (p : point) : Z := p.2 - p.1.

Definition np_index {A} (l : list A) (i : option nat) : result A :=
  match i with
  | None => Raise ValueError
  | Some i => match l !! i with Some a => Ok a | None => Raise (OtherError 0) end
  end.

Definition order_points (pts : list point) : result rect :=
  let s := map coord_sum pts in
  r0 <-r np_index pts (argmin s) ;;
  r2 <-r np_index pts (argmax s) ;;
  let diff := map coord_diff pts in
  r1 <-r np_index pts (argmin diff) ;;
  r3 <-r np_index pts (argmax diff) ;;
  Ok (mkRect r0 r1 r2 r3).

(** [int(np.sqrt((p[0] - q[0]) ** 2 + (p[1] - q[1]) ** 2))]: the length of
    the edge [p q], truncated. *)
Definition edge_length (p q : point) : Z :=
  Z.sqrt ((p.1 - q.1) ^ 2 + (p.2 - q.2) ^ 2).

Definition target_size (r : rect) : Z * Z :=
  let widthA := edge_length (br r) (bl r) in
  let widthB := edge_length (tr r) (tl r) in
  let maxWidth := Z.max widthA widthB in
  let heightA := edge_length (tr r) (br r) in
  let heightB := edge_length (tl r) (bl r) in
  let maxHeight := Z.max heightA heightB in
  (maxWidth, maxHeight).

(** [cv2.warpPerspective(img, M, (w, h))]: a new buffer of [h] rows and [w]
    columns, sampled from [img] through [M]. *)
Definition warpPerspective `{OpenCV} (img : ndarray) (M : matrix) (dsize : Z * Z) : ndarray :=
  let rows := Z.to_nat dsize.2 in
  let cols := Z.to_nat dsize.1 in
  match img with
  | Gray2 _ => Gray2 (tabulate rows cols (warp_perspective_gray_at img M))
  | Color3 _ => Color3 (tabulate rows cols (warp_perspective_at img M))
  end.

Definition perspective_transform `{OpenCV} (img : ndarray) (pts : list point) : result ndarray :=
  r <-r order_points pts ;;
  let '(maxWidth, maxHeight) := target_size r in
  let dst := [(0, 0); (maxWidth - 1, 0); (maxWidth - 1, maxHeight - 1); (0, maxHeight - 1)] in
  let M := getPerspectiveTransform [tl r; tr r; br r; bl r] dst in
  Ok (warpPerspective img M (maxWidth, maxHeight)).

(** *** Whitespace cropping *)

(** [cv2.threshold(gray, thresh, maxval, THRESH_BINARY_INV)] *)
Definition threshold_binary_inv (thresh maxval : Z) (g : grid Z) : grid Z :=
  map2d (fun v => if v >? thresh then 0 else maxval) g.

(** [cv2.findNonZero]: the [(x, y)] positions of the nonzero entries, row by
    row; [None] when there is none. *)
Definition nonzero_points (g : grid Z) : list point :=
  concat (imap (fun y row =>
    omap (fun xv : nat * Z => if xv.2 =? 0 then None else Some (Z.of_nat xv.1, Z.of_nat y))
         (imap (fun x v => (x, v)) row)) g).

Definition findNonZero (g : grid Z) : option (list point) :=
  match nonzero_points g with
  | [] => None
  | p :: ps => Some (p :: ps)
  end.

(** [cv2.boundingRect]: [(x, y, w, h)] of the smallest upright box. *)
Definition boundingRect (pts : list point) : Z * Z * Z * Z :=
  match pts with
  | [] => (0, 0, 0, 0)
  | p :: ps =>
      let x0 := foldr Z.min p.1 (map fst ps) in
      let x1 := foldr Z.max p.1 (map fst ps) in
      let y0 := foldr Z.min p.2 (map snd ps) in
      let y1 := foldr Z.max p.2 (map snd ps) in
      (x0, y0, x1 - x0 + 1, y1 - y0 + 1)
  end.

Definition to_gray `{OpenCV} (img : ndarray) : grid Z :=
  match img with
  | Color3 c => map2d bgr2gray c
  | Gray2 g => g
  end.

Definition auto_crop_whitespace `{OpenCV} (img : ndarray) (padding : Z) : ndarray :=
  let gray := to_gray img in
  let binary := threshold_binary_inv 250 255 gray in
  match findNonZero binary with
  | None => img
  | Some coords =>
      let '(x, y, w, h) := boundingRect coords in
      let x := Z.max 0 (x - padding) in
      let y := Z.max 0 (y - padding) in
      let w := Z.min (shape1 img - x) (w + 2 * padding) in
      let h := Z.min (shape0 img - y) (h + 2 * padding) in
      crop_nd img y (y + h) x (x + w)
  end.

(** *** Skew estimation and rotation *)

Definition Qltb (a b : Q) : bool := negb (Qle_bool b a).

(** The angle a detected segment contributes: kept when within 45 degrees
    of horizontal, folded by 90 degrees when within 45 degrees of vertical,
    dropped otherwise. *)
Definition fold_angle (angle : Q) : option Q :=
  if Qltb (Qabs angle) 45 then Some angle
  else if Qltb 45 (Qabs angle) && Qltb (Qabs angle) 135
       then Some (if Qltb 0 angle then angle - 90 else angle + 90)%Q
       else None.

Definition segment_angle `{OpenCV} (s : segment) : Q :=
  let '(x1, y1, x2, y2) := s in atan2_deg (y2 - y1) (x2 - x1).

Definition kept_angles `{OpenCV} (lines : list segment) : list Q :=
  omap (fun s => fold_angle (segment_angle s)) lines.

Definition sort_angles (l : list Q) : list Q := sort_by Qle_bool l.

(** [np.median]: the middle element of the sorted values, or the mean of
    the two middle ones. *)
Definition median (l : list Q) : Q :=
  let s := sort_angles l in
  let n := length s in
  if Nat.even n
  then ((nth (n / 2 - 1) s 0 + nth (n / 2) s 0) / 2)%Q
  else nth (n / 2) s 0%Q.

Definition mean (l : list Q) : Q :=
  (foldr Qplus 0 l / inject_Z (Z.of_nat (length l)))%Q.

(** The angle applied for a median [m] of at least half a degree: [m]
    itself, or 15 degrees of its sign when it is larger. *)
Definition applied_angle (m : Q) : Q :=
  if Qltb 15 (Qabs m) then (if Qltb 0 m then 15%Q else (-15)%Q) else m.

Definition rotate `{OpenCV} (img : ndarray) (angle : Q) : ndarray :=
  let '(new_w, new_h) := rotated_size (shape0 img) (shape1 img) angle in
  match img with
  | Gray2 _ => Gray2 (tabulate (Z.to_nat new_h) (Z.to_nat new_w) (warp_affine_gray_at img angle))
  | Color3 _ => Color3 (tabulate (Z.to_nat new_h) (Z.to_nat new_w) (warp_affine_at img angle))
  end.

Definition detect_and_correct_rotation `{OpenCV} (img : ndarray) : ndarray * Q :=
  let gray := to_gray img in
  match hough_lines gray with
  | None => (img, 0%Q)
  | Some lines =>
      let angles := kept_angles lines in
      match angles with
      | [] => (img, 0%Q)
      | _ :: _ =>
          let median_angle := median angles in
          if Qltb (Qabs median_angle) (1 # 2) then (img, 0%Q)
          else
            let median_angle := applied_angle median_angle in
            (rotate img median_angle, median_angle)
      end
  end.

End EraseServer.

(** ** Ink removal ([erase_handwriting_opencv], [erase_handwriting_ai]) *)

Module Erase.

(** [mode]: one of the four documented strings, or any other string. *)
Inductive erase_mode :=
| Auto
| Blue
| Black
| Colour
| OtherMode (name : string).

(** [cv2.cvtColor(_, COLOR_RGB2BGR)] and back: the first and third channel
    trade places. *)
Definition swap_rb (p : pixel) : pixel := (p.2, p.1.2, p.1.1).

Definition white : pixel := (255, 255, 255).

(** [cv2.inRange(hsv, lower, upper)] *)
Definition in_range (lower upper : pixel) (p : pixel) : Z :=
  if (lower.1.1 <=? p.1.1) && (p.1.1 <=? upper.1.1)
     && (lower.1.2 <=? p.1.2) && (p.1.2 <=? upper.1.2)
     && (lower.2 <=? p.2) && (p.2 <=? upper.2)
  then 255 else 0.

Definition inRange (hsv : image) (lower upper : pixel) : mask :=
  map2d (in_range lower upper) hsv.

Definition bitwise_or (a b : mask) : mask := zip2d Z.lor a b.

(** [cv2.adaptiveThreshold(gray, maxval, ADAPTIVE_THRESH_GAUSSIAN_C,
    THRESH_BINARY_INV, block, C)]: [maxval] where the pixel is at most the
    local mean minus [C]. *)
Definition adaptiveThreshold `{OpenCV} (gray : grid Z) (maxval block C : Z) : mask :=
  tabulate_like gray (fun y x =>
    if get2d 0 gray y x >? gaussian_mean gray block y x - C then 0 else maxval).

(** The offsets a [k] x [k] kernel of ones covers around its anchor
    [k / 2]. *)
Definition offsets (k : Z) : list Z :=
  map (fun i => Z.of_nat i - k / 2) (seq 0 (Z.to_nat k)).

Definition neighbourhood (d : Z) (m : mask) (k y x : Z) : list Z :=
  dy ← offsets k; dx ← offsets k; [get2d d m (y + dy) (x + dx)].

(** [cv2.dilate(m, np.ones((k, k)), iterations=n)]: the maximum over the
    kernel; outside the array nothing counts. *)
Definition dilate1 (k : Z) (m : mask) : mask :=
  tabulate_like m (fun y x => foldr Z.max 0 (neighbourhood 0 m k y x)).

Definition dilate (m : mask) (k : Z) (iterations : nat) : mask :=
  Nat.iter iterations (dilate1 k) m.

(** [cv2.erode]: the minimum over the kernel. *)
Definition erode1 (k : Z) (m : mask) : mask :=
  tabulate_like m (fun y x => foldr Z.min 255 (neighbourhood 255 m k y x)).

Definition erode (m : mask) (k : Z) (iterations : nat) : mask :=
  Nat.iter iterations (erode1 k) m.

Definition zeros_like {A} (g : grid A) : mask := map2d (fun _ => 0) g.

Definition is_blue_mode (mode : erase_mode) : bool :=
  match mode with Blue | Auto | Colour => true | _ => false end.
Definition is_colour_mode (mode : erase_mode) : bool :=
  match mode with Colour | Auto => true | _ => false end.
Definition is_dark_mode (mode : erase_mode) : bool :=
  match mode with Black | Auto => true | _ => false end.
Definition is_black (mode : erase_mode) : bool :=
  match mode with Black => true | _ => false end.
Definition is_auto (mode : erase_mode) : bool :=
  match mode with Auto => true | _ => false end.

(** The detection sources, each a mask over the BGR image. *)
Definition blue_mask `{OpenCV} (img_bgr : image) : mask :=
  inRange (map2d bgr2hsv img_bgr) (90, 50, 50) (130, 255, 255).
Definition red_mask1 `{OpenCV} (img_bgr : image) : mask :=
  inRange (map2d bgr2hsv img_bgr) (0, 50, 50) (10, 255, 255).
Definition red_mask2 `{OpenCV} (img_bgr : image) : mask :=
  inRange (map2d bgr2hsv img_bgr) (170, 50, 50) (180, 255, 255).
Definition green_mask `{OpenCV} (img_bgr : image) : mask :=
  inRange (map2d bgr2hsv img_bgr) (35, 50, 50) (85, 255, 255).

(** The dark-handwriting source: adaptive threshold, dilated by a 2x2 and
    eroded by a 3x3 kernel ([eroded] in the source). *)
Definition dark_mask `{OpenCV} (img_bgr : image) : mask :=
  let gray := map2d bgr2gray img_bgr in
  let binary := adaptiveThreshold gray 255 15 8 in
  let dilated := dilate binary 2 1 in
  erode dilated 3 1.

(** The value of [mask] in [erase_handwriting_opencv] just before the final
    dilation. *)
Definition union_mask `{OpenCV} (img_bgr : image) (mode : erase_mode) : mask :=
  let mask := zeros_like img_bgr in
  let mask :=
    if is_blue_mode mode then bitwise_or mask (blue_mask img_bgr) else mask in
  let mask :=
    if is_colour_mode mode then
      let mask := bitwise_or mask (red_mask1 img_bgr) in
      let mask := bitwise_or mask (red_mask2 img_bgr) in
      bitwise_or mask (green_mask img_bgr)
    else mask in
  let mask :=
    if is_dark_mode mode then
      let eroded := dark_mask img_bgr in
      if is_black mode then bitwise_or mask eroded else mask
    else mask in
  mask.

(** [mask] after [cv2.dilate(mask, np.ones((3, 3)), iterations=2)]. *)
Definition final_mask `{OpenCV} (img_bgr : image) (mode : erase_mode) : mask :=
  dilate (union_mask img_bgr mode) 3 2.

(** [result[mask > 0] = [255, 255, 255]] *)
Definition fill_white (result : image) (m : mask) : image :=
  zip2d (fun p v => if v >? 0 then white else p) result m.

(** [np.where(blur_mask[:, :, np.newaxis] > 0, blurred, result)] *)
Definition blend_blurred `{OpenCV} (result : image) (blur_mask : mask) : image :=
  imap (fun y row =>
    imap (fun x p =>
      if get2d 0 blur_mask (Z.of_nat y) (Z.of_nat x) >? 0
      then gaussian_blur3 result (Z.of_nat y) (Z.of_nat x) else p) row) result.

Definition erase_handwriting_opencv `{OpenCV} (img_array : image) (mode : erase_mode) : image :=
  let img_bgr := map2d swap_rb img_array in
  let mask := final_mask img_bgr mode in
  let result := fill_white img_bgr mask in
  let result :=
    if is_auto mode then blend_blurred result (dilate mask 3 1) else result in
  map2d swap_rb result.

(** [erase_server.py] carries the same function under another name. *)
Definition erase_handwriting_process `{OpenCV} (img_array : image) (mode : erase_mode) : image :=
  erase_handwriting_opencv img_array mode.

(** The module-level [doc_cleaner]: [None] until first use. *)
Definition cleaner_state := option bool.

(** [get_doc_cleaner()]: initialises the global on first use and returns it,
    or [None] when it is falsy. *)
Definition get_doc_cleaner (doc_cleaner : cleaner_state) : cleaner_state * option bool :=
  let doc_cleaner := match doc_cleaner with None => Some true | Some b => Some b end in
  (doc_cleaner, match doc_cleaner with Some true => Some true | _ => None end).

(** The body of the [try] block of [erase_handwriting_ai]. *)
Definition enhanced_mask `{OpenCV} (img_bgr : image) : mask :=
  let mask := zeros_like img_bgr in
  let mask := bitwise_or mask (blue_mask img_bgr) in
  let mask := bitwise_or mask (red_mask1 img_bgr) in
  let mask := bitwise_or mask (red_mask2 img_bgr) in
  let mask := bitwise_or mask (green_mask img_bgr) in
  let mask := bitwise_or mask (dark_mask img_bgr) in
  dilate mask 3 2.

Definition blur_image `{OpenCV} (img : image) : image :=
  tabulate_like img (gaussian_blur3 img).

Definition enhanced_erase `{OpenCV} (img_array : image) : result image :=
  let img_bgr := map2d swap_rb img_array in
  let mask := enhanced_mask img_bgr in
  result <-r inpaint img_bgr mask 3 ;;
  let result := blur_image result in
  Ok (map2d swap_rb result).

Definition erase_handwriting_ai `{OpenCV} (doc_cleaner : cleaner_state) (img_array : image)
  : cleaner_state * result image :=
  let '(doc_cleaner, cleaner) := get_doc_cleaner doc_cleaner in
  match cleaner with
  | None => (doc_cleaner, Ok (erase_handwriting_opencv img_array Auto))
  | Some _ =>
      (doc_cleaner,
       try_except (enhanced_erase img_array)
                  (fun _ => Ok (erase_handwriting_opencv img_array Auto)))
  end.

End Erase.

(** ** Python strings *)

Module Text.

Abbreviation text := (list Z) (only parsing).

Definition byte_value (a : ascii) : Z := Z.of_N (N_of_ascii a).

(** Reads UTF-8: [acc] holds the bits of the code point under way, [need]
    the number of continuation bytes still expected. *)
Fixpoint utf8_decode (acc : Z) (need : nat) (bs : list Z) : text :=
  match bs with
  | [] => []
  | b :: bs' =>
      match need with
      | O =>
          if b <? 128 then b :: utf8_decode 0 0 bs'
          else if b <? 224 then utf8_decode (b - 192) 1 bs'
          else if b <? 240 then utf8_decode (b - 224) 2 bs'
          else utf8_decode (b - 240) 3 bs'
      | S O => (acc * 64 + (b - 128)) :: utf8_decode 0 0 bs'
      | S n => utf8_decode (acc * 64 + (b - 128)) n bs'
      end
  end.

(** The Python string a literal of this file denotes. *)
Definition u (s : string) : text :=
  utf8_decode 0 0 (map byte_value (list_ascii_of_string s)).
Arguments u s%_string : simpl never.

(** [str.isspace] of one character, which is also the class [\s] of a
    [str] pattern. *)
Definition isspace (c : Z) : bool :=
  ((9 <=? c) && (c <=? 13)) || ((28 <=? c) && (c <=? 32))
  || (c =? 133) || (c =? 160) || (c =? 5760)
  || ((8192 <=? c) && (c <=? 8202))
  || (c =? 8232) || (c =? 8233) || (c =? 8239) || (c =? 8287) || (c =? 12288).

Fixpoint lstrip (t : text) : text :=
  match t with
  | [] => []
  | c :: t' => if isspace c then lstrip t' else t
  end.

Definition rstrip (t : text) : text := rev (lstrip (rev t)).

(** [t.strip()] *)
Definition strip (t : text) : text := rstrip (lstrip t).

(** [t.split(sep)] for a one-character separator. *)
Fixpoint split_on (sep : Z) (t : text) : list text :=
  match t with
  | [] => [[]]
  | c :: t' =>
      if c =? sep then [] :: split_on sep t'
      else match split_on sep t' with
           | w :: ws => (c :: w) :: ws
           | [] => [[c]]
           end
  end.

(** [sep.join(parts)] *)
Fixpoint join (sep : text) (parts : list text) : text :=
  match parts with
  | [] => []
  | p :: ps =>
      match ps with
      | [] => p
      | _ :: _ => p ++ sep ++ join sep ps
      end
  end.

Fixpoint starts_with (p t : text) : bool :=
  match p, t with
  | [], _ => true
  | _ :: _, [] => false
  | a :: p', b :: t' => (a =? b) && starts_with p' t'
  end.

(** [kw in t] *)
Fixpoint contains (t kw : text) : bool :=
  starts_with kw t
  || match t with
     | [] => false
     | _ :: t' => contains t' kw
     end.

(** [c.upper()] for the letters an option label can be. *)
Definition upper (c : Z) : Z :=
  if (97 <=? c) && (c <=? 122) then c - 32 else c.

(** [t[a:b]] for [0 <= a]. *)
Definition substring (t : text) (a b : nat) : text := take (b - a) (drop a t).

(** The decimal-digit property of the Unicode database, which decides the
    class [\d] and the digits [int] accepts. *)
Class Unicode := { decimal : Z -> option Z }.

(** The table restricted to the ASCII digits. *)
Definition ascii_decimal (c : Z) : option Z :=
  if (48 <=? c) && (c <=? 57) then Some (c - 48) else None.

(** [int(t)] for a string of decimal digits. *)
Definition int_of `{Unicode} (t : text) : option Z :=
  match t with
  | [] => None
  | _ :: _ =>
      foldl (fun acc c =>
               match acc, decimal c with
               | Some n, Some d => Some (n * 10 + d)
               | _, _ => None
               end) (Some 0) t
  end.

(** The string begins with a character that is not a blank. *)
Definition starts_nonspace (t : text) : Prop :=
  exists c t', t = c :: t' /\ isspace c = false.

End Text.

(** ** Regular expressions, as [re] runs them *)

Module Re.
Import Text.

Inductive regex :=
| Eps
| Set_ (f : Z -> bool)
| Bol
| Eol
| Seq (r1 r2 : regex)
| Alt (r1 r2 : regex)
| Star (r : regex)
| Group (r : regex)
| Ahead (r : regex).

(** The span of group 1, when it took part in the match. *)
Definition caps := option (nat * nat).

(** A backtracking matcher in continuation-passing style: [run r s i c k]
    matches [r] against [s] from position [i] and hands the end position to
    [k]; alternatives are tried left to right and a star takes as many
    rounds as it can before giving one back. *)
Fixpoint run {R} (r : regex) (s : text) (i : nat) (c : caps)
    (k : nat -> caps -> option R) : option R :=
  match r with
  | Eps => k i c
  | Set_ f =>
      match s !! i with
      | Some x => if f x then k (S i) c else None
      | None => None
      end
  | Bol => if (i =? 0)%nat then k i c else None
  | Eol =>
      if (i =? length s)%nat
         || ((S i =? length s)%nat && bool_decide (s !! i = Some 10))
      then k i c else None
  | Seq r1 r2 => run r1 s i c (fun j c' => run r2 s j c' k)
  | Alt r1 r2 =>
      match run r1 s i c k with
      | Some x => Some x
      | None => run r2 s i c k
      end
  | Star r1 =>
      (fix loop (fuel : nat) (i : nat) (c : caps) : option R :=
         match fuel with
         | O => k i c
         | S fuel' =>
             match run r1 s i c
                     (fun j c' => if (i <? j)%nat then loop fuel' j c' else None) with
             | Some x => Some x
             | None => k i c
             end
         end) (S (length s - i)) i c
  | Group r1 => run r1 s i c (fun j _ => k j (Some (i, j)))
  | Ahead r1 =>
      match run r1 s i c (fun _ c' => Some c') with
      | Some c' => k i c'
      | None => None
      end
  end.

Record rmatch := mkMatch { m_start : nat; m_end : nat; m_caps : caps }.

Definition match_at (r : regex) (s : text) (i : nat) : option rmatch :=
  run r s i None (fun j c => Some (mkMatch i j c)).

(** [re.match(r, s)] *)
Definition re_match (r : regex) (s : text) : option rmatch := match_at r s 0.

(** The leftmost match that starts at [i] or up to [fuel] positions later. *)
Fixpoint search_from (fuel : nat) (r : regex) (s : text) (i : nat) : option rmatch :=
  match match_at r s i with
  | Some m => Some m
  | None =>
      match fuel with
      | O => None
      | S fuel' => search_from fuel' r s (S i)
      end
  end.

(** [re.search(r, s)] *)
Definition re_search (r : regex) (s : text) : option rmatch :=
  search_from (length s) r s 0.

Fixpoint finditer_from (fuel : nat) (r : regex) (s : text) (pos : nat) : list rmatch :=
  match fuel with
  | O => []
  | S fuel' =>
      if (length s <? pos)%nat then []
      else match search_from (length s - pos) r s pos with
           | None => []
           | Some m =>
               m :: finditer_from fuel' r s
                      (if (m_end m =? m_start m)%nat then S (m_end m) else m_end m)
           end
  end.

(** [list(re.finditer(r, s))]: the matches from left to right, none
    overlapping. *)
Definition finditer (r : regex) (s : text) : list rmatch :=
  finditer_from (S (length s)) r s 0.

(** [m.group(1)] *)
Definition group1 (s : text) (m : rmatch) : option text :=
  match m_caps m with
  | Some (a, b) => Some (substring s a b)
  | None => None
  end.

(** Pattern syntax. *)
Definition chr (c : Z) : regex := Set_ (fun x => x =? c).
Definition one_of (cs : text) : regex := Set_ (fun x => bool_decide (x ∈ cs)).
Definition space : regex := Set_ isspace.
Definition digit `{Unicode} : regex :=
  Set_ (fun x => match decimal x with Some _ => true | None => false end).
Definition any_char : regex := Set_ (fun x => negb (x =? 10)).
Definition opt (r : regex) : regex := Alt r Eps.
Definition plus (r : regex) : regex := Seq r (Star r).
Definition lit (t : text) : regex := foldr (fun c r => Seq (chr c) r) Eps t.
Definition alts (rs : list regex) : regex :=
  match rs with
  | [] => Eps
  | r :: rs' => foldl Alt r rs'
  end.
Fixpoint seqs (rs : list regex) : regex :=
  match rs with
  | [] => Eps
  | r :: rs' => Seq r (seqs rs')
  end.

End Re.

(** ** [main.py]: question segmentation and content parsing *)

Module Main.
Import Text Re.

(** The question types, named by strings in the source. *)
Inductive qtype :=
| Choice        (* 选择题 *)
| FillBlank     (* 填空题 *)
| Solve         (* 解答题 *)
| Judge         (* 判断题 *)
| ShortAnswer   (* 简答题 *)
| Essay         (* 论述题 *)
| Vocabulary    (* 词汇题 *)
| Reading       (* 阅读理解 *)
| Writing.      (* 写作题 *)

(** *** [parse_question_content] *)

Record option_item := mkOption { label : text; content : text }.
Record parsed := mkParsed { stem : text; options : list option_item }.

Definition noise_words : list regex :=
  [ lit (u "弥封线"); lit (u "密封线"); lit (u "装订线"); lit (u "答题卡");
    lit (u "考生须知"); lit (u "注意事项"); lit (u "姓名"); lit (u "班级");
    lit (u "学校"); lit (u "考号"); lit (u "不要答题");
    seqs [lit (u "第"); Star any_char; lit (u "页")];
    seqs [lit (u "共"); Star any_char; lit (u "页")] ].

Definition is_some {A} (o : option A) : bool :=
  match o with Some _ => true | None => false end.

Definition clean_line (line : text) : option text :=
  let line := strip line in
  match line with
  | [] => None
  | _ :: _ =>
      if existsb (fun w => is_some (re_search w line)) noise_words then None
      else Some line
  end.

Definition clean_text (ocr_text : text) : text :=
  let lines := split_on 10 ocr_text in
  let clean_lines := omap clean_line lines in
  join (u " ") clean_lines.

Definition option_letter : regex :=
  Set_ (fun x => ((65 <=? x) && (x <=? 68)) || ((97 <=? x) && (x <=? 100))).
Definition not_letter : regex :=
  Set_ (fun x => negb (((65 <=? x) && (x <=? 90)) || ((97 <=? x) && (x <=? 122)))).

(** [([A-Da-d])[\.、．::：]\s*] *)
Definition option_pattern_marked : regex :=
  seqs [Group option_letter; one_of (u ".、．::："); Star space].

(** [(?:^|\s)([A-Da-d])\s+(?=[^A-Za-z])] *)
Definition option_pattern_bare : regex :=
  seqs [Alt Bol space; Group option_letter; plus space; Ahead not_letter].

Definition option_patterns : list regex :=
  [option_pattern_marked; option_pattern_bare].

(** The loop over [option_patterns]: the matches of the first pattern that
    finds at least two, or none. *)
Fixpoint select_matches (patterns : list regex) (clean : text) : list rmatch :=
  match patterns with
  | [] => []
  | pattern :: rest =>
      let found := finditer pattern clean in
      if (2 <=? length found)%nat then found else select_matches rest clean
  end.

(** [match.group(1).upper()] *)
Definition match_label (clean : text) (m : rmatch) : text :=
  map upper (default [] (group1 clean m)).

(** The loop over [enumerate(matches)]; [found_labels] is the set of labels
    met so far. *)
Fixpoint collect_options (clean : text) (found_labels : gset text)
    (matches : list rmatch) : list option_item :=
  match matches with
  | [] => []
  | m :: rest =>
      let lbl := match_label clean m in
      if decide (lbl ∈ found_labels) then collect_options clean found_labels rest
      else
        let found_labels := {[lbl]} ∪ found_labels in
        let start := m_end m in
        let stop := match rest with
                    | next :: _ => m_start next
                    | [] => length clean
                    end in
        let content := strip (substring clean start stop) in
        match content with
        | [] => collect_options clean found_labels rest
        | _ :: _ => mkOption lbl content :: collect_options clean found_labels rest
        end
  end.

(** The order of Python strings: by code point, a prefix first. *)
Fixpoint text_le (a b : text) : bool :=
  match a, b with
  | [], _ => true
  | _ :: _, [] => false
  | x :: a', y :: b' => (x <? y) || ((x =? y) && text_le a' b')
  end.

Definition parse_question_content (ocr_text : text) : parsed :=
  match ocr_text with
  | [] => mkParsed [] []
  | _ :: _ =>
      let clean := clean_text ocr_text in
      let matches := select_matches option_patterns clean in
      match matches with
      | [] => mkParsed (strip clean) []
      | first :: _ =>
          let first_option_pos := m_start first in
          let stem := strip (take first_option_pos clean) in
          let options := collect_options clean ∅ matches in
          mkParsed stem (sort_by (fun a b => text_le (label a) (label b)) options)
      end
  end.

(** What the properties of the parser are stated with. *)


Definition boundary (clean : text) (ms : list rmatch) (i : nat) : nat :=
  match ms !! S i with
  | Some next => m_start next
  | None => length clean
  end.

(** What the option loop keeps: for each label its first match, when the
    text up to the next match is not blank. *)
Definition kept_from (clean : text) (ms : list rmatch) (o : option_item) : Prop :=
  exists i m,
    ms !! i = Some m
    /\ label o = match_label clean m
    /\ (forall j m', (j < i)%nat -> ms !! j = Some m' -> match_label clean m' <> label o)
    /\ content o = strip (substring clean (m_end m) (boundary clean ms i))
    /\ content o <> [].

(** *** [split_by_question_number] *)

Definition chinese_num_map : list (text * Z) :=
  [ (u "一", 1); (u "二", 2); (u "三", 3); (u "四", 4); (u "五", 5);
    (u "六", 6); (u "七", 7); (u "八", 8); (u "九", 9); (u "十", 10);
    (u "十一", 11); (u "十二", 12); (u "十三", 13); (u "十四", 14); (u "十五", 15);
    (u "十六", 16); (u "十七", 17); (u "十八", 18); (u "十九", 19); (u "二十", 20) ].

(** [d.get(key)] *)
Fixpoint dict_get {V} (d : list (text * V)) (key : text) : option V :=
  match d with
  | [] => None
  | (k, v) :: d' => if decide (k = key) then Some v else dict_get d' key
  end.

Inductive ptype := num | chinese | num_only.

Section Patterns.
Context `{Unicode}.

Definition digits12 : regex := Seq digit (opt digit).
Definition separator : regex := one_of (u ".、．::：").
Definition cn_digit : regex := one_of (u "一二三四五六七八九").
Definition cn_numeral : regex := one_of (u "一二三四五六七八九十").

Definition question_patterns : list (regex * ptype) :=
  [ (seqs [Bol; Star space; Group digits12; Star space; separator], num);
    (seqs [Bol; Star space; Group digits12; Star space; opt (one_of (u ",，"));
           Star space; one_of (u "若设已如当则求")], num);
    (seqs [Bol; Star space; one_of (u "（("); Star space; Group digits12;
           Star space; one_of (u "）)")], num);
    (seqs [Bol; Star space; chr 91; Star space; Group digits12; Star space; chr 93], num);
    (seqs [Bol; Star space; chr 123; Star space; Group digits12; Star space; chr 125], num);
    (seqs [Bol; Star space; Group (Seq (lit (u "十")) (opt cn_digit));
           Star space; separator], chinese);
    (seqs [Bol; Star space; Group cn_digit; Star space; separator], chinese);
    (seqs [Bol; Star space; lit (u "第"); Star space; Group digits12; Star space;
           lit (u "题")], num);
    (seqs [Bol; Star space; lit (u "第"); Star space; Group (plus cn_numeral);
           Star space; lit (u "题")], chinese);
    (seqs [Bol; Star space; Group digits12; Star space; Eol], num_only) ].

Definition section_prefix : list regex :=
  [plus cn_numeral; Star space; opt (one_of (u ".、．")); Star space].

Definition section_patterns : list (regex * qtype) :=
  [ (seqs (section_prefix ++ [alts [lit (u "选择"); lit (u "单选"); lit (u "多选")]]), Choice);
    (seqs (section_prefix ++ [lit (u "填空")]), FillBlank);
    (seqs (section_prefix ++ [alts [lit (u "解答"); lit (u "计算")]]), Solve);
    (seqs (section_prefix ++ [alts [lit (u "判断"); lit (u "是非")]]), Judge);
    (seqs (section_prefix ++ [lit (u "简答")]), ShortAnswer);
    (seqs (section_prefix ++ [lit (u "论述")]), Essay);
    (seqs (section_prefix ++ [lit (u "词汇")]), Vocabulary);
    (seqs (section_prefix ++ [lit (u "阅读")]), Reading);
    (seqs (section_prefix ++ [alts [lit (u "写作"); lit (u "作文")]]), Writing) ].

Definition question_type_keywords : list (qtype * list regex) :=
  [ (Choice, [ lit (u "A."); lit (u "B."); lit (u "C."); lit (u "D.");
               lit (u "A．"); lit (u "B．");
               seqs [lit (u "（"); Star space; lit (u "）")];
               seqs [chr 40; Star space; chr 41];
               lit (u "选项") ]);
    (FillBlank, [ plus (chr 95); plus (lit (u "—")); plus (lit (u "＿"));
                  lit (u "填入"); lit (u "填写") ]);
    (Judge, [ lit (u "对错"); lit (u "正确"); lit (u "错误"); lit (u "√");
              lit (u "×"); lit (u "对的打"); lit (u "错的打") ]);
    (Solve, [ lit (u "求"); lit (u "证明"); lit (u "解答"); lit (u "计算"); lit (u "化简") ]);
    (ShortAnswer, [ lit (u "简述"); lit (u "说明"); lit (u "解释"); lit (u "分析") ]) ].

Definition noise_keywords : list text :=
  [ u "答题前"; u "考生务必"; u "姓名"; u "考生号"; u "考场"; u "座位";
    u "考试结束"; u "试卷和答题卡"; u "一并交回";
    u "本试卷"; u "考试内容"; u "必修"; u "第六章";
    u "注意事项"; u "答题卡"; u "密封线" ].

Definition extract_question_number (text : text) (pattern : regex) (pt : ptype) : option Z :=
  match re_match pattern text with
  | None => None
  | Some m =>
      let num_str := default [] (group1 text m) in
      match pt with
      | chinese => dict_get chinese_num_map num_str
      | _ => int_of num_str
      end
  end.

Definition detect_question_type (text : text) : option qtype :=
  fst <$> List.find (fun entry => existsb (fun kw => is_some (re_search kw text)) entry.2)
            question_type_keywords.

(** [any(kw in text for kw in noise_keywords)] *)
Definition is_noise (text : text) : bool :=
  existsb (contains text) noise_keywords.

(** The first section pattern found in the line, if any. *)
Definition section_of (text : text) : option qtype :=
  snd <$> List.find (fun entry => is_some (re_search entry.1 text)) section_patterns.

(** The number the first pattern that yields one extracts. *)
Fixpoint first_number (patterns : list (regex * ptype)) (text : text) : option Z :=
  match patterns with
  | [] => None
  | (pattern, pt) :: rest =>
      match extract_question_number text pattern pt with
      | Some n => Some n
      | None => first_number rest text
      end
  end.

Definition question_number (text : text) : option Z :=
  first_number question_patterns text.

End Patterns.

(** A line of the recognised text, and a question under construction (the
    dictionaries of the source). Vertical positions are whole pixel rows, so
    [int(...)] leaves them as they are. *)
Record line := mkLine { line_text : text; line_y0 : Z }.

Record question := mkQuestion {
  q_index : Z;
  q_y0 : Z;
  q_y1 : Z;
  q_first_line : text;
  q_lines : list text;
  q_type : option qtype;
}.

(** The variables of the main loop. *)
Record state := mkState {
  questions : list question;
  current_question : option question;
  current_section_type : option qtype;
  used_numbers : gset Z;
}.

Definition initial_state : state := mkState [] None None ∅.

(** The indices of the questions found so far, the open one last. *)
Definition indices (st : state) : list Z :=
  map q_index (questions st) ++ map q_index (option_list (current_question st)).

Definition consistent (st : state) : Prop :=
  NoDup (indices st) /\ forall n, n ∈ indices st <-> n ∈ used_numbers st.

(** Closing a question: its [y1] is set when the next one starts, and its
    first line joins its lines. *)
Definition close_question (q : question) (y1 : Z) : question :=
  mkQuestion (q_index q) (q_y0 q) y1 (q_first_line q)
             (q_lines q ++ [q_first_line q]) (q_type q).

Definition append_line `{Unicode} (q : question) (text : text) : question :=
  let q := mkQuestion (q_index q) (q_y0 q) (q_y1 q) (q_first_line q)
                      (q_lines q ++ [text]) (q_type q) in
  match q_type q with
  | Some _ => q
  | None =>
      match detect_question_type text with
      | Some detected_type =>
          mkQuestion (q_index q) (q_y0 q) (q_y1 q) (q_first_line q) (q_lines q)
                     (Some detected_type)
      | None => q
      end
  end.

Definition set_section (st : state) (t : option qtype) : state :=
  mkState (questions st) (current_question st) t (used_numbers st).

(** One round of [for i, line in enumerate(lines)]. *)
Definition step `{Unicode} (height : Z) (st : state) (ln : line) : state :=
  let text := line_text ln in
  let y0 := line_y0 ln in
  if is_noise text then st
  else
    let st := match section_of text with
              | Some section_type => set_section st (Some section_type)
              | None => st
              end in
    match question_number text with
    | Some question_num =>
        if decide (question_num ∈ used_numbers st) then st
        else if (question_num <? 1) || (question_num >? 100) then st
        else
          let detected_type :=
            match detect_question_type text with
            | Some t => Some t
            | None => current_section_type st
            end in
          let questions :=
            match current_question st with
            | Some q => questions st ++ [close_question q (y0 - 5)]
            | None => questions st
            end in
          mkState questions
                  (Some (mkQuestion question_num y0 height text [] detected_type))
                  (current_section_type st)
                  ({[question_num]} ∪ used_numbers st)
    | None =>
        match current_question st with
        | Some q =>
            mkState (questions st) (Some (append_line q text))
                    (current_section_type st) (used_numbers st)
        | None => st
        end
    end.

(** The questions in the order they were found, the last one closed at the
    end of the input. *)
Definition flush (st : state) : list question :=
  match current_question st with
  | Some q => questions st ++ [close_question q (q_y1 q)]
  | None => questions st
  end.

Definition assemble `{Unicode} (height : Z) (lines : list line) : list question :=
  flush (foldl (step height) initial_state lines).

(** [questions.sort(key=lambda x: x["index"])] *)
Definition sort_questions (qs : list question) : list question :=
  sort_by (fun a b => q_index a <=? q_index b) qs.

(** [image_to_base64], which hands the crop to the imaging library. *)
Class Imaging := { image_to_base64 : image -> result text }.

Record split_result := mkResult {
  r_index : Z;
  r_base64 : text;
  r_ocrText : text;
  r_stem : text;
  r_options : list option_item;
  r_type : option qtype;
  r_y0 : Z;
  r_y1 : Z;
}.

Definition ocr_text_of (q : question) : text :=
  match q_lines q with
  | [] => q_first_line q
  | _ :: _ =>
      join [10] (q_first_line q :: filter (fun l => l ≠ q_first_line q) (q_lines q))
  end.

(** One round of the cropping loop; [y1] is the end position computed from
    the next question. [None] stands for [continue]. *)
Definition crop_question `{Imaging} (img_array : image) (q : question) (y1 : Z)
  : option split_result :=
  let height := height img_array in
  let y0 := Z.max 0 (q_y0 q - 10) in
  let y1 := Z.min height (y1 + 10) in
  let '(y0, y1) :=
    if y0 >=? y1
    then (Z.max 0 (q_y0 q), Z.min height (Z.max 0 (q_y0 q) + 100))
    else (y0, y1) in
  if y1 <=? y0 then None
  else
    let cropped := py_slice img_array y0 y1 in
    if (length cropped =? 0)%nat || (length (hd [] cropped) =? 0)%nat then None
    else
      let ocr_text := ocr_text_of q in
      let parsed := parse_question_content ocr_text in
      match image_to_base64 cropped with
      | Raise _ => None
      | Ok b64 =>
          Some (mkResult (q_index q) b64 ocr_text (stem parsed) (options parsed)
                         (q_type q) y0 y1)
      end.

Fixpoint crop_questions `{Imaging} (img_array : image) (qs : list question)
  : list split_result :=
  match qs with
  | [] => []
  | q :: rest =>
      let y1 := match rest with
                | next :: _ => q_y0 next - 5
                | [] => height img_array
                end in
      match crop_question img_array q y1 with
      | Some r => r :: crop_questions img_array rest
      | None => crop_questions img_array rest
      end
  end.

Definition split_by_question_number `{Unicode} `{Imaging}
    (lines : list line) (img_array : image) : list split_result :=
  let questions := assemble (height img_array) lines in
  let questions := sort_questions questions in
  crop_questions img_array questions.

End Main.

(** ** Shapes and lookups *)

(** The row lengths of an array, and the entry at row [y], column [x]. *)
Definition shape {A} (g : grid A) : list nat := map length g.
Definition px {A} (g : grid A) (y x : nat) : option A := g !! y ≫= (.!! x).


(** ** Stand-ins for the collaborators, for worked examples *)

Module Sample.

(** HSV of a BGR pixel on the 8-bit scale (hue in 0..179), in integer
    arithmetic. *)
Definition hsv_of_bgr (p : pixel) : pixel :=
  let '(b, g, r) := p in
  let v := Z.max b (Z.max g r) in
  let m := Z.min b (Z.min g r) in
  let diff := v - m in
  let s := if v =? 0 then 0 else 255 * diff / v in
  let h :=
    if diff =? 0 then 0
    else if v =? r then (30 * (g - b) / diff) mod 180
    else if v =? g then 60 + 30 * (b - r) / diff
    else 120 + 30 * (r - g) / diff in
  (h, s, v).

Definition gray_of_bgr (p : pixel) : Z :=
  (114 * p.1.1 + 587 * p.1.2 + 299 * p.2 + 500) / 1000.

(** The plain mean of the whole picture, for the weighted local one. *)
Definition global_mean (g : grid Z) : Z :=
  let vs := concat g in
  match vs with
  | [] => 0
  | _ :: _ => foldr Z.add 0 vs / Z.of_nat (length vs)
  end.

(** Small-angle value of the arc tangent, in degrees. *)
Definition slope_deg (dy dx : Z) : Q :=
  if dx =? 0 then 90%Q else (573 * dy # 1) / (10 * dx # 1).

Definition cv (inpaint_result : image -> mask -> result image)
    (lines : option (list segment)) : OpenCV :=
  {| bgr2hsv := hsv_of_bgr;
     bgr2gray := gray_of_bgr;
     gaussian_mean := fun g _ _ _ => global_mean g;
     gaussian_blur3 := fun img y x => get2d (255, 255, 255) img y x;
     inpaint := fun img m _ => inpaint_result img m;
     hough_lines := fun _ => lines;
     atan2_deg := slope_deg;
     getPerspectiveTransform := fun _ _ => [];
     warp_perspective_at := fun _ _ _ _ => (255, 255, 255);
     warp_perspective_gray_at := fun _ _ _ _ => 255;
     rotated_size := fun h w _ => (w, h);
     warp_affine_at := fun _ _ _ _ => (255, 255, 255);
     warp_affine_gray_at := fun _ _ _ _ => 255 |}.

(** A white page with a dark gray 3x3 blot, RGB. *)
Definition blot_page : image :=
  let w := (255, 255, 255) in
  let d := (40, 40, 40) in
  [ [w; w; w; w; w; w; w];
    [w; w; w; w; w; w; w];
    [w; w; d; d; d; w; w];
    [w; w; d; d; d; w; w];
    [w; w; d; d; d; w; w];
    [w; w; w; w; w; w; w];
    [w; w; w; w; w; w; w] ].

(** A white page with a blue stroke, RGB. *)
Definition blue_page : image :=
  let w := (255, 255, 255) in
  let b := (20, 30, 200) in
  [ [w; w; w; w; w];
    [w; w; w; w; w];
    [w; w; b; w; w];
    [w; w; w; w; w];
    [w; w; w; w; w] ].

(** The collaborator with an inpainting routine that raises. *)
Definition failing_cv : OpenCV := cv (fun _ _ => Raise cv2_error) None.

(** One whose inpainting whitens the masked pixels, and whose line detector
    reports the given segments. *)
Definition working_cv (lines : list segment) : OpenCV :=
  cv (fun img m => Ok (Erase.fill_white img m)) (Some lines).

(** The decimal digits of ASCII, an encoder that always succeeds, and a
    white page. *)
Definition ascii_unicode : Text.Unicode := {| Text.decimal := Text.ascii_decimal |}.
Definition no_imaging : Main.Imaging := {| Main.image_to_base64 := fun _ => Ok [] |}.
Definition blank_page (rows cols : nat) : image := repeat (repeat (255, 255, 255) cols) rows.

End Sample.


(** ** What a pattern can match *)

Module ReSem.
Import Text Re.

(** [matches s r i c j c']: the pattern [r] matches [s] from position [i] to
    position [j] and turns the span of group 1 from [c] into [c']. *)
Inductive matches (s : text) : regex -> nat -> caps -> nat -> caps -> Prop :=
| matches_eps i c : matches s Eps i c i c
| matches_set f i c x :
    s !! i = Some x -> f x = true -> matches s (Set_ f) i c (S i) c
| matches_bol c : matches s Bol 0 c 0 c
| matches_eol i c :
    i = length s \/ (S i = length s /\ s !! i = Some 10) -> matches s Eol i c i c
| matches_seq r1 r2 i c j c1 j' c2 :
    matches s r1 i c j c1 -> matches s r2 j c1 j' c2 ->
    matches s (Seq r1 r2) i c j' c2
| matches_alt_l r1 r2 i c j c' :
    matches s r1 i c j c' -> matches s (Alt r1 r2) i c j c'
| matches_alt_r r1 r2 i c j c' :
    matches s r2 i c j c' -> matches s (Alt r1 r2) i c j c'
| matches_star_stop r i c : matches s (Star r) i c i c
| matches_star_more r i c j c1 j' c2 :
    matches s r i c j c1 -> (i < j)%nat -> matches s (Star r) j c1 j' c2 ->
    matches s (Star r) i c j' c2
| matches_group r i c j c1 :
    matches s r i c j c1 -> matches s (Group r) i c j (Some (i, j))
| matches_ahead r i c j c1 :
    matches s r i c j c1 -> matches s (Ahead r) i c i c1.

(** The pattern has no capturing group. *)
Fixpoint no_group (r : regex) : bool :=
  match r with
  | Eps | Set_ _ | Bol | Eol => true
  | Seq r1 r2 | Alt r1 r2 => no_group r1 && no_group r2
  | Star r1 | Ahead r1 => no_group r1
  | Group _ => false
  end.

(** The patterns under the capturing groups of a pattern. *)
Fixpoint groups (r : regex) : list regex :=
  match r with
  | Eps | Set_ _ | Bol | Eol => []
  | Seq r1 r2 | Alt r1 r2 => groups r1 ++ groups r2
  | Star r1 | Ahead r1 => groups r1
  | Group r1 => r1 :: groups r1
  end.

End ReSem.

(** ** What holds of the questions while they are assembled *)

Module Invariant.
Import Text Re Main.

Section Lines.
Context `{Unicode}.

(** The first line of a question carries its number, which lies in 1..100;
    the lines after it carry none; no line is noise; and every line
    satisfies [P] (for instance: it is a line of the input). *)
Definition head_ok (P : text -> Prop) (q : question) : Prop :=
  question_number (q_first_line q) = Some (q_index q)
  /\ is_noise (q_first_line q) = false
  /\ P (q_first_line q)
  /\ 1 <= q_index q <= 100.

Definition cont_ok (P : text -> Prop) (t : text) : Prop :=
  question_number t = None /\ is_noise t = false /\ P t.

(** The open question, and a closed one, whose first line has joined its
    lines. *)
Definition open_ok (P : text -> Prop) (q : question) : Prop :=
  head_ok P q /\ Forall (cont_ok P) (q_lines q).

Definition closed_ok (P : text -> Prop) (q : question) : Prop :=
  head_ok P q
  /\ exists conts, q_lines q = conts ++ [q_first_line q] /\ Forall (cont_ok P) conts.

Definition state_ok (P : text -> Prop) (st : state) : Prop :=
  Forall (closed_ok P) (questions st)
  /\ forall q, current_question st = Some q -> open_ok P q.

End Lines.

End Invariant.

(** ** [main.py]: subject detection *)

Module Subject.
Import Text.

(** The keys of [SUBJECT_FEATURES], and the two engine names. *)
Inductive subject :=
| Math | Physics | Chemistry | Chinese | English
| Biology | History | Geography | Politics.

Inductive engine := Pix2text | Paddleocr.

Record features := mkFeatures {
  f_name : text;
  keywords : list text;
  f_engine : engine;
}.

(** The table, in the order the dictionary lists it. *)
Definition SUBJECT_FEATURES : list (subject * features) :=
  [
    (Math, mkFeatures (u "数学")
      [
        u "∫"; u "√"; u "²"; u "³"; u "π"; u "∑"; u "∏"; u "∞"; u "≠"; u "≤";
        u "≥"; u "±"; u "×"; u "÷"; u "sin"; u "cos"; u "tan"; u "log"; u "ln"; u "lim";
        u "dx"; u "dy"; u "方程"; u "求解"; u "证明"; u "函数"; u "导数";
        u "积分"; u "极限"; u "向量"; u "矩阵"; u "行列式"; u "概率"; u "统计";
        u "三角"; u "几何"; u "代数"; u "集合"; u "不等式"; u "数列"; u "等差";
        u "等比"; u "排列"; u "组合"; u "椭圆"; u "双曲线"; u "抛物线";
        u "圆锥"; u "正弦"; u "余弦"; u "正切"; u "对数"; u "指数"; u "幂函数";
        u "复数"; u "虚数"; u "实数"; u "有理数"; u "f(x)"; u "g(x)"; u "y="; u "x=";
        u "△ABC"; u "∠"; u "⊥"; u "∥"; u "∩"; u "∪" ]
      Pix2text);
    (Physics, mkFeatures (u "物理")
      [
        u "m/s"; u "m/s²"; u "kg"; u "N"; u "J"; u "W"; u "Pa"; u "Hz"; u "Ω"; u "V"; u "A";
        u "v="; u "a="; u "F="; u "E="; u "P="; u "ρ="; u "λ="; u "加速度"; u "速度";
        u "位移"; u "动能"; u "势能"; u "功率"; u "电压"; u "电流"; u "电阻";
        u "磁场"; u "电场"; u "引力"; u "摩擦力"; u "弹力"; u "重力"; u "牛顿";
        u "焦耳"; u "瓦特"; u "欧姆"; u "安培"; u "伏特"; u "匀速"; u "匀加速";
        u "自由落体"; u "抛体"; u "圆周运动"; u "简谐运动"; u "光学";
        u "折射"; u "反射"; u "干涉"; u "衍射"; u "量子"; u "原子"; u "核" ]
      Pix2text);
    (Chemistry, mkFeatures (u "化学")
      [
        u "H₂O"; u "CO₂"; u "O₂"; u "N₂"; u "H₂"; u "NaCl"; u "H₂SO₄"; u "HCl";
        u "NaOH"; u "mol"; u "mol/L"; u "pH"; u "→"; u "⇌"; u "反应"; u "方程式";
        u "化合"; u "分解"; u "置换"; u "复分解"; u "氧化"; u "还原"; u "酸";
        u "碱"; u "盐"; u "离子"; u "原子"; u "分子"; u "元素"; u "化合物";
        u "混合物"; u "纯净物"; u "溶液"; u "溶质"; u "溶剂"; u "摩尔";
        u "质量"; u "浓度"; u "电解"; u "电离"; u "水解"; u "有机"; u "无机";
        u "烷"; u "烯"; u "炔"; u "醇"; u "醛"; u "酸"; u "酯" ]
      Pix2text);
    (Chinese, mkFeatures (u "语文")
      [
        u "阅读"; u "理解"; u "作文"; u "写作"; u "诗词"; u "文言文";
        u "白话文"; u "修辞"; u "比喻"; u "拟人"; u "排比"; u "对偶"; u "夸张";
        u "主旨"; u "中心思想"; u "段落"; u "概括"; u "赏析"; u "鉴赏";
        u "论述"; u "议论"; u "记叙"; u "说明"; u "描写"; u "抒情"; u "字词";
        u "拼音"; u "笔画"; u "偏旁"; u "成语"; u "词语"; u "名著"; u "文学";
        u "散文"; u "小说"; u "戏剧"; u "诗歌" ]
      Paddleocr);
    (English, mkFeatures (u "英语")
      [
        u "reading"; u "comprehension"; u "listening"; u "writing"; u "grammar";
        u "vocabulary"; u "tense"; u "passive"; u "clause"; u "phrase"; u "完形填空";
        u "阅读理解"; u "语法填空"; u "短文改错"; u "书面表达"; u "听力";
        u "口语"; u "翻译"; u "词汇"; u "语法"; u "时态"; u "语态"; u "the";
        u "is"; u "are"; u "was"; u "were"; u "have"; u "has"; u "had" ]
      Paddleocr);
    (Biology, mkFeatures (u "生物")
      [
        u "细胞"; u "基因"; u "DNA"; u "RNA"; u "蛋白质"; u "氨基酸";
        u "光合作用"; u "呼吸作用"; u "新陈代谢"; u "遗传"; u "变异";
        u "进化"; u "生态"; u "种群"; u "群落"; u "生态系统"; u "食物链";
        u "能量流动"; u "神经"; u "激素"; u "免疫"; u "内环境"; u "稳态";
        u "有丝分裂"; u "减数分裂"; u "染色体"; u "等位基因" ]
      Paddleocr);
    (History, mkFeatures (u "历史")
      [
        u "朝代"; u "战争"; u "革命"; u "改革"; u "运动"; u "条约"; u "秦";
        u "汉"; u "唐"; u "宋"; u "元"; u "明"; u "清"; u "鸦片战争";
        u "辛亥革命"; u "五四运动"; u "抗日战争"; u "解放战争";
        u "世界大战"; u "工业革命"; u "文艺复兴"; u "启蒙运动"; u "历史";
        u "史料"; u "考古"; u "文物"; u "遗址" ]
      Paddleocr);
    (Geography, mkFeatures (u "地理")
      [
        u "地形"; u "气候"; u "水文"; u "土壤"; u "植被"; u "经度"; u "纬度";
        u "等高线"; u "比例尺"; u "方向"; u "大气"; u "洋流"; u "板块";
        u "地震"; u "火山"; u "人口"; u "城市"; u "交通"; u "农业"; u "工业";
        u "服务业"; u "自然资源"; u "环境"; u "可持续发展" ]
      Paddleocr);
    (Politics, mkFeatures (u "政治")
      [
        u "国家"; u "政府"; u "公民"; u "权利"; u "义务"; u "法律"; u "民主";
        u "法治"; u "人民代表大会"; u "政协"; u "党"; u "经济"; u "市场";
        u "宏观调控"; u "财政"; u "税收"; u "哲学"; u "唯物"; u "辩证法";
        u "认识论"; u "价值观"; u "文化"; u "传统"; u "创新"; u "民族精神" ]
      Paddleocr)
  ].

(** The built-ins whose result rests on the Unicode database or on binary
    floating point: [str.lower], and [round(x, 2)] at the float [x] nearest
    to the given fraction (a quotient of two integers is computed as
    that float). *)
Class Builtins := {
  lower : text -> text;
  round2 : Q -> Q;
}.

(** [subject in ["math", "physics", "chemistry"]] *)
Definition is_formula_subject (s : subject) : bool :=
  match s with
  | Math | Physics | Chemistry => true
  | _ => false
  end.

(** One round of the loop over the keywords of a subject; the accumulator
    holds [score] and [matched_keywords]. *)
Definition count_keyword `{Builtins} (s : subject) (text_lower : text)
    (acc : Z * list text) (keyword : text) : Z * list text :=
  let '(score, matched_keywords) := acc in
  let keyword_lower := lower keyword in
  if contains text_lower keyword_lower then
    let score := score + 1 in
    let matched_keywords := matched_keywords ++ [keyword] in
    let score :=
      if is_formula_subject s && (length keyword <=? 3)%nat then score + 2 else score in
    (score, matched_keywords)
  else (score, matched_keywords).

Definition tally `{Builtins} (s : subject) (text_lower : text) (kws : list text)
  : Z * list text :=
  foldl (count_keyword s text_lower) (0, []) kws.

(** An entry of [scores]. *)
Record score_entry := mkScore {
  score : Z;
  matched : list text;
  s_engine : engine;
  s_name : text;
}.

Definition score_subject `{Builtins} (text_lower : text) (entry : subject * features)
  : option (subject * score_entry) :=
  let '(s, features) := entry in
  let '(score, matched_keywords) := tally s text_lower (keywords features) in
  if score >? 0
  then Some (s, mkScore score (take 5 matched_keywords) (f_engine features) (f_name features))
  else None.

Definition all_scores `{Builtins} (text_lower : text) : list (subject * score_entry) :=
  omap (score_subject text_lower) SUBJECT_FEATURES.

(** [max(xs, key=...)]: the first element of greatest key. *)
Definition max_by {A} (key : A -> Z) (xs : list A) : option A :=
  match xs with
  | [] => None
  | x :: xs' => Some (foldl (fun best y => if key y >? key best then y else best) x xs')
  end.

(** The dictionary [detect_subject] returns; the unknown one has no
    [matched_keywords]. *)
Record detection := mkDetection {
  d_subject : option subject;
  d_name : text;
  d_confidence : Q;
  d_engine : engine;
  d_matched_keywords : option (list text);
}.

Definition unknown : detection := mkDetection None (u "未知") 0 Paddleocr None.

Definition points (e : subject * score_entry) : Z := score e.2.

Definition detect_subject `{Builtins} (text : text) : detection :=
  match text with
  | [] => unknown
  | _ :: _ =>
      let text_lower := lower text in
      let scores := all_scores text_lower in
      match max_by points scores with
      | None => unknown
      | Some (best_subject, best_info) =>
          let total_score := foldr Z.add 0 (map points scores) in
          let confidence :=
            if total_score >? 0
            then (inject_Z (score best_info) / inject_Z total_score)%Q
            else 0%Q in
          mkDetection (Some best_subject) (s_name best_info) (round2 confidence)
                      (s_engine best_info) (Some (matched best_info))
      end
  end.

(** The keywords of a list that occur in the text. *)
Definition hits `{Builtins} (text_lower : text) (kws : list text) : list text :=
  List.filter (fun kw => contains text_lower (lower kw)) kws.

End Subject.

(** ** [main.py]: running the recognition engines *)

Module Ocr.
Import Text EraseServer Subject.

(** A recognised line: the dictionary with keys [text], [confidence], [y0],
    [y1], [x0], [x1]. *)
Record ocr_line := mkOcrLine {
  l_text : text;
  l_confidence : Q;
  l_y0 : Z;
  l_y1 : Z;
  l_x0 : Z;
  l_x1 : Z;
}.

(** The corners [[x, y], ...] of a text box. *)
Abbreviation poly := (list (Q * Q)) (only parsing).

(** What [ocr.predict] returns for one picture: the dictionary of the
    current PaddleOCR with its key [rec_texts] (a missing [rec_scores] or
    [rec_polys] reads as the empty list), or the list of
    [[box, (text, confidence)]] items of the older one. [None] and the empty
    list behave as [Legacy []]. *)
Inductive page :=
| Page (rec_texts : list text) (rec_scores : list Q) (rec_polys : list poly)
| Legacy (items : list (poly * (text * Q))).

(** What [p2t.recognize] returns: a string, a dictionary with a string
    under the key [text], or anything else, of which [str(_)] is taken. *)
Inductive p2t_output :=
| P2tStr (t : text)
| P2tDict (t : text)
| P2tOther (repr : text).

(** The two engines: loading them (an import and a constructor call, which
    can fail) and running them on a picture. *)
Class Engines := {
  load_paddleocr : result unit;
  predict : ndarray -> result (list page);
  load_pix2text : result unit;
  recognize : ndarray -> result p2t_output;
}.

(** The module-level [ocr_engine] (loaded or not) and [p2t_engine] ([None]
    before the first attempt, then the engine or [False]). *)
Record globals := mkGlobals {
  ocr_engine : bool;
  p2t_engine : option bool;
}.

(** Code that reads and writes the globals and may raise. *)
Definition M (A : Type) : Type := globals -> globals * result A.

Definition ret {A} (a : A) : M A := fun g => (g, Ok a).

Definition bind {A B} (m : M A) (k : A -> M B) : M B :=
  fun g =>
    match m g with
    | (g', Ok a) => k a g'
    | (g', Raise e) => (g', Raise e)
    end.

Definition lift {A} (r : result A) : M A := fun g => (g, r).

Notation "x <-m m ;; k" := (bind m (fun x => k))
  (at level 100, m at next level, right associativity).

Definition get_ocr_engine `{Engines} : M unit :=
  fun g =>
    if ocr_engine g then (g, Ok tt)
    else match load_paddleocr with
         | Ok _ => (mkGlobals true (p2t_engine g), Ok tt)
         | Raise e => (g, Raise e)
         end.

(** Returns whether the engine is there; a failed attempt is remembered. *)
Definition get_p2t_engine `{Engines} (g : globals) : globals * bool :=
  match p2t_engine g with
  | None =>
      match load_pix2text with
      | Ok _ => (mkGlobals (ocr_engine g) (Some true), true)
      | Raise _ => (mkGlobals (ocr_engine g) (Some false), false)
      end
  | Some available => (g, available)
  end.

(** [int(x)]: towards zero. *)
Definition py_int (x : Q) : Z := Z.quot (Qnum x) (Zpos (Qden x)).

(** [min(xs)] and [max(xs)]; a [ValueError] on the empty list. *)
Definition py_min (xs : list Q) : result Q :=
  match xs with
  | [] => Raise ValueError
  | x :: xs' => Ok (foldl (fun m y => if Qltb y m then y else m) x xs')
  end.

Definition py_max (xs : list Q) : result Q :=
  match xs with
  | [] => Raise ValueError
  | x :: xs' => Ok (foldl (fun m y => if Qltb m y then y else m) x xs')
  end.

(** [(y0, y1, x0, x1)] of a box. *)
Definition bounds (poly : poly) : result (Z * Z * Z * Z) :=
  let x_coords := map fst poly in
  let y_coords := map snd poly in
  y_min <-r py_min y_coords ;;
  y_max <-r py_max y_coords ;;
  x_min <-r py_min x_coords ;;
  x_max <-r py_max x_coords ;;
  Ok (py_int y_min, py_int y_max, py_int x_min, py_int x_max).

(** One round of the loop over [enumerate(texts)]. *)
Definition page_line (scores : list Q) (polys : list poly) (idx : nat) (text : text)
  : result ocr_line :=
  let confidence := default 0%Q (scores !! idx) in
  match polys !! idx with
  | None => Ok (mkOcrLine text confidence 0 0 0 0)
  | Some poly =>
      b <-r bounds poly ;;
      let '(y0, y1, x0, x1) := b in
      Ok (mkOcrLine text confidence y0 y1 x0 x1)
  end.

(** One round of the loop over the items of the older format. *)
Definition legacy_line (item : poly * (text * Q)) : result ocr_line :=
  let '(bbox, (text, confidence)) := item in
  b <-r bounds bbox ;;
  let '(y0, y1, x0, x1) := b in
  Ok (mkOcrLine text confidence y0 y1 x0 x1).

(** A [for] loop that appends one line per round to [lines]; when a round
    raises, the lines appended before it stay in [lines]. *)
Fixpoint append_each {A} (f : nat -> A -> result ocr_line) (idx : nat) (xs : list A)
    (lines : list ocr_line) : list ocr_line * option exn :=
  match xs with
  | [] => (lines, None)
  | x :: xs' =>
      match f idx x with
      | Ok l => append_each f (S idx) xs' (lines ++ [l])
      | Raise e => (lines, Some e)
      end
  end.

(** [lines.sort(key=lambda x: x["y0"])] *)
Definition sort_lines (lines : list ocr_line) : list ocr_line :=
  sort_by (fun a b => l_y0 a <=? l_y0 b) lines.

(** *** [get_lines_with_position] *)

(** The lines made up from the text alone: line [i] of the text, when it is
    not blank, in a band of 30 rows. *)
Definition fallback_lines (p2t_text : text) : list ocr_line :=
  match p2t_text with
  | [] => []
  | _ :: _ =>
      let text_lines := split_on 10 p2t_text in
      let height_per_line := 30 in
      omap id
        (imap (fun i text =>
                 match strip text with
                 | [] => None
                 | _ :: _ =>
                     Some (mkOcrLine text 1 (Z.of_nat i * height_per_line)
                                     ((Z.of_nat i + 1) * height_per_line) 0 500)
                 end) text_lines)
  end.

(** The body of the [try] block after [predict] has returned. *)
Definition extract_lines (result : list page) (lines : list ocr_line)
  : list ocr_line * option exn :=
  match result with
  | Page texts scores polys :: _ => append_each (page_line scores polys) 0 texts lines
  | Legacy items :: _ => append_each (fun _ => legacy_line) 0 items lines
  | [] => (lines, None)
  end.

Definition get_lines_with_position `{Engines} (img_array : ndarray) (p2t_text : text)
  : globals -> globals * list ocr_line :=
  fun g =>
    let lines := [] in
    match (_ <-m get_ocr_engine ;; lift (predict img_array)) g with
    | (g, Ok result) =>
        match extract_lines result lines with
        | (lines, None) => (g, lines)
        | (lines, Some _) => (g, lines ++ fallback_lines p2t_text)
        end
    | (g, Raise _) => (g, lines ++ fallback_lines p2t_text)
    end.

(** *** [multi_engine_ocr] *)

Record ocr_result := mkOcr {
  o_text : text;
  o_lines : list ocr_line;
  o_engine : option engine;          (* [None]: "unknown" *)
  o_subject : option detection;
}.

(** The first [try] block: a quick pass to find the subject. *)
Definition quick_subject `{Engines} `{Builtins} (img_array : ndarray) : M detection :=
  _ <-m get_ocr_engine ;;
  quick_result <-m lift (predict img_array) ;;
  let quick_text :=
    match quick_result with
    | Page texts _ _ :: _ => join (u " ") texts
    | _ => []
    end in
  ret (detect_subject quick_text).

Definition p2t_text_of (p2t_result : p2t_output) : text :=
  match p2t_result with
  | P2tStr t => t
  | P2tDict t => t
  | P2tOther repr => repr
  end.

(** The lines of the PaddleOCR branch: only the current format is read. *)
Definition paddle_lines (paddle_result : list page) : result (list ocr_line) :=
  match paddle_result with
  | Page texts scores polys :: _ =>
      match append_each (page_line scores polys) 0 texts [] with
      | (lines, None) => Ok lines
      | (_, Some e) => Raise e
      end
  | _ => Ok []
  end.

(** The last [try] block. *)
Definition paddle_pass `{Engines} `{Builtins} (img_array : ndarray)
    (subject : option detection) : M ocr_result :=
  _ <-m get_ocr_engine ;;
  paddle_result <-m lift (predict img_array) ;;
  lines <-m lift (paddle_lines paddle_result) ;;
  let lines := sort_lines lines in
  let text := join [10] (map l_text lines) in
  let subject :=
    match subject with
    | None => Some (detect_subject text)
    | Some d => Some d
    end in
  ret (mkOcr text lines (Some Paddleocr) subject).

(** What is returned when the last block raises: [result] as it stood. *)
Definition paddle_or_nothing `{Engines} `{Builtins} (img_array : ndarray)
    (subject : option detection) (g : globals) : globals * ocr_result :=
  match paddle_pass img_array subject g with
  | (g, Ok result) => (g, result)
  | (g, Raise _) => (g, mkOcr [] [] None subject)
  end.

(** [preferred_engine] is [None], ["pix2text"] or ["paddleocr"] (any other
    name takes the PaddleOCR branch as well). *)
Definition multi_engine_ocr `{Engines} `{Builtins} (img_array : ndarray)
    (preferred_engine : option engine) : globals -> globals * ocr_result :=
  fun g =>
    let '(g, subject, preferred_engine) :=
      match preferred_engine with
      | Some e => (g, None, e)
      | None =>
          match quick_subject img_array g with
          | (g, Ok subject_info) => (g, Some subject_info, d_engine subject_info)
          | (g, Raise _) => (g, None, Paddleocr)
          end
      end in
    match preferred_engine with
    | Pix2text =>
        let '(g, p2t) := get_p2t_engine g in
        if p2t then
          match recognize img_array with
          | Ok p2t_result =>
              let text := p2t_text_of p2t_result in
              let '(g, lines) := get_lines_with_position img_array text g in
              (g, mkOcr text lines (Some Pix2text) subject)
          | Raise _ => paddle_or_nothing img_array subject g
          end
        else paddle_or_nothing img_array subject g
    | Paddleocr => paddle_or_nothing img_array subject g
    end.

(** What the properties of the lines are stated with: a box with its
    corners in order, the band of 30 rows given to line [i] of a text, and an
    engine that is loaded or can be. *)
Definition box_ordered (l : ocr_line) : Prop := l_y0 l <= l_y1 l /\ l_x0 l <= l_x1 l.

Definition band (i : nat) (t : text) : ocr_line :=
  mkOcrLine t 1 (Z.of_nat i * 30) ((Z.of_nat i + 1) * 30) 0 500.

Definition engine_ready `{Engines} (g : globals) : Prop :=
  ocr_engine g = true \/ load_paddleocr = Ok tt.

End Ocr.

(** ** [erase_server.py]: finding the sheet and the correction pipeline *)

Module Correct.
Import EraseServer Erase Subject.

(** Every row is as long as the first: what holds of any numpy array. *)
Definition rectangular {A} (g : grid A) : Prop :=
  Forall (fun row => length row = length (hd [] g)) g.

Definition rectangular_nd (a : ndarray) : Prop :=
  match a with
  | Gray2 g => rectangular g
  | Color3 c => rectangular c
  end.

(** A contour or polygon: its corners in order. *)
Abbreviation polygon := (list point) (only parsing).

(** The contour routines of OpenCV. Areas of polygons with integer corners
    are multiples of one half, for which the comparison with a tenth of the
    picture comes out in floating point as it does exactly. *)
Class Contours := {
  (** [cv2.Canny(cv2.GaussianBlur(img_gray, (5, 5), 0), 50, 150)] *)
  blurred_edges : grid Z -> mask;
  (** [cv2.findContours(edges, RETR_EXTERNAL, CHAIN_APPROX_SIMPLE)] *)
  findContours : mask -> list polygon;
  contourArea : polygon -> Q;
  (** [cv2.approxPolyDP(c, 0.02 * cv2.arcLength(c, True), True)] *)
  approxPolyDP : polygon -> polygon;
}.

(** [sorted(contours, key=cv2.contourArea, reverse=True)] *)
Definition by_area_descending `{Contours} (contours : list polygon) : list polygon :=
  sort_by (fun a b => Qle_bool (contourArea b) (contourArea a)) contours.

(** The test of one candidate in the loop. *)
Definition sheet_like `{Contours} (img_gray : grid Z) (contour : polygon) : option polygon :=
  let approx := approxPolyDP contour in
  if (length approx =? 4)%nat then
    let img_area := height img_gray * width img_gray in
    let contour_area := contourArea approx in
    if Qltb (inject_Z img_area * (1 # 10)) contour_area then Some approx else None
  else None.

Fixpoint first_sheet `{Contours} (img_gray : grid Z) (candidates : list polygon)
  : option polygon :=
  match candidates with
  | [] => None
  | contour :: rest =>
      match sheet_like img_gray contour with
      | Some approx => Some approx
      | None => first_sheet img_gray rest
      end
  end.

Definition find_document_contour `{Contours} (img_gray : grid Z) : option polygon :=
  let edges := blurred_edges img_gray in
  let edges := dilate edges 3 2 in
  let contours := findContours edges in
  match contours with
  | [] => None
  | _ :: _ =>
      let contours := by_area_descending contours in
      first_sheet img_gray (take 5 contours)
  end.

(** The dictionary [result] of [correct_image] while it is filled in, and
    as it is returned, with the picture under [image]. *)
Record flags := mkFlags {
  f_corrected : bool;
  f_perspective_applied : bool;
  f_rotation_angle : Q;
  f_cropped : bool;
}.

Record correction := mkCorrection {
  corrected : bool;
  perspective_applied : bool;
  rotation_angle : Q;
  cropped : bool;
  c_image : ndarray;
}.

(** [cv2.cvtColor(_, COLOR_BGR2RGB)], which takes three channels. *)
Definition bgr2rgb (a : ndarray) : result ndarray :=
  match a with
  | Color3 c => Ok (Color3 (map2d swap_rb c))
  | Gray2 _ => Raise cv2_error
  end.

(** Step 1: the sheet is looked for and, when found, rectified. *)
Definition correct_perspective `{OpenCV} `{Contours} (processed : ndarray)
  : flags -> result (ndarray * flags) := fun result =>
  let gray := to_gray processed in
  match find_document_contour gray with
  | Some contour =>
      processed <-r perspective_transform processed contour ;;
      Ok (processed,
          mkFlags true true (f_rotation_angle result) (f_cropped result))
  | None => Ok (processed, result)
  end.

(** Step 2: the skew is taken out, and reported when it exceeds half a
    degree. *)
Definition correct_rotation `{OpenCV} `{Builtins} (processed : ndarray) (result : flags)
  : ndarray * flags :=
  let '(processed, angle) := detect_and_correct_rotation processed in
  if Qltb (1 # 2) (Qabs angle)
  then (processed,
        mkFlags true (f_perspective_applied result) (round2 angle) (f_cropped result))
  else (processed, result).

(** Step 3: the white margins are cut off. *)
Definition correct_crop `{OpenCV} (processed : ndarray) (result : flags) : ndarray * flags :=
  let original_size := (shape0 processed, shape1 processed) in
  let processed := auto_crop_whitespace processed 10 in
  if bool_decide ((shape0 processed, shape1 processed) <> original_size)
  then (processed,
        mkFlags true (f_perspective_applied result) (f_rotation_angle result) true)
  else (processed, result).

Definition correct_image `{OpenCV} `{Contours} `{Builtins} (img_array : image)
    (auto_perspective auto_rotate auto_crop : bool) : result correction :=
  let result := mkFlags false false 0 false in
  let img_bgr := map2d swap_rb img_array in
  let processed := Color3 img_bgr in
  step1 <-r (if auto_perspective then correct_perspective processed result
             else Ok (processed, result)) ;;
  let '(processed, result) := step1 in
  let '(processed, result) :=
    if auto_rotate then correct_rotation processed result else (processed, result) in
  let '(processed, result) :=
    if auto_crop then correct_crop processed result else (processed, result) in
  result_rgb <-r bgr2rgb processed ;;
  Ok (mkCorrection (f_corrected result) (f_perspective_applied result)
                   (f_rotation_angle result) (f_cropped result) result_rgb).

End Correct.

(** ** The HTTP interface *)

Module Api.
Import Text Erase Correct.

(** What a handler can raise: an [HTTPException], or any other exception. *)
Inductive failure :=
| HTTPException (status_code : Z) (detail : text)
| Exception (e : exn).

Inductive outcome (A : Type) :=
| Done (a : A)
| Failed (f : failure).
Arguments Done {A} a.
Arguments Failed {A} f.

(** The picture codecs and [str] of an exception. *)
Class Codec := {
  (** [np.array(Image.open(io.BytesIO(base64.b64decode(s))))], an RGBA
      picture turned into RGB on the way *)
  load_image : text -> result ndarray;
  (** the picture, turned into RGB, as a PNG file in base64 *)
  png_base64 : ndarray -> result text;
  str_of : failure -> text;
}.

(** The request body: [data.get("image")] and [data.get("mode")]. *)
Record request := mkRequest {
  req_image : option text;
  req_mode : option string;
}.

(** The part of a data URL after its first comma, up to the next one:
    [image_data.split(',')[1]] when there is a comma, which is when the
    split has a second part. *)
Definition data_url_payload (image_data : text) : text :=
  if bool_decide (44 ∈ image_data)
  then nth 1 (split_on 44 image_data) []
  else image_data.

Definition encode_image_to_base64 `{Codec} (img_array : ndarray) : result text :=
  b <-r png_base64 img_array ;;
  Ok (u "data:image/png;base64," ++ b).

(** The mode strings of the erasing functions. *)
Definition erase_mode_of (mode : string) : erase_mode :=
  if String.eqb mode "auto" then Auto
  else if String.eqb mode "blue" then Blue
  else if String.eqb mode "black" then Black
  else if String.eqb mode "color" then Colour
  else OtherMode mode.

(** The erasing functions on whatever array the decoder produced: the first
    colour conversion raises unless there are three channels. *)
Definition erase_opencv_nd `{OpenCV} (img_array : ndarray) (mode : erase_mode)
  : result ndarray :=
  match img_array with
  | Color3 c => Ok (Color3 (erase_handwriting_opencv c mode))
  | Gray2 _ => Raise cv2_error
  end.

Definition erase_process_nd `{OpenCV} (img_array : ndarray) (mode : erase_mode)
  : result ndarray :=
  match img_array with
  | Color3 c => Ok (Color3 (erase_handwriting_process c mode))
  | Gray2 _ => Raise cv2_error
  end.

Definition erase_ai_nd `{OpenCV} (doc_cleaner : cleaner_state) (img_array : ndarray)
  : cleaner_state * result ndarray :=
  match img_array with
  | Color3 c =>
      let '(doc_cleaner, r) := erase_handwriting_ai doc_cleaner c in
      (doc_cleaner, c' <-r r ;; Ok (Color3 c'))
  | Gray2 _ => ((get_doc_cleaner doc_cleaner).1, Raise cv2_error)
  end.

Definition of_result {A} (r : result A) : outcome A :=
  match r with
  | Ok a => Done a
  | Raise e => Failed (Exception e)
  end.

(** [except Exception as e: raise HTTPException(status_code=500, detail=str(e))] *)
Definition as_status_500 `{Codec} {A} (body : outcome A) : outcome A :=
  match body with
  | Done a => Done a
  | Failed e => Failed (HTTPException 500 (str_of e))
  end.

Definition missing_image : failure := HTTPException 400 (u "缺少image参数").

(** *** [main.py]: [POST /erase-handwriting] *)

Inductive method := ai | opencv.

Record erased := mkErased {
  e_image : text;
  e_mode : string;
  e_method : option method;     (* [None]: the reply has no such key *)
}.

Definition main_erase_body `{OpenCV} `{Codec} (data : request) (doc_cleaner : cleaner_state)
  : cleaner_state * outcome erased :=
  match req_image data with
  | None | Some [] => (doc_cleaner, Failed missing_image)
  | Some image_data =>
      let mode := default "ai"%string (req_mode data) in
      match load_image (data_url_payload image_data) with
      | Raise e => (doc_cleaner, Failed (Exception e))
      | Ok img_array =>
          let '(doc_cleaner, result_array, actual_method) :=
            if String.eqb mode "ai"
            then let '(doc_cleaner, r) := erase_ai_nd doc_cleaner img_array in
                 (doc_cleaner, r, ai)
            else (doc_cleaner, erase_opencv_nd img_array (erase_mode_of mode), opencv) in
          (doc_cleaner,
           of_result (result_array <-r result_array ;;
                      result_base64 <-r encode_image_to_base64 result_array ;;
                      Ok (mkErased result_base64 mode (Some actual_method))))
      end
  end.

Definition main_erase_handwriting `{OpenCV} `{Codec} (data : request)
    (doc_cleaner : cleaner_state) : cleaner_state * outcome erased :=
  let '(doc_cleaner, body) := main_erase_body data doc_cleaner in
  (doc_cleaner, as_status_500 body).

(** *** [erase_server.py]: [POST /erase-handwriting] *)

Definition known_mode (mode : string) : bool :=
  String.eqb mode "auto" || String.eqb mode "blue"
  || String.eqb mode "black" || String.eqb mode "color".

Definition server_erase_body `{OpenCV} `{Codec} (data : request) : outcome erased :=
  match req_image data with
  | None | Some [] => Failed missing_image
  | Some image_data =>
      let mode := default "auto"%string (req_mode data) in
      let mode := if known_mode mode then mode else "auto"%string in
      of_result (img_array <-r load_image (data_url_payload image_data) ;;
                 result_array <-r erase_process_nd img_array (erase_mode_of mode) ;;
                 result_base64 <-r encode_image_to_base64 result_array ;;
                 Ok (mkErased result_base64 mode None))
  end.

Definition server_erase_handwriting `{OpenCV} `{Codec} (data : request) : outcome erased :=
  as_status_500 (server_erase_body data).

End Api.

(** ** More stand-ins: built-ins, engines, contours and codecs *)

Module Standin.
Import Text Erase Subject Ocr Correct Api.

(** Lower case of the ASCII letters, and rounding of an exact fraction to
    hundredths, halves to even. *)
Definition ascii_lower (t : text) : text :=
  map (fun c => if (65 <=? c) && (c <=? 90) then c + 32 else c) t.

Definition round_hundredths (q : Q) : Q :=
  let n := Qnum q * 200 in
  let d := Zpos (Qden q) * 2 in
  let f := n / d in
  let r := n mod d in
  let k := if r <? Zpos (Qden q) then f
           else if Zpos (Qden q) <? r then f + 1
           else if Z.even f then f else f + 1 in
  Qred (k # 100).

Definition ascii_builtins : Builtins :=
  {| lower := ascii_lower; round2 := round_hundredths |}.

(** What PaddleOCR reads off the sample page: two lines, the lower one
    first, the second without a score. *)
Definition two_lines : list page :=
  [ Page [u "2. second"; u "1. first"]
         [(9 # 10)%Q]
         [ [(0, 40); (90, 40); (90, 52); (0, 52)]%Q;
           [(0, 10); (80, 10); (80, 22 + 1 # 2); (0, 22)]%Q ] ].

(** PaddleOCR loads and reads these lines; Pix2Text cannot be loaded. *)
Definition paddle_only : Engines :=
  {| load_paddleocr := Ok tt;
     predict := fun _ => Ok two_lines;
     load_pix2text := Raise (OtherError 1);
     recognize := fun _ => Raise (OtherError 2) |}.

(** Pix2Text reads a formula; PaddleOCR cannot be loaded. *)
Definition pix2text_only : Engines :=
  {| load_paddleocr := Raise (OtherError 3);
     predict := fun _ => Raise (OtherError 4);
     load_pix2text := Ok tt;
     recognize := fun _ => Ok (P2tStr (u "1. x" ++ [10; 10] ++ u "A. 1 B. 2")) |}.

(** Twice the area of a polygon by the shoelace formula, halved. *)
Definition shoelace (c : list point) : Q :=
  let next := drop 1 c ++ take 1 c in
  let twice := foldr Z.add 0 (zip_with (fun p q => p.1 * q.2 - q.1 * p.2) c next) in
  (Z.abs twice # 2).

(** The contour routines finding the given outlines, with no smoothing. *)
Definition outlines (found : list (list point)) : Contours :=
  {| blurred_edges := fun g => zeros_like g;
     findContours := fun _ => found;
     contourArea := shoelace;
     approxPolyDP := fun c => c |}.

(** Decoding gives the given picture, encoding a fixed text. *)
Definition fixed_codec (a : ndarray) : Codec :=
  {| load_image := fun _ => Ok a;
     png_base64 := fun _ => Ok (u "iVBORw0KGgo=");
     str_of := fun f =>
       match f with
       | HTTPException _ detail => detail
       | Exception _ => u "error"
       end |}.

End Standin.

(** * Properties *)

(** ** Sorting *)

Section SortBy.
Context {A : Type} (le : A -> A -> bool).

Lemma insert_by_Permutation (a : A) (l : list A) :
  Permutation (insert_by le a l) (a :: l).
Proof.
  induction l as [|b l IH]; cbn; [done|].
  destruct (le a b); [done|].
  rewrite IH. apply perm_swap.
Qed.

Lemma sort_by_Permutation (l : list A) : Permutation (sort_by le l) l.
Proof.
  induction l as [|a l IH]; cbn; [done|].
  fold (sort_by le l). by rewrite insert_by_Permutation, IH.
Qed.

Hypothesis le_total : forall a b, le a b = true \/ le b a = true.

Lemma insert_by_Sorted (a : A) (l : list A) :
  Sorted (fun x y => le x y = true) l ->
  Sorted (fun x y => le x y = true) (insert_by le a l).
Proof.
  induction l as [|b l IH]; intros Hs; cbn.
  - by repeat constructor.
  - destruct (le a b) eqn:Hab.
    + constructor; [done|]. by constructor.
    + inversion Hs as [|? ? Hs' Hhd]; subst.
      constructor; [by apply IH|].
      destruct l as [|c l]; cbn.
      * constructor. destruct (le_total a b); congruence.
      * destruct (le a c); constructor.
        -- destruct (le_total a b); congruence.
        -- by inversion Hhd.
Qed.

Lemma sort_by_Sorted (l : list A) :
  Sorted (fun x y => le x y = true) (sort_by le l).
Proof.
  induction l as [|a l IH]; cbn; [constructor|].
  by apply insert_by_Sorted.
Qed.

End SortBy.

Lemma sorted_nodup_strict (l : list Z) :
  Sorted Z.le l -> NoDup l -> StronglySorted Z.lt l.
Proof.
  intros Hs Hnd.
  apply Sorted_StronglySorted in Hs; [|intros x y z; lia].
  induction Hs as [|a l Hs IH Hall]; [constructor|].
  apply NoDup_cons in Hnd as [Hnotin Hnd].
  constructor; [by apply IH|].
  rewrite List.Forall_forall in *. intros x Hx.
  specialize (Hall x Hx).
  assert (a <> x) by (intros ->; apply Hnotin; by apply list_elem_of_In).
  lia.
Qed.

Lemma strongly_sorted_sublist (l k : list Z) :
  sublist k l -> StronglySorted Z.lt l -> StronglySorted Z.lt k.
Proof.
  intros Hsub Hs. revert k Hsub.
  induction Hs as [|a l Hs IH Hall]; intros k Hsub.
  - apply sublist_nil_r in Hsub as ->. constructor.
  - destruct k as [|b k]; [constructor|].
    apply sublist_cons_r in Hsub as [Hsub|(k' & Heq & Hsub)].
    + by apply IH.
    + inversion Heq; subst. constructor; [by apply IH|].
      rewrite List.Forall_forall in *. intros x Hx. apply Hall.
      apply list_elem_of_In. eapply elem_of_sublist; [|done].
      by apply list_elem_of_In.
Qed.

(** ** Arrays *)

Section Grids.
Context {A B C : Type}.

Lemma shape_map2d (f : A -> B) (g : grid A) : shape (map2d f g) = shape g.
Proof.
  unfold shape, map2d. rewrite map_map. apply map_ext. intros row. apply length_map.
Qed.

Lemma shape_zip2d (f : A -> B -> C) (a : grid A) (b : grid B) :
  shape a = shape b -> shape (zip2d f a b) = shape a.
Proof.
  unfold shape, zip2d. revert b.
  induction a as [|ra a IH]; intros [|rb b] Hs; try done.
  cbn in *. injection Hs as Hr Hs. f_equal; [|by apply IH].
  rewrite length_zip_with. lia.
Qed.

Lemma shape_tabulate_like (g : grid A) (f : Z -> Z -> B) :
  shape (tabulate_like g f) = shape g.
Proof.
  unfold shape, tabulate_like. apply list_eq. intros y.
  rewrite !list_lookup_fmap, list_lookup_imap.
  destruct (g !! y); cbn; [|done]. by rewrite length_imap.
Qed.

Lemma px_map2d (f : A -> B) (g : grid A) (y x : nat) :
  px (map2d f g) y x = f <$> px g y x.
Proof.
  unfold px, map2d. rewrite list_lookup_fmap.
  destruct (g !! y); cbn; [|done]. apply list_lookup_fmap.
Qed.

Lemma px_zip2d (f : A -> B -> C) (a : grid A) (b : grid B) (y x : nat) :
  px (zip2d f a b) y x = (p ← px a y x; v ← px b y x; Some (f p v)).
Proof.
  unfold px, zip2d. rewrite lookup_zip_with.
  destruct (a !! y) as [ra|]; cbn; [|done].
  destruct (b !! y) as [rb|]; cbn.
  - rewrite lookup_zip_with. by destruct (ra !! x).
  - by destruct (ra !! x).
Qed.

(** Arrays of one shape have their entries at the same places. *)
Lemma px_same_shape (a : grid A) (b : grid B) (y x : nat) :
  shape a = shape b -> is_Some (px a y x) -> is_Some (px b y x).
Proof.
  unfold shape, px. intros Hs [p Hp].
  destruct (a !! y) as [ra|] eqn:Ha; [|done]. cbn in Hp.
  assert (Hl : map length b !! y = Some (length ra))
    by (rewrite <- Hs, list_lookup_fmap, Ha; done).
  rewrite list_lookup_fmap in Hl.
  destruct (b !! y) as [rb|]; [|done]. cbn in *. injection Hl as Hl.
  apply lookup_lt_is_Some. rewrite Hl. by eapply lookup_lt_Some.
Qed.

Lemma get2d_px (d : A) (g : grid A) (y x : nat) (v : A) :
  px g y x = Some v -> get2d d g (Z.of_nat y) (Z.of_nat x) = v.
Proof.
  unfold px, get2d. intros Hp.
  destruct (g !! y) as [row|] eqn:Hrow; [|done]. cbn in Hp.
  destruct (Z.ltb_spec (Z.of_nat y) 0); [lia|].
  destruct (Z.ltb_spec (Z.of_nat x) 0); [lia|].
  cbn [orb]. rewrite !Nat2Z.id. rewrite (nth_lookup_Some _ _ _ _ Hrow).
  by apply nth_lookup_Some.
Qed.



End Grids.

(** ** Corner ordering and rectification *)

Section OrderPoints.
Import EraseServer.

Lemma argmin_spec (l : list Z) (i : nat) :
  argmin l = Some i ->
  (i < length l)%nat /\ forall x, In x l -> nth i l 0 <= x.
Proof.
  revert i. induction l as [|a l IH]; intros i Hi; [discriminate|].
  cbn [argmin] in Hi. destruct (argmin l) as [j|] eqn:Hj.
  - destruct (IH j eq_refl) as [Hlt Hmin].
    destruct (Z.ltb_spec (nth j l 0) a); inversion Hi; subst; cbn [nth length].
    + split; [lia|]. intros x [<-|Hx]; [lia|auto].
    + split; [lia|]. intros x [<-|Hx]; [lia|]. specialize (Hmin x Hx). lia.
  - inversion Hi; subst.
    destruct l; [|cbn in Hj; destruct (argmin l); [destruct (_ <? _)|]; discriminate].
    split; [cbn; lia|]. intros x [<-|[]]. cbn. lia.
Qed.

Lemma argmax_spec (l : list Z) (i : nat) :
  argmax l = Some i ->
  (i < length l)%nat /\ forall x, In x l -> x <= nth i l 0.
Proof.
  revert i. induction l as [|a l IH]; intros i Hi; [discriminate|].
  cbn [argmax] in Hi. destruct (argmax l) as [j|] eqn:Hj.
  - destruct (IH j eq_refl) as [Hlt Hmax].
    destruct (Z.ltb_spec a (nth j l 0)); inversion Hi; subst; cbn [nth length].
    + split; [lia|]. intros x [<-|Hx]; [lia|auto].
    + split; [lia|]. intros x [<-|Hx]; [lia|]. specialize (Hmax x Hx). lia.
  - inversion Hi; subst.
    destruct l; [|cbn in Hj; destruct (argmax l); [destruct (_ <? _)|]; discriminate].
    split; [cbn; lia|]. intros x [<-|[]]. cbn. lia.
Qed.

Lemma argmin_is_Some (l : list Z) : l <> [] -> exists i, argmin l = Some i.
Proof.
  destruct l as [|a l]; [congruence|]. intros _. cbn.
  destruct (argmin l); [destruct (_ <? _)|]; eauto.
Qed.

Lemma argmax_is_Some (l : list Z) : l <> [] -> exists i, argmax l = Some i.
Proof.
  destruct l as [|a l]; [congruence|]. intros _. cbn.
  destruct (argmax l); [destruct (_ <? _)|]; eauto.
Qed.

(** Indexing the points by the [argmin] of a key picks a point of least
    key, and by the [argmax] one of greatest key. *)
Lemma pick_min (key : point -> Z) (pts : list point) :
  pts <> [] ->
  exists p, np_index pts (argmin (map key pts)) = Ok p /\ In p pts
            /\ forall q, In q pts -> key p <= key q.
Proof.
  intros Hne.
  destruct (argmin_is_Some (map key pts)) as [i Hi]; [by destruct pts|].
  destruct (argmin_spec _ _ Hi) as [Hlt Hmin]. rewrite length_map in Hlt.
  destruct (lookup_lt_is_Some_2 pts i Hlt) as [p Hp].
  exists p. rewrite Hi. cbn. rewrite Hp. split; [done|].
  split; [apply list_elem_of_In; by eapply list_elem_of_lookup_2|].
  intros q Hq. specialize (Hmin (key q) (in_map key _ _ Hq)).
  rewrite (nth_indep _ 0 (key p)) in Hmin by (rewrite length_map; lia).
  rewrite map_nth in Hmin. by rewrite (nth_lookup_Some _ _ _ _ Hp) in Hmin.
Qed.

Lemma pick_max (key : point -> Z) (pts : list point) :
  pts <> [] ->
  exists p, np_index pts (argmax (map key pts)) = Ok p /\ In p pts
            /\ forall q, In q pts -> key q <= key p.
Proof.
  intros Hne.
  destruct (argmax_is_Some (map key pts)) as [i Hi]; [by destruct pts|].
  destruct (argmax_spec _ _ Hi) as [Hlt Hmax]. rewrite length_map in Hlt.
  destruct (lookup_lt_is_Some_2 pts i Hlt) as [p Hp].
  exists p. rewrite Hi. cbn. rewrite Hp. split; [done|].
  split; [apply list_elem_of_In; by eapply list_elem_of_lookup_2|].
  intros q Hq. specialize (Hmax (key q) (in_map key _ _ Hq)).
  rewrite (nth_indep _ 0 (key p)) in Hmax by (rewrite length_map; lia).
  rewrite map_nth in Hmax. by rewrite (nth_lookup_Some _ _ _ _ Hp) in Hmax.
Qed.

Lemma order_points_spec (pts : list point) :
  pts <> [] ->
  exists r, order_points pts = Ok r
    /\ (In (tl r) pts /\ forall q, In q pts -> coord_sum (tl r) <= coord_sum q)
    /\ (In (br r) pts /\ forall q, In q pts -> coord_sum q <= coord_sum (br r))
    /\ (In (tr r) pts /\ forall q, In q pts -> coord_diff (tr r) <= coord_diff q)
    /\ (In (bl r) pts /\ forall q, In q pts -> coord_diff q <= coord_diff (bl r)).
Proof.
  intros Hne. unfold order_points.
  destruct (pick_min coord_sum pts Hne) as (p0 & -> & H0).
  destruct (pick_max coord_sum pts Hne) as (p2 & -> & H2).
  destruct (pick_min coord_diff pts Hne) as (p1 & -> & H1).
  destruct (pick_max coord_diff pts Hne) as (p3 & -> & H3).
  cbn. eexists; split; [reflexivity|]. cbn. tauto.
Qed.

(** C7. For every four points [(x, y)], [order_points] returns corners taken
    from them such that [tl] has the least [x + y], [br] the greatest
    [x + y], [tr] the least [y - x] and [bl] the greatest [y - x]. *)
Theorem order_points_extremal_corners (pts : list point) :
  length pts = 4%nat ->
  exists r, order_points pts = Ok r
    /\ (In (tl r) pts /\ forall q, In q pts -> (tl r).1 + (tl r).2 <= q.1 + q.2)
    /\ (In (br r) pts /\ forall q, In q pts -> q.1 + q.2 <= (br r).1 + (br r).2)
    /\ (In (tr r) pts /\ forall q, In q pts -> (tr r).2 - (tr r).1 <= q.2 - q.1)
    /\ (In (bl r) pts /\ forall q, In q pts -> q.2 - q.1 <= (bl r).2 - (bl r).1).
Proof.
  intros Hlen. apply order_points_spec. by destruct pts.
Qed.

Lemma order_points_extremal_corners_witness :
  let pts := [(12, 8); (210, 15); (205, 300); (9, 290)] in
  length pts = 4%nat
  /\ exists r, order_points pts = Ok r
    /\ (In (tl r) pts /\ forall q, In q pts -> (tl r).1 + (tl r).2 <= q.1 + q.2)
    /\ (In (br r) pts /\ forall q, In q pts -> q.1 + q.2 <= (br r).1 + (br r).2)
    /\ (In (tr r) pts /\ forall q, In q pts -> (tr r).2 - (tr r).1 <= q.2 - q.1)
    /\ (In (bl r) pts /\ forall q, In q pts -> q.2 - q.1 <= (bl r).2 - (bl r).1).
Proof.
  split; [reflexivity|].
  apply (order_points_extremal_corners [(12, 8); (210, 15); (205, 300); (9, 290)]).
  reflexivity.
Defined.

(** On that quadrilateral the corners come out in the order of the page. *)
Example order_points_example :
  order_points [(205, 300); (12, 8); (9, 290); (210, 15)]
  = Ok (mkRect (12, 8) (210, 15) (205, 300) (9, 290)).
Proof. reflexivity. Qed.




(** There the target is 198 wide and 285 high. *)
Example target_size_example :
  target_size (mkRect (12, 8) (210, 15) (205, 300) (9, 290)) = (198, 285).
Proof. reflexivity. Qed.

End OrderPoints.

(** ** Whitespace cropping *)

Section Crop.
Import EraseServer.

Lemma omap_all_None {A B} (f : A -> option B) (l : list A) :
  (forall x, x ∈ l -> f x = None) -> omap f l = [].
Proof.
  intros Hf. destruct (omap f l) as [|b bs] eqn:Ho; [done|].
  assert (Hb : b ∈ omap f l) by (rewrite Ho; left).
  apply list_elem_of_omap in Hb as (x & Hx & Hfx). rewrite Hf in Hfx; done.
Qed.

Lemma concat_all_nil {A} (ls : list (list A)) :
  Forall (fun l => l = []) ls -> concat ls = [].
Proof. induction 1 as [|l ls -> _ IH]; [done|]. by cbn. Qed.

(** An array of zeros has no nonzero point. *)
Lemma nonzero_points_zero (g : grid Z) :
  (forall row v, In row g -> In v row -> v = 0) -> nonzero_points g = [].
Proof.
  intros Hz. unfold nonzero_points. apply concat_all_nil.
  apply Forall_lookup. intros y l Hl.
  rewrite list_lookup_imap in Hl.
  destruct (g !! y) as [row|] eqn:Hrow; [|done]. cbn in Hl. injection Hl as <-.
  apply omap_all_None. intros [x v] Hxv.
  apply list_elem_of_lookup in Hxv as [i Hi]. rewrite list_lookup_imap in Hi.
  destruct (row !! i) as [w|] eqn:Hw; [|done]. cbn in Hi. injection Hi as <- <-.
  cbn. rewrite (Hz row w); [done| |].
  - apply list_elem_of_In. by eapply list_elem_of_lookup_2.
  - apply list_elem_of_In. by eapply list_elem_of_lookup_2.
Qed.

(** C9. When every grayscale value of the image exceeds the threshold 250,
    [auto_crop_whitespace] returns the image itself, whatever the padding:
    a value, not an exception. *)
Theorem auto_crop_whitespace_blank_page `{OpenCV} (img : ndarray) (padding : Z) :
  (forall row v, In row (to_gray img) -> In v row -> 250 < v) ->
  auto_crop_whitespace img padding = img.
Proof.
  intros Hwhite. unfold auto_crop_whitespace.
  assert (Hnz : nonzero_points (threshold_binary_inv 250 255 (to_gray img)) = []).
  { apply nonzero_points_zero. intros row v Hrow Hv.
    unfold threshold_binary_inv, map2d in Hrow.
    apply in_map_iff in Hrow as (row0 & <- & Hrow0).
    apply in_map_iff in Hv as (v0 & <- & Hv0).
    specialize (Hwhite row0 v0 Hrow0 Hv0).
    destruct (Z.gtb_spec v0 250); [done|lia]. }
  unfold findNonZero. by rewrite Hnz.
Qed.

Lemma auto_crop_whitespace_blank_page_witness :
  let img := Gray2 [[255; 251; 255]; [252; 255; 253]] in
  (forall row v, In row (to_gray (H := Sample.failing_cv) img) -> In v row -> 250 < v)
  /\ auto_crop_whitespace (H := Sample.failing_cv) img 10 = img.
Proof.
  assert (Hwhite : forall row v,
            In row (to_gray (H := Sample.failing_cv)
                      (Gray2 [[255; 251; 255]; [252; 255; 253]])) ->
            In v row -> 250 < v).
  { cbn. intros row v [<-|[<-|[]]] Hv; cbn in Hv;
      repeat (destruct Hv as [<-|Hv]; [lia|]); destruct Hv. }
  split; [exact Hwhite|].
  exact (auto_crop_whitespace_blank_page (H := Sample.failing_cv)
           (Gray2 [[255; 251; 255]; [252; 255; 253]]) 10 Hwhite).
Defined.

(** With content on the page the box around it is cut out, padded and
    clipped to the page. *)
Example auto_crop_whitespace_example :
  auto_crop_whitespace (H := Sample.failing_cv)
    (Gray2 [ [255; 255; 255; 255; 255];
             [255; 255; 255; 255; 255];
             [255; 255;  17; 255; 255];
             [255; 255; 255; 255; 255] ]) 1
  = Gray2 [ [255; 255; 255]; [255; 17; 255]; [255; 255; 255] ].
Proof. reflexivity. Qed.

End Crop.

(** ** Skew estimation *)

Section Skew.
Import EraseServer.
Context `{OpenCV}.

Lemma Qltb_lt (a b : Q) : Qltb a b = true <-> (a < b)%Q.
Proof.
  unfold Qltb. rewrite negb_true_iff, <- not_true_iff_false, Qle_bool_iff.
  split; [apply Qnot_le_lt | apply Qlt_not_le].
Qed.

Lemma Qltb_ge (a b : Q) : Qltb a b = false <-> (b <= a)%Q.
Proof.
  unfold Qltb. rewrite negb_false_iff. apply Qle_bool_iff.
Qed.

(** The sorted angles are the angles, in ascending order. *)
Lemma sort_angles_sorted (l : list Q) :
  Permutation (sort_angles l) l /\ Sorted Qle (sort_angles l).
Proof.
  split; [apply sort_by_Permutation|].
  assert (Hs : Sorted (fun x y => Qle_bool x y = true) (sort_angles l)).
  { apply sort_by_Sorted. intros a b. rewrite !Qle_bool_iff.
    destruct (Qlt_le_dec a b) as [Hlt|Hle]; [left; by apply Qlt_le_weak|by right]. }
  induction Hs as [|a k Hs IH Hhd]; constructor; [done|].
  destruct Hhd; constructor. by apply Qle_bool_iff.
Qed.


Lemma applied_angle_bounds (m : Q) :
  (1 # 2 <= Qabs m)%Q ->
  (1 # 2 <= Qabs (applied_angle m) /\ Qabs (applied_angle m) <= 15)%Q.
Proof.
  intros Hm. unfold applied_angle.
  destruct (Qltb 15 (Qabs m)) eqn:H15.
  - destruct (Qltb 0 m); cbn; split; by vm_compute.
  - apply Qltb_ge in H15. done.
Qed.

(** The four ways out of [detect_and_correct_rotation]. *)
Lemma detect_and_correct_rotation_cases (img : ndarray) :
  match hough_lines (to_gray img) with
  | None => detect_and_correct_rotation img = (img, 0%Q)
  | Some lines =>
      match kept_angles lines with
      | [] => detect_and_correct_rotation img = (img, 0%Q)
      | angles =>
          if Qltb (Qabs (median angles)) (1 # 2)
          then detect_and_correct_rotation img = (img, 0%Q)
          else detect_and_correct_rotation img
               = (rotate img (applied_angle (median angles)), applied_angle (median angles))
      end
  end.
Proof.
  unfold detect_and_correct_rotation.
  destruct (hough_lines _) as [lines|]; [|done].
  destruct (kept_angles lines) as [|a l]; [done|].
  by destruct (Qltb (Qabs _) (1 # 2)).
Qed.


End Skew.

(** One stray line moves the mean of the angles, not their median: the
    page below is left as it is, where the mean (3 degrees) would have
    turned it. *)
Example median_is_not_mean :
  let angles := [0; 0; 9]%Q in
  EraseServer.median angles = 0%Q /\ (EraseServer.mean angles == 3)%Q.
Proof. split; reflexivity. Qed.

(** Three runs of the corrector: two level lines and a stray one; lines
    sloping by about 2.9 degrees; steep lines, clamped to 15 degrees. *)
Example detect_and_correct_rotation_examples :
  let page := Gray2 [[255; 255]; [255; 255]] in
  let run lines :=
    (EraseServer.detect_and_correct_rotation (H := Sample.working_cv lines) page).2 in
  run [(0, 0, 200, 0); (0, 50, 200, 50); (0, 0, 200, 30)] = 0%Q
  /\ Qeq (run [(0, 0, 200, 10); (0, 50, 200, 60); (0, 90, 200, 100)]) (573 # 200)
  /\ run [(0, 0, 200, 100); (0, 50, 200, 150); (0, 90, 200, 190)] = 15%Q.
Proof. repeat split. Qed.

(** ** Ink removal *)

Section EraseFacts.
Import Erase.
Context `{OpenCV}.

Lemma swap_rb_involutive (p : pixel) : swap_rb (swap_rb p) = p.
Proof. by destruct p as [[a b] c]. Qed.

Lemma shape_dilate (m : mask) (k : Z) (n : nat) : shape (dilate m k n) = shape m.
Proof.
  unfold dilate. induction n as [|n IH]; [done|].
  change (Nat.iter (S n) (dilate1 k) m) with (dilate1 k (Nat.iter n (dilate1 k) m)).
  unfold dilate1 at 1. by rewrite shape_tabulate_like.
Qed.

Lemma shape_erode (m : mask) (k : Z) (n : nat) : shape (erode m k n) = shape m.
Proof.
  unfold erode. induction n as [|n IH]; [done|].
  change (Nat.iter (S n) (erode1 k) m) with (erode1 k (Nat.iter n (erode1 k) m)).
  unfold erode1 at 1. by rewrite shape_tabulate_like.
Qed.

Lemma shape_zeros_like {A} (g : grid A) : shape (zeros_like g) = shape g.
Proof. apply shape_map2d. Qed.

Lemma shape_hue_mask (img : image) (lo hi : pixel) :
  shape (inRange (map2d bgr2hsv img) lo hi) = shape img.
Proof. unfold inRange. by rewrite !shape_map2d. Qed.

Lemma shape_dark_mask (img : image) : shape (dark_mask img) = shape img.
Proof.
  unfold dark_mask, adaptiveThreshold.
  by rewrite shape_erode, shape_dilate, shape_tabulate_like, shape_map2d.
Qed.

Lemma shape_bitwise_or (a b : mask) :
  shape a = shape b -> shape (bitwise_or a b) = shape a.
Proof. apply shape_zip2d. Qed.


Ltac unfold_modes :=
  unfold union_mask, blue_mask, red_mask1, red_mask2, green_mask;
  cbn [is_blue_mode is_colour_mode is_dark_mode is_black].

Ltac solve_shape :=
  repeat first
    [ rewrite shape_bitwise_or | rewrite shape_zeros_like
    | rewrite shape_hue_mask | rewrite shape_dark_mask ];
  done.

Lemma shape_union_mask (img : image) (mode : erase_mode) :
  shape (union_mask img mode) = shape img.
Proof. destruct mode; unfold_modes; solve_shape. Qed.

Lemma shape_final_mask (img : image) (mode : erase_mode) :
  shape (final_mask img mode) = shape img.
Proof. unfold final_mask. by rewrite shape_dilate, shape_union_mask. Qed.

(** Outside mode auto the result is the input with the masked pixels
    turned white. *)
Lemma erase_not_auto (img : image) (mode : erase_mode) :
  mode <> Auto ->
  erase_handwriting_opencv img mode
  = map2d swap_rb (fill_white (map2d swap_rb img) (final_mask (map2d swap_rb img) mode)).
Proof. intros Hm. unfold erase_handwriting_opencv. by destruct mode. Qed.





End EraseFacts.

Section EraseExamples.
Import Erase.


(** The blue stroke and the two rings of pixels around it turn white in
    mode blue; in mode black the page comes back as it was. *)
Example erase_blue_stroke :
  let w := (255, 255, 255) in
  final_mask (H := Sample.failing_cv) (map2d swap_rb Sample.blue_page) Blue
    = repeat (repeat 255 5) 5
  /\ erase_handwriting_opencv (H := Sample.failing_cv) Sample.blue_page Blue
    = repeat (repeat w 5) 5
  /\ erase_handwriting_opencv (H := Sample.failing_cv) Sample.blue_page Black
    = Sample.blue_page.
Proof. vm_compute. repeat split. Qed.


(** When inpainting raises, the caller gets the flat-fill result; when it
    works, the inpainted one. *)
Example enhanced_erase_failure_example :
  enhanced_erase (H := Sample.failing_cv) Sample.blue_page = Raise cv2_error
  /\ erase_handwriting_ai (H := Sample.failing_cv) None Sample.blue_page
     = (Some true,
        Ok (erase_handwriting_opencv (H := Sample.failing_cv) Sample.blue_page Auto)).
Proof. vm_compute. split; reflexivity. Qed.

Example enhanced_erase_success_example :
  erase_handwriting_ai (H := Sample.working_cv []) None Sample.blot_page
  = (Some true, enhanced_erase (H := Sample.working_cv []) Sample.blot_page)
  /\ exists img, enhanced_erase (H := Sample.working_cv []) Sample.blot_page = Ok img
                 /\ px img 3 3 = Some white.
Proof.
  split; [vm_compute; reflexivity|].
  eexists. split; [vm_compute; reflexivity|]. reflexivity.
Qed.

End EraseExamples.

(** ** Question segmentation *)

Section Segmentation.
Import Text Re Main.
Context `{Unicode}.

Lemma consistent_initial : consistent initial_state.
Proof.
  split; cbn; [constructor|]. intros n. split; intros Hn.
  - by apply elem_of_nil in Hn.
  - by apply not_elem_of_empty in Hn.
Qed.

(** A line whose number is already used, or lies outside 1..100, leaves
    the questions, the open question and the used numbers as they were. *)
Lemma step_rejected (height : Z) (st : state) (ln : line) (n : Z) :
  question_number (line_text ln) = Some n ->
  n ∈ used_numbers st \/ n < 1 \/ 100 < n ->
  questions (step height st ln) = questions st
  /\ current_question (step height st ln) = current_question st
  /\ used_numbers (step height st ln) = used_numbers st.
Proof.
  intros Hn Hrej. unfold step.
  destruct (is_noise _); [done|].
  rewrite Hn.
  destruct (section_of _); cbn [used_numbers set_section].
  all: destruct (decide _) as [|Hnot]; [done|].
  all: destruct Hrej as [Hin|Hrange]; [done|].
  all: replace ((n <? 1) || (n >? 100)) with true by lia; done.
Qed.

Lemma append_line_index (q : question) (t : text) :
  q_index (append_line q t) = q_index q.
Proof.
  unfold append_line. cbv zeta. cbn [q_type].
  destruct (q_type q); [done|].
  destruct (detect_question_type t); done.
Qed.

(** Each round of the loop keeps the indices of the questions distinct and
    equal to the used numbers. *)
Lemma step_consistent (height : Z) (st : state) (ln : line) :
  consistent st -> consistent (step height st ln).
Proof.
  intros Hc. unfold step.
  destruct (is_noise _); [done|].
  set (st1 := match section_of (line_text ln) with
              | Some t => set_section st (Some t)
              | None => st
              end).
  assert (Hc1 : consistent st1) by (unfold st1; destruct (section_of _); exact Hc).
  clearbody st1. clear Hc. destruct Hc1 as [Hnd Hused].
  destruct (question_number _) as [n|].
  - destruct (decide _) as [|Hfresh]; [done|].
    destruct (_ || _); [done|].
    assert (Hidx : indices
      {| questions := match current_question st1 with
                      | Some q => questions st1 ++ [close_question q (line_y0 ln - 5)]
                      | None => questions st1
                      end;
         current_question := Some (mkQuestion n (line_y0 ln) height (line_text ln) []
            match detect_question_type (line_text ln) with
            | Some t => Some t
            | None => current_section_type st1
            end);
         current_section_type := current_section_type st1;
         used_numbers := {[n]} ∪ used_numbers st1 |} = indices st1 ++ [n]).
    { unfold indices. cbn.
      destruct (current_question st1); cbn; [by rewrite map_app | by rewrite app_nil_r]. }
    split; rewrite Hidx.
    + apply NoDup_app. split; [done|]. split; [|apply NoDup_singleton].
      intros x Hx Hx'. apply list_elem_of_singleton in Hx' as ->.
      by apply Hfresh, Hused.
    + intros x. cbn. rewrite elem_of_app, elem_of_union, list_elem_of_singleton,
        elem_of_singleton, Hused. tauto.
  - destruct (current_question st1) as [q|] eqn:Hq; [|by split].
    assert (Hidx : indices
      {| questions := questions st1;
         current_question := Some (append_line q (line_text ln));
         current_section_type := current_section_type st1;
         used_numbers := used_numbers st1 |} = indices st1).
    { unfold indices. cbn. rewrite Hq. cbn. by rewrite append_line_index. }
    split; by rewrite Hidx.
Qed.

Lemma foldl_step_consistent (height : Z) (lines : list line) (st : state) :
  consistent st -> consistent (foldl (step height) st lines).
Proof.
  revert st. induction lines as [|ln lines IH]; intros st Hc; [done|].
  cbn. apply IH. by apply step_consistent.
Qed.

Lemma flush_indices (st : state) : map q_index (flush st) = indices st.
Proof.
  unfold flush, indices. destruct (current_question st); cbn.
  - by rewrite map_app.
  - by rewrite app_nil_r.
Qed.

Lemma assemble_NoDup (height : Z) (lines : list line) :
  NoDup (map q_index (assemble height lines)).
Proof.
  unfold assemble. rewrite flush_indices.
  apply (foldl_step_consistent height lines initial_state consistent_initial).
Qed.

Lemma sort_questions_Sorted (qs : list question) :
  Sorted Z.le (map q_index (sort_questions qs)).
Proof.
  pose proof (sort_by_Sorted (fun a b => q_index a <=? q_index b)) as Hs.
  assert (Htotal : forall a b : question,
             (q_index a <=? q_index b) = true \/ (q_index b <=? q_index a) = true)
    by (intros a b; rewrite !Z.leb_le; lia).
  specialize (Hs Htotal qs). fold (sort_questions qs) in Hs.
  induction Hs as [|a l Hs IH Hhd]; cbn; [constructor|].
  constructor; [done|]. destruct Hhd; cbn; constructor. lia.
Qed.

Lemma sort_questions_strict (qs : list question) :
  NoDup (map q_index qs) -> StronglySorted Z.lt (map q_index (sort_questions qs)).
Proof.
  intros Hnd. apply sorted_nodup_strict; [apply sort_questions_Sorted|].
  assert (Hp : map q_index (sort_questions qs) ≡ₚ map q_index qs)
    by apply Permutation_map, sort_by_Permutation.
  by rewrite Hp.
Qed.

Context `{Imaging}.

Lemma crop_question_index img q y1 r :
  crop_question img q y1 = Some r -> r_index r = q_index q.
Proof.
  unfold crop_question.
  destruct (_ >=? _); cbn zeta beta iota.
  all: destruct (_ <=? _); [done|].
  all: destruct (_ || _); [done|].
  all: destruct (image_to_base64 _); [|done].
  all: by intros [= <-].
Qed.

(** The cropping loop drops questions, it does not reorder them. *)
Lemma crop_questions_sublist img qs :
  sublist (map r_index (crop_questions img qs)) (map q_index qs).
Proof.
  induction qs as [|q qs IH]; cbn; [done|].
  destruct (crop_question img q _) as [r|] eqn:Hr; cbn.
  - rewrite (crop_question_index _ _ _ _ Hr). by apply sublist_skip.
  - by apply sublist_cons.
Qed.

(** C1 (as the code has it). A line that is not noise and whose extracted
    number has already been used on the page, or lies outside 1..100, is
    skipped: the questions closed so far, the open question with its lines,
    and the used numbers are what they were before the line; of the state
    only the section type can change, when the line also reads as a section
    header. *)
Theorem rejected_number_line_is_skipped (height : Z) (st : state) (ln : line) (n : Z) :
  is_noise (line_text ln) = false ->
  question_number (line_text ln) = Some n ->
  n ∈ used_numbers st \/ n < 1 \/ 100 < n ->
  let st' := step height st ln in
  questions st' = questions st
  /\ current_question st' = current_question st
  /\ used_numbers st' = used_numbers st
  /\ current_section_type st'
     = match section_of (line_text ln) with
       | Some section_type => Some section_type
       | None => current_section_type st
       end.
Proof.
  intros Hnoise Hn Hrej. cbv zeta. unfold step. rewrite Hnoise, Hn.
  destruct (section_of (line_text ln)) as [section_type|];
    cbn [used_numbers set_section].
  all: destruct (decide (n ∈ used_numbers st)) as [Hused|Hfresh]; [done|].
  all: destruct Hrej as [Hused|Hrange]; [done|].
  all: destruct (Z.ltb_spec n 1); [done|].
  all: destruct (Z.gtb_spec n 100); [done|lia].
Qed.

(** C3. For every list of lines and page: the questions found have
    pairwise distinct indices, a line whose number is already used changes
    neither the closed questions nor the open one, the questions are then
    sorted into strictly ascending order of index, the results are cropped
    from the sorted list, and their indices are strictly ascending too. *)
Theorem question_indices_unique_sorted (lines : list line) (img_array : image) :
  let found := assemble (height img_array) lines in
  let results := split_by_question_number lines img_array in
  NoDup (map q_index found)
  /\ (forall st ln n,
        question_number (line_text ln) = Some n -> n ∈ used_numbers st ->
        questions (step (height img_array) st ln) = questions st
        /\ current_question (step (height img_array) st ln) = current_question st)
  /\ Permutation (sort_questions found) found
  /\ StronglySorted Z.lt (map q_index (sort_questions found))
  /\ results = crop_questions img_array (sort_questions found)
  /\ StronglySorted Z.lt (map r_index results).
Proof.
  cbv zeta.
  pose proof (assemble_NoDup (height img_array) lines) as Hnd.
  pose proof (sort_questions_strict _ Hnd) as Hs.
  split; [done|]. split.
  { intros st ln n Hn Hu.
    destruct (step_rejected (height img_array) st ln n Hn (or_introl Hu)) as (? & ? & _).
    done. }
  split; [apply sort_by_Permutation|].
  split; [done|]. split; [reflexivity|].
  eapply strongly_sorted_sublist; [|exact Hs]. apply crop_questions_sublist.
Qed.

End Segmentation.

Section SegmentationExamples.
Import Text Re Main.

(** The numbers the templates extract, on one line of each kind. *)
Example question_number_examples :
  map (question_number (H := Sample.ascii_unicode))
      [ u "1. first"; u "12、second"; u "3设x"; u "（4）"; u "[5] a"; u "{6}";
        u "十二、"; u "七．"; u "第8题"; u "第十九题"; u " 20 "; u "0. zero";
        u "A. one"; u "123. far" ]
  = [ Some 1; Some 12; Some 3; Some 4; Some 5; Some 6;
      Some 12; Some 7; Some 8; Some 19; Some 20; Some 0;
      None; None ].
Proof. vm_compute. reflexivity. Qed.

Lemma rejected_number_line_is_skipped_witness :
  let st := foldl (step (H := Sample.ascii_unicode) 200) initial_state
              [mkLine (u "1. first") 10; mkLine (u "2. second") 50] in
  let ln := mkLine (u "1. repeat") 90 in
  (is_noise (line_text ln) = false
   /\ question_number (H := Sample.ascii_unicode) (line_text ln) = Some 1
   /\ (1 ∈ used_numbers st \/ 1 < 1 \/ 100 < 1))
  /\ let st' := step (H := Sample.ascii_unicode) 200 st ln in
     questions st' = questions st
     /\ current_question st' = current_question st
     /\ used_numbers st' = used_numbers st
     /\ current_section_type st'
        = match section_of (line_text ln) with
          | Some section_type => Some section_type
          | None => current_section_type st
          end.
Proof.
  cbv zeta.
  assert (Hnoise : is_noise (u "1. repeat") = false) by (vm_compute; reflexivity).
  assert (Hn : question_number (H := Sample.ascii_unicode) (u "1. repeat") = Some 1)
    by (vm_compute; reflexivity).
  assert (Hu : 1 ∈ used_numbers
                 (foldl (step (H := Sample.ascii_unicode) 200) initial_state
                    [mkLine (u "1. first") 10; mkLine (u "2. second") 50])).
  { refine (bool_decide_unpack _ _). vm_compute. exact I. }
  split; [split; [exact Hnoise | split; [exact Hn | left; exact Hu]]|].
  apply (rejected_number_line_is_skipped (H := Sample.ascii_unicode) 200 _
           (mkLine (u "1. repeat") 90) 1); [exact Hnoise | exact Hn | left; exact Hu].
Defined.

(** C1, the counterexample: with question 1 closed and question 2 open, the
    line "1. repeat" carries the used number 1 and is not noise; the open
    question has no continuation line before it and none after it, and in
    the end neither that line nor the line numbered 0 is among the lines of
    any question. *)
Lemma repeated_number_line_not_appended :
  let st := foldl (step (H := Sample.ascii_unicode) 200) initial_state
              [mkLine (u "1. first") 10; mkLine (u "2. second") 50] in
  let ln := mkLine (u "1. repeat") 90 in
  let lines := [mkLine (u "1. first") 10; mkLine (u "2. second") 50; ln;
                mkLine (u "0. zero") 120] in
  is_noise (line_text ln) = false
  /\ question_number (H := Sample.ascii_unicode) (line_text ln) = Some 1
  /\ bool_decide (1 ∈ used_numbers st) = true
  /\ (fun q => (q_index q, q_lines q)) <$> current_question st = Some (2, [])
  /\ (fun q => (q_index q, q_lines q))
       <$> current_question (step (H := Sample.ascii_unicode) 200 st ln) = Some (2, [])
  /\ map (fun q => (q_index q, q_lines q)) (assemble (H := Sample.ascii_unicode) 200 lines)
     = [(1, [u "1. first"]); (2, [u "2. second"])].
Proof. vm_compute. repeat split. Qed.

(** The lines of the specification's example: two questions, the first
    with its two option lines. *)
Example assemble_example :
  map (fun q => (q_index q, q_y0 q, q_y1 q, q_lines q, q_type q))
      (assemble (H := Sample.ascii_unicode) 200
         [ mkLine (u "1. What is x?") 10; mkLine (u "A. one") 30;
           mkLine (u "B. two") 50; mkLine (u "2. Next?") 70 ])
  = [ (1, 10, 65, [u "A. one"; u "B. two"; u "1. What is x?"], Some Choice);
      (2, 70, 200, [u "2. Next?"], None) ].
Proof. vm_compute. reflexivity. Qed.

(** The order of the results is that of the numbers, not of the page:
    question 2 stands above question 1 here. *)
Example sorted_by_index_not_by_position :
  let lines := [mkLine (u "2. second") 10; mkLine (u "1. first") 60] in
  map (fun r => (r_index r, r_y0 r))
      (split_by_question_number (H := Sample.ascii_unicode) (H0 := Sample.no_imaging)
         lines (Sample.blank_page 100 4))
  = [(1, 60); (2, 0)].
Proof. vm_compute. reflexivity. Qed.

End SegmentationExamples.

(** ** Content parsing *)

Section Strip.
Import Text.

Lemma lstrip_starts_nonspace (t : text) : starts_nonspace t -> lstrip t = t.
Proof. intros (c & t' & -> & Hc). cbn. by rewrite Hc. Qed.

Lemma lstrip_cases (t : text) : lstrip t = [] \/ starts_nonspace (lstrip t).
Proof.
  induction t as [|c t IH]; [by left|].
  cbn. destruct (isspace c) eqn:Hc; [done|].
  right. by exists c, t.
Qed.

Lemma lstrip_snoc (l : text) (c : Z) :
  isspace c = false -> lstrip (l ++ [c]) = lstrip l ++ [c].
Proof.
  intros Hc. induction l as [|a l IH]; cbn; [by rewrite Hc|].
  by destruct (isspace a).
Qed.

Lemma rstrip_cons (c : Z) (t : text) :
  isspace c = false -> rstrip (c :: t) = c :: rstrip t.
Proof.
  intros Hc. unfold rstrip. cbn [rev].
  by rewrite lstrip_snoc, rev_app_distr.
Qed.

(** A stripped string is empty or has no blank at either end. *)
Lemma strip_cases (t : text) :
  strip t = [] \/ (starts_nonspace (strip t) /\ starts_nonspace (rev (strip t))).
Proof.
  unfold strip. destruct (lstrip_cases t) as [->|(c & t' & Ht & Hc)]; [by left|].
  rewrite Ht. right. split.
  - rewrite rstrip_cons by done. by eexists _, _.
  - unfold rstrip. rewrite rev_involutive.
    destruct (lstrip_cases (rev (c :: t'))) as [He|Hs]; [|done].
    exfalso. cbn [rev] in He. rewrite lstrip_snoc in He by done.
    by destruct (lstrip (rev t')).
Qed.

Lemma strip_fixed (t : text) :
  starts_nonspace t -> starts_nonspace (rev t) -> strip t = t.
Proof.
  intros H1 H2. unfold strip, rstrip.
  by rewrite (lstrip_starts_nonspace t H1), (lstrip_starts_nonspace _ H2), rev_involutive.
Qed.

Lemma join_edges (sep : text) (parts : list text) :
  parts <> [] ->
  Forall (fun p => starts_nonspace p /\ starts_nonspace (rev p)) parts ->
  starts_nonspace (join sep parts) /\ starts_nonspace (rev (join sep parts)).
Proof.
  induction parts as [|p ps IH]; [done|]. intros _ Hall.
  apply Forall_cons in Hall as [[Hp Hp'] Hall].
  destruct ps as [|q ps]; [done|].
  destruct (IH ltac:(done) Hall) as [_ IHr].
  change (join sep (p :: q :: ps)) with (p ++ sep ++ join sep (q :: ps)).
  split.
  - destruct Hp as (c & t' & -> & Hc). by eexists _, _.
  - rewrite !rev_app_distr. destruct IHr as (c & t' & -> & Hc).
    rewrite <- !app_assoc. by eexists _, _.
Qed.

End Strip.

Section Content.
Import Text Re Main.

Lemma clean_line_edges (ln t : text) :
  clean_line ln = Some t -> starts_nonspace t /\ starts_nonspace (rev t).
Proof.
  unfold clean_line. destruct (strip_cases ln) as [->|Hs]; [done|].
  destruct (strip ln) eqn:Hl; [done|].
  destruct (existsb _ _); [done|]. by intros [= <-].
Qed.

(** The cleaned text is empty or has no blank at either end. *)
Lemma clean_text_edges (ocr_text : text) :
  clean_text ocr_text = []
  \/ (starts_nonspace (clean_text ocr_text)
      /\ starts_nonspace (rev (clean_text ocr_text))).
Proof.
  unfold clean_text.
  set (ls := omap clean_line (split_on 10 ocr_text)).
  assert (Hall : Forall (fun p => starts_nonspace p /\ starts_nonspace (rev p)) ls).
  { apply Forall_forall. intros t Ht. apply list_elem_of_omap in Ht as (ln & _ & Ht).
    by eapply clean_line_edges. }
  destruct ls as [|p ps] eqn:Hls; [by left|].
  right. by apply join_edges.
Qed.

Lemma strip_clean_text (ocr_text : text) :
  strip (clean_text ocr_text) = clean_text ocr_text.
Proof.
  destruct (clean_text_edges ocr_text) as [->|[Hl Hr]]; [done|].
  by apply strip_fixed.
Qed.



Lemma collect_options_spec (clean : text) (ms : list rmatch) (found : gset text) :
  NoDup (map label (collect_options clean found ms))
  /\ forall o, o ∈ collect_options clean found ms ->
       (label o ∉ found) /\ kept_from clean ms o.
Proof.
  revert found. induction ms as [|m rest IH]; intros found.
  { split; [constructor|]. intros o Ho. by apply elem_of_nil in Ho. }
  cbn [collect_options].
  set (lbl := match_label clean m).
  assert (Hshift : forall (found' : gset text) o,
     label o ∉ found' -> (lbl ∈ found') -> kept_from clean rest o ->
     kept_from clean (m :: rest) o).
  { intros found' o Hnot Hin (i & m' & Hi & Hl & Hfirst & Hc & Hne).
    exists (S i), m'. split; [done|]. split; [done|]. split; [|done].
    intros [|j] m'' Hj Hm''.
    - cbn in Hm''. injection Hm'' as <-. fold lbl. intros Heq. apply Hnot. by rewrite <- Heq.
    - apply (Hfirst j); [lia|done]. }
  destruct (decide (lbl ∈ found)) as [Hin|Hnotin].
  - destruct (IH found) as [Hnd Hall]. split; [done|].
    intros o Ho. destruct (Hall o Ho) as [Hnot Hk]. split; [done|].
    by apply (Hshift found).
  - destruct (IH ({[lbl]} ∪ found)) as [Hnd Hall].
    assert (Hrest : forall o, o ∈ collect_options clean ({[lbl]} ∪ found) rest ->
               (label o ∉ found) /\ kept_from clean (m :: rest) o /\ label o <> lbl).
    { intros o Ho. destruct (Hall o Ho) as [Hnot Hk].
      assert (Hlbl : lbl ∈ ({[lbl]} ∪ found : gset text))
        by (apply elem_of_union_l; by apply elem_of_singleton).
      split; [intros Hx; apply Hnot; by apply elem_of_union_r|].
      split; [|intros Heq; apply Hnot; by rewrite Heq].
      by apply (Hshift ({[lbl]} ∪ found)). }
    destruct (strip _) as [|c cs] eqn:Hcontent.
    + split; [done|]. intros o Ho. destruct (Hrest o Ho) as (? & ? & ?). done.
    + split.
      * cbn. constructor; [|done]. intros Hl.
        apply list_elem_of_fmap in Hl as (o & Ho & Hin').
        destruct (Hrest o Hin') as (_ & _ & Hneq). by rewrite <- Ho in Hneq.
      * intros o Ho. apply elem_of_cons in Ho as [->|Ho].
        -- split; [done|]. exists 0%nat, m. cbn [label content].
           split; [done|]. split; [done|]. split; [intros j ? Hj; lia|].
           split; [|done]. rewrite <- Hcontent. unfold boundary. cbn.
           by destruct rest.
        -- destruct (Hrest o Ho) as (? & ? & ?). done.
Qed.



Lemma parse_question_content_unfold (ocr_text : text) :
  parse_question_content ocr_text =
  match select_matches option_patterns (clean_text ocr_text) with
  | [] => mkParsed (clean_text ocr_text) []
  | first :: _ =>
      mkParsed (strip (take (m_start first) (clean_text ocr_text)))
        (sort_by (fun a b => text_le (label a) (label b))
           (collect_options (clean_text ocr_text) ∅
              (select_matches option_patterns (clean_text ocr_text))))
  end.
Proof.
  destruct ocr_text as [|c t]; [reflexivity|].
  unfold parse_question_content.
  destruct (select_matches _ _); [by rewrite strip_clean_text|done].
Qed.


End Content.

Section ContentExamples.
Import Text Re Main.

(** Bare letters count as markers only before something that is not a
    letter; a repeated label keeps its first occurrence; the options come
    out in the order of the labels; noise lines are dropped first. *)
Example parse_question_content_examples :
  parse_question_content (u "which? A one B two C 3")
    = mkParsed (u "which? A one B two C 3") []
  /\ parse_question_content (u "pick A 1 B 2 C 3")
    = mkParsed (u "pick")
        [mkOption (u "A") (u "1"); mkOption (u "B") (u "2"); mkOption (u "C") (u "3")]
  /\ parse_question_content (u "which? b. one A. two a. three")
    = mkParsed (u "which?") [mkOption (u "A") (u "two"); mkOption (u "B") (u "one")]
  /\ parse_question_content [] = mkParsed [] []
  /\ parse_question_content (u "姓名" ++ [10] ++ u " 2. x " ++ [10] ++ u "A.1 B.2")
    = mkParsed (u "2. x") [mkOption (u "A") (u "1"); mkOption (u "B") (u "2")].
Proof. vm_compute. repeat split. Qed.

End ContentExamples.

(** ** Further properties *)

Section Further.
Import Text Re Main Erase EraseServer.



(** X2. The cleaned text of the content parser never begins or ends with
    a blank, so stripping it gives it back. *)
Theorem cleaned_text_is_stripped (ocr_text : text) :
  (forall c, head (clean_text ocr_text) = Some c -> isspace c = false)
  /\ (forall c, last (clean_text ocr_text) = Some c -> isspace c = false)
  /\ strip (clean_text ocr_text) = clean_text ocr_text.
Proof.
  destruct (clean_text_edges ocr_text) as [He|[Hl Hr]].
  - rewrite He. by repeat split.
  - split; [|split].
    + destruct Hl as (c' & t' & -> & Hc). by intros c [= <-].
    + destruct Hr as (c' & t' & Hrev & Hc). intros c Hlast.
      rewrite <- (rev_involutive (clean_text ocr_text)), Hrev in Hlast.
      cbn [rev] in Hlast. rewrite last_snoc in Hlast. by injection Hlast as <-.
    + by apply strip_fixed.
Qed.


End Further.


(** * Further code: recognition, correction and the handlers *)

(** ** Ink removal: unknown modes, and what is always erased *)

Section EraseUnknownMode.
Import Erase.
Context `{OpenCV}.

(** Reading an all-zero mask gives zero, inside and outside. *)
Lemma get2d_zeros_like {A} (g : grid A) (y x : Z) : get2d 0 (zeros_like g) y x = 0.
Proof.
  unfold get2d. destruct (_ || _); [done|].
  unfold zeros_like, map2d.
  destruct (nth_in_or_default (Z.to_nat y) (map (map (fun _ : A => 0)) g) []) as [Hin| ->].
  - apply in_map_iff in Hin as (row & <- & _).
    destruct (nth_in_or_default (Z.to_nat x) (map (fun _ : A => 0) row) 0) as [Hx| ->]; [|done].
    by apply in_map_iff in Hx as (? & <- & _).
  - by destruct (Z.to_nat x).
Qed.

Lemma foldr_max_zero (l : list Z) : Forall (fun v => v = 0) l -> foldr Z.max 0 l = 0.
Proof. induction 1 as [|v l -> _ IH]; cbn; [done|]. by rewrite IH. Qed.

Lemma tabulate_like_const {A} (g : grid A) (f : Z -> Z -> Z) :
  (forall y x, f y x = 0) -> tabulate_like g f = zeros_like g.
Proof.
  intros Hf. unfold tabulate_like, zeros_like, map2d.
  apply list_eq. intros y. rewrite list_lookup_imap, list_lookup_fmap.
  destruct (g !! y) as [row|]; cbn; [|done]. f_equal.
  apply list_eq. intros x. rewrite list_lookup_imap, list_lookup_fmap.
  destruct (row !! x); cbn; [|done]. by rewrite Hf.
Qed.

Lemma zeros_like_zeros_like {A} (g : grid A) : zeros_like (zeros_like g) = zeros_like g.
Proof.
  unfold zeros_like, map2d. rewrite map_map. apply map_ext. intros row.
  by rewrite map_map.
Qed.

Lemma dilate1_zeros {A} (g : grid A) (k : Z) :
  dilate1 k (zeros_like g) = zeros_like g.
Proof.
  unfold dilate1. rewrite tabulate_like_const; [apply zeros_like_zeros_like|].
  intros y x. apply foldr_max_zero. unfold neighbourhood.
  apply Forall_forall. intros v Hv.
  apply list_elem_of_bind in Hv as (dy & Hv & _).
  apply list_elem_of_bind in Hv as (dx & Hv & _).
  apply list_elem_of_singleton in Hv as ->. apply get2d_zeros_like.
Qed.

Lemma dilate_zeros {A} (g : grid A) (k : Z) (n : nat) :
  dilate (zeros_like g) k n = zeros_like g.
Proof.
  unfold dilate. induction n as [|n IH]; [done|].
  change (Nat.iter (S n) (dilate1 k) (zeros_like g))
    with (dilate1 k (Nat.iter n (dilate1 k) (zeros_like g))).
  rewrite IH. apply dilate1_zeros.
Qed.

Lemma fill_white_zeros (img : image) : fill_white img (zeros_like img) = img.
Proof.
  unfold fill_white, zeros_like, zip2d, map2d.
  induction img as [|row img IH]; [done|]. cbn. f_equal; [|done].
  clear. induction row as [|p row IH]; [done|]. cbn. by f_equal.
Qed.

Lemma map2d_swap_rb_involutive (img : image) : map2d swap_rb (map2d swap_rb img) = img.
Proof.
  unfold map2d. rewrite map_map. rewrite <- (map_id img) at 2. apply map_ext.
  intros row. rewrite map_map. rewrite <- (map_id row) at 2. apply map_ext.
  apply swap_rb_involutive.
Qed.

Lemma zeros_like_map2d {A B} (f : A -> B) (g : grid A) : zeros_like (map2d f g) = zeros_like g.
Proof.
  unfold zeros_like, map2d. rewrite map_map. apply map_ext. intros row. by rewrite map_map.
Qed.

(** X4. With a mode string other than the four documented ones no source is
    consulted: the mask stays all zero through the dilation, and
    [erase_handwriting_opencv] (and [erase_handwriting_process]) returns the
    picture it was given. *)
Theorem unknown_mode_erases_nothing (img_array : image) (name : string) :
  final_mask (map2d swap_rb img_array) (OtherMode name) = zeros_like img_array
  /\ erase_handwriting_opencv img_array (OtherMode name) = img_array
  /\ erase_handwriting_process img_array (OtherMode name) = img_array.
Proof.
  assert (Hmask : final_mask (map2d swap_rb img_array) (OtherMode name)
                  = zeros_like (map2d swap_rb img_array)).
  { unfold final_mask, union_mask.
    cbn [is_blue_mode is_colour_mode is_dark_mode]. apply dilate_zeros. }
  assert (Hout : erase_handwriting_opencv img_array (OtherMode name) = img_array).
  { unfold erase_handwriting_opencv. cbn [is_auto]. rewrite Hmask.
    rewrite fill_white_zeros. apply map2d_swap_rb_involutive. }
  split; [by rewrite Hmask, zeros_like_map2d|]. by split.
Qed.

End EraseUnknownMode.
Section EraseWhitening.
Import Erase.
Context `{OpenCV}.

Lemma px_tabulate_like {A B} (g : grid A) (f : Z -> Z -> B) (y x : nat) :
  px (tabulate_like g f) y x = (fun _ => f (Z.of_nat y) (Z.of_nat x)) <$> px g y x.
Proof.
  unfold px, tabulate_like. rewrite list_lookup_imap.
  destruct (g !! y) as [row|]; cbn; [|done].
  rewrite list_lookup_imap. by destruct (row !! x).
Qed.

Lemma foldr_max_ge (l : list Z) (v : Z) : v ∈ l -> v <= foldr Z.max 0 l.
Proof.
  induction l as [|a l IH]; intros Hv; [by apply elem_of_nil in Hv|].
  cbn. apply elem_of_cons in Hv as [->|Hv]; [lia|]. specialize (IH Hv). lia.
Qed.

(** A 3x3 kernel covers its anchor, so dilating never lowers an entry. *)
Lemma dilate1_extensive (m : mask) (y x : nat) (v : Z) :
  px m y x = Some v ->
  exists v', px (dilate1 3 m) y x = Some v' /\ v <= v'.
Proof.
  intros Hv. unfold dilate1. rewrite px_tabulate_like, Hv. cbn.
  eexists. split; [reflexivity|]. apply foldr_max_ge.
  unfold neighbourhood. apply list_elem_of_bind. exists 0. split.
  - apply list_elem_of_bind. exists 0. split.
    + rewrite !Z.add_0_r, (get2d_px 0 m y x v Hv). apply list_elem_of_singleton. done.
    + unfold offsets. apply list_elem_of_In. right. left. reflexivity.
  - unfold offsets. apply list_elem_of_In. right. left. reflexivity.
Qed.

Lemma dilate_extensive (m : mask) (n : nat) (y x : nat) (v : Z) :
  px m y x = Some v ->
  exists v', px (dilate m 3 n) y x = Some v' /\ v <= v'.
Proof.
  intros Hv. unfold dilate. induction n as [|n (w & Hw & Hle)].
  - exists v. by split.
  - change (Nat.iter (S n) (dilate1 3) m) with (dilate1 3 (Nat.iter n (dilate1 3) m)).
    destruct (dilate1_extensive _ y x w Hw) as (w' & Hw' & Hle').
    exists w'. split; [done|lia].
Qed.

(** X5. In every mode but auto, a pixel at which the union of the
    consulted sources is set is white in the result: the two dilations only
    add to the mask. *)
Theorem detected_ink_is_whitened (img_array : image) (mode : erase_mode) (y x : nat) (v : Z) :
  mode <> Auto ->
  px (union_mask (map2d swap_rb img_array) mode) y x = Some v ->
  0 < v ->
  px (erase_handwriting_opencv img_array mode) y x = Some white.
Proof.
  intros Hm Hv Hpos. rewrite (erase_not_auto _ _ Hm).
  set (bgr := map2d swap_rb img_array) in *.
  destruct (dilate_extensive _ 2 y x v Hv) as (w & Hw & Hle).
  fold (final_mask bgr mode) in Hw.
  destruct (px_same_shape (final_mask bgr mode) bgr y x) as [p Hp];
    [apply shape_final_mask | by eexists |].
  unfold fill_white. rewrite px_map2d, px_zip2d, Hp, Hw. cbn.
  destruct (Z.gtb_spec w 0); [done|lia].
Qed.

End EraseWhitening.

Section EraseExamples.
Import Erase.

Lemma detected_ink_is_whitened_witness :
  (Blue <> Auto
   /\ px (union_mask (H := Sample.failing_cv) (map2d swap_rb Sample.blue_page) Blue) 2 2
      = Some 255
   /\ 0 < 255)
  /\ px (erase_handwriting_opencv (H := Sample.failing_cv) Sample.blue_page Blue) 2 2
     = Some white.
Proof.
  assert (Hmode : Blue <> Auto) by discriminate.
  assert (Hv : px (union_mask (H := Sample.failing_cv) (map2d swap_rb Sample.blue_page) Blue)
                  2 2 = Some 255) by (vm_compute; reflexivity).
  assert (Hpos : 0 < 255) by lia.
  split; [by repeat split|].
  exact (detected_ink_is_whitened (H := Sample.failing_cv) Sample.blue_page Blue 2 2 255
           Hmode Hv Hpos).
Defined.

(** A mode the function does not know leaves even a page with ink as it
    is. *)
Example unknown_mode_example :
  erase_handwriting_opencv (H := Sample.failing_cv) Sample.blue_page (OtherMode "red")
  = Sample.blue_page.
Proof. vm_compute. reflexivity. Qed.

End EraseExamples.

(** ** Whitespace cropping keeps the content *)

Section CropWindow.
Import EraseServer Correct.

Lemma nonzero_points_iff (g : grid Z) (a b : Z) :
  (a, b) ∈ nonzero_points g
  <-> exists (y x : nat) (v : Z),
        a = Z.of_nat x /\ b = Z.of_nat y /\ px g y x = Some v /\ v <> 0.
Proof.
  unfold nonzero_points, px. rewrite list_elem_of_In, in_concat. split.
  - intros (l & Hl & Hab).
    apply list_elem_of_In, list_elem_of_lookup in Hl as [y Hy].
    rewrite list_lookup_imap in Hy.
    destruct (g !! y) as [row|] eqn:Hrow; [|done]. cbn in Hy. injection Hy as <-.
    apply list_elem_of_In, list_elem_of_omap in Hab as ([x v] & Hxv & Hsome).
    apply list_elem_of_lookup in Hxv as [i Hi]. rewrite list_lookup_imap in Hi.
    destruct (row !! i) as [w|] eqn:Hw; [|done]. cbn in Hi. injection Hi as <- <-.
    cbn in Hsome. destruct (Z.eqb_spec w 0); [done|]. injection Hsome as <- <-.
    exists y, i, w. rewrite Hrow. cbn. by rewrite Hw.
  - intros (y & x & v & -> & -> & Hv & Hne).
    destruct (g !! y) as [row|] eqn:Hrow; [|done]. cbn in Hv.
    eexists. split.
    + apply list_elem_of_In. apply list_elem_of_lookup. exists y.
      rewrite list_lookup_imap, Hrow. reflexivity.
    + apply list_elem_of_In, list_elem_of_omap. exists (x, v). split.
      * apply list_elem_of_lookup. exists x. by rewrite list_lookup_imap, Hv.
      * cbn. by destruct (Z.eqb_spec v 0).
Qed.

Lemma foldr_min_le (a : Z) (l : list Z) :
  foldr Z.min a l <= a /\ forall v, v ∈ l -> foldr Z.min a l <= v.
Proof.
  induction l as [|b l [IHa IHl]]; cbn.
  - split; [lia|]. intros v Hv. by apply elem_of_nil in Hv.
  - split; [lia|]. intros v Hv. apply elem_of_cons in Hv as [->|Hv]; [lia|].
    specialize (IHl v Hv). lia.
Qed.

Lemma foldr_max_from (a : Z) (l : list Z) :
  a <= foldr Z.max a l /\ forall v, v ∈ l -> v <= foldr Z.max a l.
Proof.
  induction l as [|b l [IHa IHl]]; cbn.
  - split; [lia|]. intros v Hv. by apply elem_of_nil in Hv.
  - split; [lia|]. intros v Hv. apply elem_of_cons in Hv as [->|Hv]; [lia|].
    specialize (IHl v Hv). lia.
Qed.

(** The box of [cv2.boundingRect] holds every point it was built from. *)
Lemma boundingRect_contains (pts : list point) (p : point) :
  p ∈ pts ->
  let '(x, y, w, h) := boundingRect pts in
  x <= p.1 < x + w /\ y <= p.2 < y + h.
Proof.
  destruct pts as [|p0 ps]; [intros Hp; by apply elem_of_nil in Hp|].
  intros Hp. cbn [boundingRect].
  destruct (foldr_min_le p0.1 (map fst ps)) as [Hx0 Hxs].
  destruct (foldr_max_from p0.1 (map fst ps)) as [Hx1 Hxs'].
  destruct (foldr_min_le p0.2 (map snd ps)) as [Hy0 Hys].
  destruct (foldr_max_from p0.2 (map snd ps)) as [Hy1 Hys'].
  apply elem_of_cons in Hp as [->|Hp]; [lia|].
  assert (H1 : p.1 ∈ map fst ps) by (apply list_elem_of_fmap; eauto).
  assert (H2 : p.2 ∈ map snd ps) by (apply list_elem_of_fmap; eauto).
  specialize (Hxs _ H1). specialize (Hxs' _ H1).
  specialize (Hys _ H2). specialize (Hys' _ H2). lia.
Qed.

(** A slice within the list: its entries, and its length. *)
Lemma py_slice_inside {A} (l : list A) (a b : Z) :
  0 <= a <= b -> b <= Z.of_nat (length l) ->
  py_slice l a b = take (Z.to_nat (b - a)) (drop (Z.to_nat a) l)
  /\ Z.of_nat (length (py_slice l a b)) = b - a.
Proof.
  intros Hab Hb. unfold py_slice, slice_bound.
  destruct (Z.ltb_spec a 0); [lia|]. destruct (Z.ltb_spec b 0); [lia|].
  rewrite !Z.min_r by lia. split; [done|].
  rewrite length_take, length_drop. lia.
Qed.

Lemma py_slice_all {A} (l : list A) : py_slice l 0 (Z.of_nat (length l)) = l.
Proof.
  destruct (py_slice_inside l 0 (Z.of_nat (length l))) as [-> _]; [lia|lia|].
  rewrite Z.sub_0_r, Nat2Z.id. cbn [Z.to_nat drop]. apply firstn_all.
Qed.

Lemma crop_all {A} (g : grid A) :
  rectangular g -> crop g 0 (height g) 0 (width g) = g.
Proof.
  intros Hr. unfold crop, height, width. rewrite py_slice_all.
  rewrite <- (map_id g) at 2. apply map_ext_Forall.
  eapply Forall_impl; [exact Hr|]. intros row Hrow. cbn beta.
  rewrite <- Hrow. apply py_slice_all.
Qed.

(** A window of the frame that is as large as the frame is the frame. *)
Lemma crop_same_shape {A} (g : grid A) (top bottom left right : Z) :
  rectangular g ->
  0 <= top <= bottom -> bottom <= height g ->
  0 <= left <= right -> right <= width g ->
  height (crop g top bottom left right) = height g ->
  width (crop g top bottom left right) = width g ->
  crop g top bottom left right = g.
Proof.
  intros Hr Htb Hb Hlr Hrw Hh Hw.
  destruct (py_slice_inside g top bottom Htb Hb) as [Hrows Hlen].
  assert (top = 0 /\ bottom = height g) as [-> ->].
  { unfold crop, height in *. rewrite length_map in Hh. lia. }
  destruct g as [|row g]; [done|].
  assert (left = 0 /\ right = width (row :: g)) as [-> ->].
  { unfold crop in Hw. unfold height in Hw. rewrite py_slice_all in Hw.
    unfold width in *. cbn [map hd] in Hw.
    destruct (py_slice_inside row left right Hlr Hrw) as [_ Hl]. cbn [hd] in *. lia. }
  by apply crop_all.
Qed.

Lemma px_in_frame {A} (g : grid A) (y x : nat) (v : A) :
  rectangular g -> px g y x = Some v ->
  Z.of_nat y < height g /\ Z.of_nat x < width g.
Proof.
  intros Hr Hv. unfold px in Hv.
  destruct (g !! y) as [row|] eqn:Hrow; [|done]. cbn in Hv.
  pose proof (lookup_lt_Some _ _ _ Hrow). pose proof (lookup_lt_Some _ _ _ Hv).
  unfold rectangular in Hr. rewrite Forall_forall in Hr.
  specialize (Hr row (list_elem_of_lookup_2 _ _ _ Hrow)).
  unfold height, width. lia.
Qed.

Context `{OpenCV}.

Lemma to_gray_frame (img : ndarray) (y x : nat) (v : Z) :
  rectangular_nd img -> px (to_gray img) y x = Some v ->
  Z.of_nat y < shape0 img /\ Z.of_nat x < shape1 img.
Proof.
  destruct img as [g|c]; cbn [rectangular_nd to_gray shape0 shape1]; intros Hr Hv.
  - by eapply px_in_frame.
  - rewrite px_map2d in Hv. destruct (px c y x) as [p|] eqn:Hp; [|done].
    by eapply px_in_frame.
Qed.

Lemma crop_nd_all (img : ndarray) :
  rectangular_nd img -> crop_nd img 0 (shape0 img) 0 (shape1 img) = img.
Proof.
  destruct img; cbn; intros Hr; f_equal; by apply crop_all.
Qed.

(** What [auto_crop_whitespace] cuts out: a window of the page that holds
    every point the threshold marks. *)
Lemma auto_crop_whitespace_window (img : ndarray) (padding : Z) :
  0 <= padding -> rectangular_nd img ->
  exists top bottom left right,
    auto_crop_whitespace img padding = crop_nd img top bottom left right
    /\ 0 <= top <= bottom /\ bottom <= shape0 img
    /\ 0 <= left <= right /\ right <= shape1 img
    /\ forall p, p ∈ nonzero_points (threshold_binary_inv 250 255 (to_gray img)) ->
         top <= p.2 < bottom /\ left <= p.1 < right.
Proof.
  intros Hpad Hrect.
  set (binary := threshold_binary_inv 250 255 (to_gray img)).
  assert (Hframe : forall p, p ∈ nonzero_points binary ->
            0 <= p.1 < shape1 img /\ 0 <= p.2 < shape0 img).
  { intros [a b] Hp. apply nonzero_points_iff in Hp as (y & x & v & -> & -> & Hv & _).
    unfold binary, threshold_binary_inv in Hv. rewrite px_map2d in Hv.
    destruct (px (to_gray img) y x) as [w|] eqn:Hw; [|done].
    destruct (to_gray_frame img y x w Hrect Hw). cbn. lia. }
  unfold auto_crop_whitespace. fold binary. unfold findNonZero.
  destruct (nonzero_points binary) as [|p0 ps] eqn:Hnz.
  - exists 0, (shape0 img), 0, (shape1 img).
    split; [by rewrite crop_nd_all|].
    assert (0 <= shape0 img /\ 0 <= shape1 img)
      by (destruct img; cbn; unfold height, width; lia).
    split; [lia|]. split; [lia|]. split; [lia|]. split; [lia|].
    intros p Hp. by apply elem_of_nil in Hp.
  - pose proof (boundingRect_contains (p0 :: ps)) as Hbox.
    destruct (boundingRect (p0 :: ps)) as [[[bx by_] bw] bh].
    pose proof (Hbox p0 ltac:(left)) as Hb0. cbn beta iota in Hb0.
    pose proof (Hframe p0 ltac:(left)) as Hf0.
    eexists _, _, _, _. split; [reflexivity|].
    split; [lia|]. split; [lia|]. split; [lia|]. split; [lia|].
    intros p Hp. specialize (Hbox p Hp). cbn beta iota in Hbox.
    specialize (Hframe p Hp). lia.
Qed.

(** X6. For a padding that is not negative, what [auto_crop_whitespace]
    returns is a window of the picture, within its frame, that holds every
    pixel whose gray value is at most 250: cropping never cuts into the
    content. *)
Theorem auto_crop_whitespace_keeps_content (img : ndarray) (padding : Z) :
  0 <= padding -> rectangular_nd img ->
  exists top bottom left right,
    auto_crop_whitespace img padding = crop_nd img top bottom left right
    /\ 0 <= top <= bottom /\ bottom <= shape0 img
    /\ 0 <= left <= right /\ right <= shape1 img
    /\ forall y x v, px (to_gray img) y x = Some v -> v <= 250 ->
         top <= Z.of_nat y < bottom /\ left <= Z.of_nat x < right.
Proof.
  intros Hpad Hrect.
  destruct (auto_crop_whitespace_window img padding Hpad Hrect)
    as (top & bottom & left & right & Hcrop & Htb & Hb & Hlr & Hr & Hin).
  exists top, bottom, left, right. repeat (split; [done|]).
  intros y x v Hv Hle.
  assert (Hmarked : (Z.of_nat x, Z.of_nat y)
                    ∈ nonzero_points (threshold_binary_inv 250 255 (to_gray img))).
  { apply nonzero_points_iff. exists y, x, 255.
    split; [done|]. split; [done|]. split; [|done].
    unfold threshold_binary_inv. rewrite px_map2d, Hv. cbn.
    destruct (Z.gtb_spec v 250); [lia|done]. }
  exact (Hin _ Hmarked).
Qed.

(** When the result has the rows and columns of the page, it is the page. *)
Lemma auto_crop_whitespace_same_shape (img : ndarray) (padding : Z) :
  0 <= padding -> rectangular_nd img ->
  shape0 (auto_crop_whitespace img padding) = shape0 img ->
  shape1 (auto_crop_whitespace img padding) = shape1 img ->
  auto_crop_whitespace img padding = img.
Proof.
  intros Hpad Hrect.
  destruct (auto_crop_whitespace_window img padding Hpad Hrect)
    as (top & bottom & left & right & -> & Htb & Hb & Hlr & Hr & _).
  destruct img as [g|c]; cbn [crop_nd shape0 shape1 rectangular_nd] in *;
    intros H0 H1; f_equal; by apply crop_same_shape.
Qed.

End CropWindow.

Section CropExamples.
Import EraseServer Correct.

Lemma auto_crop_whitespace_keeps_content_witness :
  let img := Gray2 [ [255; 255; 255; 255; 255];
                     [255; 255; 255; 255; 255];
                     [255; 255;  17; 255; 255];
                     [255; 255; 255; 255; 255] ] in
  (0 <= 1 /\ rectangular_nd img)
  /\ exists top bottom left right,
       auto_crop_whitespace (H := Sample.failing_cv) img 1
       = crop_nd img top bottom left right
       /\ 0 <= top <= bottom /\ bottom <= shape0 img
       /\ 0 <= left <= right /\ right <= shape1 img
       /\ forall y x v, px (to_gray (H := Sample.failing_cv) img) y x = Some v -> v <= 250 ->
            top <= Z.of_nat y < bottom /\ left <= Z.of_nat x < right.
Proof.
  cbv zeta.
  assert (Hpad : 0 <= 1) by lia.
  assert (Hrect : rectangular_nd (Gray2 [ [255; 255; 255; 255; 255];
                                          [255; 255; 255; 255; 255];
                                          [255; 255;  17; 255; 255];
                                          [255; 255; 255; 255; 255] ]))
    by (cbn; repeat constructor).
  split; [by split|].
  exact (auto_crop_whitespace_keeps_content (H := Sample.failing_cv) _ 1 Hpad Hrect).
Defined.

End CropExamples.

(** ** Question segmentation: ranges, windows and texts *)

Section SegmentationInvariant.
Import Text Re Main Invariant.
Context `{Unicode}.
Variable P : text -> Prop.

Lemma append_line_fields (q : question) (t : text) :
  q_index (append_line q t) = q_index q
  /\ q_first_line (append_line q t) = q_first_line q
  /\ q_lines (append_line q t) = q_lines q ++ [t].
Proof.
  unfold append_line. cbv zeta. cbn [q_type].
  destruct (q_type q); [done|].
  destruct (detect_question_type t); done.
Qed.

Lemma close_question_ok (q : question) (y1 : Z) :
  open_ok P q -> closed_ok P (close_question q y1).
Proof.
  intros [Hh Hl]. split; [exact Hh|]. exists (q_lines q). by split.
Qed.

Lemma step_state_ok (height : Z) (st : state) (ln : line) :
  P (line_text ln) -> state_ok P st -> state_ok P (step height st ln).
Proof.
  intros HP Hst. unfold step.
  destruct (is_noise (line_text ln)) eqn:Hnoise; [done|].
  set (st1 := match section_of (line_text ln) with
              | Some t => set_section st (Some t)
              | None => st
              end).
  assert (Hst1 : state_ok P st1) by (unfold st1; destruct (section_of _); exact Hst).
  clearbody st1. clear Hst. pose proof Hst1 as [Hclosed Hopen].
  destruct (question_number (line_text ln)) as [n|] eqn:Hn.
  - destruct (decide _) as [|Hfresh]; [exact Hst1|].
    destruct (Z.ltb_spec n 1); [exact Hst1|].
    destruct (Z.gtb_spec n 100); [exact Hst1|]. cbn [orb].
    split; cbn [questions current_question].
    + destruct (current_question st1) as [q|] eqn:Hq; [|done].
      apply Forall_app. split; [done|]. apply Forall_singleton.
      by apply close_question_ok, Hopen.
    + intros q [= <-]. split; [|by constructor].
      split; [done|]. split; [done|]. split; [done|]. cbn. lia.
  - destruct (current_question st1) as [q|] eqn:Hq; [|exact Hst1].
    split; cbn [questions current_question]; [done|].
    intros q' [= <-]. destruct (Hopen q eq_refl) as [Hh Hl].
    destruct (append_line_fields q (line_text ln)) as (Hi & Hf & Hls).
    split.
    + unfold head_ok. rewrite Hi, Hf. exact Hh.
    + rewrite Hls. apply Forall_app. split; [done|]. by apply Forall_singleton.
Qed.

Lemma foldl_step_state_ok (height : Z) (lines : list line) (st : state) :
  Forall (fun ln => P (line_text ln)) lines ->
  state_ok P st -> state_ok P (foldl (step height) st lines).
Proof.
  revert st. induction lines as [|ln lines IH]; intros st HP Hst; [done|].
  apply Forall_cons in HP as [HP HPs].
  cbn. apply IH; [done|]. by apply step_state_ok.
Qed.

Lemma assemble_closed_ok (height : Z) (lines : list line) :
  Forall (fun ln => P (line_text ln)) lines ->
  Forall (closed_ok P) (assemble height lines).
Proof.
  intros HP. unfold assemble, flush.
  destruct (foldl_step_state_ok height lines initial_state HP) as [Hclosed Hopen].
  { split; [constructor|]. intros q [=]. }
  destruct (current_question _) as [q|]; [|done].
  apply Forall_app. split; [done|]. apply Forall_singleton.
  by apply close_question_ok, Hopen.
Qed.

(** The text of a closed question is its first line followed by its
    continuation lines: the filter drops the closing copy of the first line
    and nothing else. *)
Lemma ocr_text_of_closed (q : question) :
  closed_ok P q ->
  exists conts, q_lines q = conts ++ [q_first_line q]
    /\ Forall (cont_ok P) conts
    /\ ocr_text_of q = join [10] (q_first_line q :: conts).
Proof.
  intros [(Hnum & _) (conts & Hl & Hc)]. exists conts. split; [done|]. split; [done|].
  unfold ocr_text_of. rewrite Hl.
  destruct (conts ++ [q_first_line q]) as [|a l] eqn:Happ.
  { by destruct conts. }
  rewrite <- Happ. f_equal. f_equal.
  rewrite filter_app, filter_cons_False, filter_nil, app_nil_r by (intros Hne; by apply Hne).
  clear Happ Hl. induction Hc as [|t conts (Ht & _) _ IH]; [done|].
  rewrite filter_cons_True; [by f_equal|].
  intros ->. congruence.
Qed.

Context `{Imaging}.

Lemma crop_question_fields img q y1 r :
  crop_question img q y1 = Some r ->
  r_index r = q_index q /\ r_ocrText r = ocr_text_of q
  /\ 0 <= r_y0 r < r_y1 r /\ r_y1 r <= height img.
Proof.
  unfold crop_question.
  destruct (Z.geb_spec (Z.max 0 (q_y0 q - 10)) (Z.min (height img) (y1 + 10)));
    cbn zeta beta iota.
  all: destruct (_ <=? _) eqn:Hlt; [done|]; apply Z.leb_gt in Hlt.
  all: destruct (_ || _); [done|].
  all: destruct (image_to_base64 _); [|done].
  all: intros [= <-]; cbn; unfold height in *.
  all: split; [done|]; split; [done|]; lia.
Qed.

Lemma crop_questions_from img qs r :
  r ∈ crop_questions img qs ->
  exists q y1, q ∈ qs /\ crop_question img q y1 = Some r.
Proof.
  induction qs as [|q qs IH]; cbn; [intros Hr; by apply elem_of_nil in Hr|].
  destruct (crop_question img q _) as [r'|] eqn:Hr'.
  - intros Hr. apply elem_of_cons in Hr as [->|Hr].
    + eexists q, _. split; [left|done].
    + destruct (IH Hr) as (q' & y1 & Hq' & Hc). exists q', y1. split; [by right|done].
  - intros Hr. destruct (IH Hr) as (q' & y1 & Hq' & Hc). exists q', y1. split; [by right|done].
Qed.

End SegmentationInvariant.

Section SegmentationResults.
Import Text Re Main Invariant.
Context `{Unicode} `{Imaging}.

(** Every result is cut from a question that was found. *)
Lemma split_result_from (lines : list line) (img_array : image) (r : split_result) :
  r ∈ split_by_question_number lines img_array ->
  exists q y1, q ∈ assemble (height img_array) lines
               /\ crop_question img_array q y1 = Some r.
Proof.
  intros Hr. unfold split_by_question_number in Hr.
  apply crop_questions_from in Hr as (q & y1 & Hq & Hc).
  exists q, y1. split; [|done].
  unfold sort_questions in Hq. by rewrite sort_by_Permutation in Hq.
Qed.

(** At most as many distinct numbers as the range holds. *)
Lemma NoDup_range_length (l : list Z) (lo n : Z) :
  NoDup l -> Forall (fun x => lo <= x < lo + n) l -> (length l <= Z.to_nat n)%nat.
Proof.
  intros Hnd Hall.
  assert (Hsub : l ⊆+ seqZ lo n).
  { apply NoDup_submseteq; [done|]. intros x Hx.
    rewrite Forall_forall in Hall. apply elem_of_seqZ. by apply Hall. }
  apply submseteq_length in Hsub. by rewrite length_seqZ in Hsub.
Qed.

(** X7. Every question found, and every result returned, has an index in
    1..100; so a page yields at most a hundred questions, and no more results
    than questions. *)
Theorem question_indices_in_range (lines : list line) (img_array : image) :
  let found := assemble (height img_array) lines in
  let results := split_by_question_number lines img_array in
  Forall (fun q => 1 <= q_index q <= 100) found
  /\ Forall (fun r => 1 <= r_index r <= 100) results
  /\ (length results <= length found <= 100)%nat.
Proof.
  cbv zeta.
  pose proof (assemble_closed_ok (fun _ => True) (height img_array) lines) as Hok.
  assert (Hfound : Forall (fun q => 1 <= q_index q <= 100)
                     (assemble (height img_array) lines)).
  { eapply Forall_impl; [apply Hok; by apply Forall_forall|].
    intros q [(_ & _ & _ & Hrange) _]. exact Hrange. }
  split; [done|]. split.
  - apply Forall_forall. intros r Hr.
    apply split_result_from in Hr as (q & y1 & Hq & Hc).
    destruct (crop_question_fields _ _ _ _ Hc) as (-> & _).
    rewrite Forall_forall in Hfound. by apply Hfound.
  - split.
    + pose proof (crop_questions_sublist img_array
                    (sort_questions (assemble (height img_array) lines))) as Hsub.
      apply sublist_length in Hsub. rewrite !length_map in Hsub.
      pose proof (Permutation_length
                    (sort_by_Permutation (fun a b => q_index a <=? q_index b)
                       (assemble (height img_array) lines))) as Hlen.
      unfold split_by_question_number, sort_questions in *. lia.
    + rewrite <- (length_map q_index).
      apply (NoDup_range_length _ 1 100); [apply assemble_NoDup|].
      apply Forall_fmap. eapply Forall_impl; [exact Hfound|]. intros q. cbn. lia.
Qed.

(** X8. The window [y0, y1) of every result is not empty and lies within
    the page. *)
Theorem crop_windows_within_page (lines : list line) (img_array : image) :
  Forall (fun r => 0 <= r_y0 r < r_y1 r /\ r_y1 r <= height img_array)
         (split_by_question_number lines img_array).
Proof.
  apply Forall_forall. intros r Hr.
  apply split_result_from in Hr as (q & y1 & _ & Hc).
  by destruct (crop_question_fields _ _ _ _ Hc) as (_ & _ & ? & ?).
Qed.

(** X9. The text of every result is the first line of its question followed
    by its continuation lines, joined by newlines: the first line is a line
    of the input that carries the index of the result, the continuation lines
    are lines of the input that carry no number, and none of them is noise. *)
Theorem ocr_text_is_first_line_then_continuations (lines : list line) (img_array : image) :
  Forall (fun r => exists first conts,
            r_ocrText r = join [10] (first :: conts)
            /\ question_number first = Some (r_index r)
            /\ Forall (fun t => question_number t = None) conts
            /\ Forall (fun t => t ∈ map line_text lines /\ is_noise t = false)
                      (first :: conts))
         (split_by_question_number lines img_array).
Proof.
  apply Forall_forall. intros r Hr.
  apply split_result_from in Hr as (q & y1 & Hq & Hc).
  destruct (crop_question_fields _ _ _ _ Hc) as (Hi & Ht & _).
  set (P := fun t : text => t ∈ map line_text lines).
  assert (Hok : closed_ok P q).
  { assert (Hlines : Forall (fun ln => P (line_text ln)) lines).
    { apply Forall_forall. intros ln Hln. unfold P. apply list_elem_of_fmap. by exists ln. }
    pose proof (assemble_closed_ok P (height img_array) lines Hlines) as Hall.
    rewrite Forall_forall in Hall. by apply Hall. }
  destruct (ocr_text_of_closed P q Hok) as (conts & _ & Hconts & Htext).
  destruct Hok as [(Hnum & Hnoise & HP & _) _].
  exists (q_first_line q), conts.
  split; [by rewrite Ht|]. split; [by rewrite Hi|]. split.
  - eapply Forall_impl; [exact Hconts|]. by intros t (? & _).
  - constructor; [done|].
    eapply Forall_impl; [exact Hconts|]. by intros t (_ & ? & ?).
Qed.

End SegmentationResults.

(** ** The matcher against what a pattern can match *)

Section Regex.
Import Text Re ReSem.

(** Whatever the matcher hands to its continuation is a match. *)
Lemma run_sound (r : regex) :
  forall (R : Set) (s : text) (i : nat) (c : caps) (k : nat -> caps -> option R) (x : R),
    run r s i c k = Some x ->
    exists j c', matches s r i c j c' /\ k j c' = Some x.
Proof.
  induction r as [|f| | |r1 IH1 r2 IH2|r1 IH1 r2 IH2|r1 IH1|r1 IH1|r1 IH1];
    intros R s i c k x Hrun; cbn [run] in Hrun.
  - exists i, c. split; [constructor|done].
  - destruct (s !! i) as [a|] eqn:Ha; [|done].
    destruct (f a) eqn:Hf; [|done].
    exists (S i), c. split; [by econstructor|done].
  - destruct (Nat.eqb_spec i 0) as [->|]; [|done].
    exists 0%nat, c. split; [constructor|done].
  - destruct (_ || _) eqn:Hend; [|done].
    exists i, c. split; [|done]. constructor.
    apply orb_true_iff in Hend as [Hend|Hend].
    + left. by apply Nat.eqb_eq.
    + right. apply andb_true_iff in Hend as [Hlen Hnl].
      apply Nat.eqb_eq in Hlen. by apply bool_decide_eq_true in Hnl.
  - apply IH1 in Hrun as (j & c1 & Hm1 & Hrun).
    apply IH2 in Hrun as (j' & c2 & Hm2 & Hk).
    exists j', c2. split; [by econstructor|done].
  - destruct (run r1 s i c k) as [y|] eqn:Hleft.
    + injection Hrun as ->. apply IH1 in Hleft as (j & c' & Hm & Hk).
      exists j, c'. split; [by apply matches_alt_l|done].
    + apply IH2 in Hrun as (j & c' & Hm & Hk).
      exists j, c'. split; [by apply matches_alt_r|done].
  - assert (Hloop : forall (fuel i0 : nat) (c0 : caps),
      (fix loop (fuel : nat) (i : nat) (c : caps) {struct fuel} : option R :=
         match fuel with
         | O => k i c
         | S fuel' =>
             match run r1 s i c
                     (fun j c' => if (i <? j)%nat then loop fuel' j c' else None) with
             | Some x => Some x
             | None => k i c
             end
         end) fuel i0 c0 = Some x ->
      exists j c', matches s (Star r1) i0 c0 j c' /\ k j c' = Some x).
    { clear Hrun i c. induction fuel as [|fuel IHf]; intros i c Hrun.
      - exists i, c. split; [constructor|done].
      - cbv beta iota fix in Hrun.
        destruct (run r1 s i c _) as [y|] eqn:Hround in Hrun.
        + injection Hrun as ->. apply IH1 in Hround as (j & c1 & Hm & Hrest).
          cbv beta in Hrest.
          destruct (Nat.ltb_spec i j); [|done].
          apply IHf in Hrest as (j' & c2 & Hm' & Hk).
          exists j', c2. split; [by econstructor|done].
        + exists i, c. split; [constructor|done]. }
    exact (Hloop (S (length s - i)) i c Hrun).
  - apply IH1 in Hrun as (j & c1 & Hm & Hk).
    exists j, (Some (i, j)). split; [by econstructor|done].
  - destruct (run r1 s i c _) as [c1|] eqn:Hlook; [|done].
    apply IH1 in Hlook as (j & c1' & Hm & [= ->]).
    exists i, c1. split; [by econstructor|done].
Qed.

(** A pattern without a group leaves the span of group 1 as it was. *)
Lemma no_group_caps (s : text) (r : regex) (i j : nat) (c c' : caps) :
  matches s r i c j c' -> no_group r = true -> c' = c.
Proof.
  induction 1; cbn [no_group]; intros Hng; try done.
  - apply andb_true_iff in Hng as [? ?]. by rewrite IHmatches2, IHmatches1.
  - apply andb_true_iff in Hng as [? ?]. auto.
  - apply andb_true_iff in Hng as [? ?]. auto.
  - by rewrite IHmatches2, IHmatches1.
  - auto.
Qed.

(** A one-character group, after a prefix and before a suffix that have no
    group, captures exactly that character. *)
Lemma single_char_group (s : text) (pre post : regex) (f : Z -> bool)
    (i j : nat) (c' : caps) :
  no_group pre = true -> no_group post = true ->
  matches s (Seq pre (Seq (Group (Set_ f)) post)) i None j c' ->
  exists a x, c' = Some (a, S a) /\ s !! a = Some x /\ f x = true.
Proof.
  intros Hpre Hpost Hm.
  inversion Hm as [| | | |? ? ? ? a c1 ? ? Hm1 Hm2| | | | | |]; subst.
  inversion Hm2 as [| | | |? ? ? ? b c2 ? ? Hg Hm3| | | | | |]; subst.
  inversion Hg as [| | | | | | | | |? ? ? ? c3 Hset|]; subst.
  inversion Hset; subst.
  apply no_group_caps in Hm3; [|done]. subst.
  by eexists _, _.
Qed.

Lemma search_from_match (fuel : nat) (r : regex) (s : text) (i : nat) (m : rmatch) :
  search_from fuel r s i = Some m -> exists i', match_at r s i' = Some m.
Proof.
  revert i. induction fuel as [|fuel IH]; intros i; cbn [search_from].
  - destruct (match_at r s i) eqn:Hm; [|done]. intros [= <-]. by exists i.
  - destruct (match_at r s i) eqn:Hm; [intros [= <-]; by exists i|]. apply IH.
Qed.

Lemma finditer_from_match (fuel : nat) (r : regex) (s : text) (pos : nat) (m : rmatch) :
  m ∈ finditer_from fuel r s pos -> exists i, match_at r s i = Some m.
Proof.
  revert pos. induction fuel as [|fuel IH]; intros pos; cbn [finditer_from].
  - intros Hm. by apply elem_of_nil in Hm.
  - destruct (_ <? _)%nat; [intros Hm; by apply elem_of_nil in Hm|].
    destruct (search_from _ r s pos) as [m'|] eqn:Hs;
      [|intros Hm; by apply elem_of_nil in Hm].
    intros Hm. apply elem_of_cons in Hm as [->|Hm]; [by eapply search_from_match|].
    by eapply IH.
Qed.

Lemma match_at_matches (r : regex) (s : text) (i : nat) (m : rmatch) :
  match_at r s i = Some m ->
  m_start m = i /\ matches s r i None (m_end m) (m_caps m).
Proof.
  unfold match_at. intros Hrun.
  apply run_sound in Hrun as (j & c' & Hm & [= <-]). by split.
Qed.

Lemma substring_single (s : text) (a : nat) (x : Z) :
  s !! a = Some x -> substring s a (S a) = [x].
Proof.
  intros Ha. unfold substring. replace (S a - a)%nat with 1%nat by lia.
  by rewrite (drop_S _ _ _ Ha).
Qed.

(** The span of group 1 after a match is the one before it, or a span that
    one of the groups of the pattern matched. *)
Lemma caps_origin (s : text) (r : regex) (i j : nat) (c c' : caps) :
  matches s r i c j c' ->
  c' = c \/ exists g a b c0 c1,
              g ∈ groups r /\ c' = Some (a, b) /\ matches s g a c0 b c1.
Proof.
  induction 1 as [| | | |r1 r2 i c j c1 j' c2 _ IH1 _ IH2
                  |r1 r2 i c j c' _ IH|r1 r2 i c j c' _ IH|
                  |r i c j c1 j' c2 _ IH1 Hlt _ IH2
                  |r i c j c1 Hm IH|r i c j c1 _ IH]; cbn [groups]; try (by left).
  - destruct IH2 as [->|(g & a & b & c0 & c3 & Hg & Hc & Hm)].
    + destruct IH1 as [->|(g & a & b & c0 & c3 & Hg & Hc & Hm)]; [by left|].
      right. exists g, a, b, c0, c3. split; [apply elem_of_app; by left|done].
    + right. exists g, a, b, c0, c3. split; [apply elem_of_app; by right|done].
  - destruct IH as [->|(g & a & b & c0 & c3 & Hg & Hc & Hm)]; [by left|].
    right. exists g, a, b, c0, c3. split; [apply elem_of_app; by left|done].
  - destruct IH as [->|(g & a & b & c0 & c3 & Hg & Hc & Hm)]; [by left|].
    right. exists g, a, b, c0, c3. split; [apply elem_of_app; by right|done].
  - destruct IH2 as [->|(g & a & b & c0 & c3 & Hg & Hc & Hm)].
    + destruct IH1 as [->|(g & a & b & c0 & c3 & Hg & Hc & Hm)]; [by left|].
      right. by exists g, a, b, c0, c3.
    + right. by exists g, a, b, c0, c3.
  - right. exists r, i, j, c, c1. split; [left|done].
  - exact IH.
Qed.

End Regex.

(** ** Content parsing: what the options look like *)

Section ContentOptions.
Import Text Re ReSem Main.

Lemma strip_idemp (t : text) : strip (strip t) = strip t.
Proof.
  destruct (strip_cases t) as [->|[Hl Hr]]; [done|]. by apply strip_fixed.
Qed.

Lemma group_first (s : text) (post : regex) (f : Z -> bool)
    (i j : nat) (c c' : caps) :
  no_group post = true ->
  matches s (Seq (Group (Set_ f)) post) i c j c' ->
  exists x, c' = Some (i, S i) /\ s !! i = Some x /\ f x = true.
Proof.
  intros Hpost Hm.
  inversion Hm as [| | | |? ? ? ? b c2 ? ? Hg Hm3| | | | | |]; subst.
  inversion Hg as [| | | | | | | | |? ? ? ? c3 Hset|]; subst.
  inversion Hset; subst.
  apply no_group_caps in Hm3; [|done]. subst. by eexists.
Qed.

(** Both option patterns capture one letter of [A-Da-d]. *)
Lemma option_pattern_capture (pattern : regex) (clean : text) (m : rmatch) :
  pattern ∈ option_patterns -> m ∈ finditer pattern clean ->
  exists a x, m_caps m = Some (a, S a) /\ clean !! a = Some x
              /\ (65 <= x <= 68 \/ 97 <= x <= 100).
Proof.
  intros Hp Hm. apply finditer_from_match in Hm as [i Hm].
  apply match_at_matches in Hm as [_ Hm].
  assert (Hletter : forall x,
            (((65 <=? x) && (x <=? 68)) || ((97 <=? x) && (x <=? 100))) = true ->
            65 <= x <= 68 \/ 97 <= x <= 100) by (intros x; lia).
  unfold option_patterns in Hp.
  apply elem_of_cons in Hp as [->|Hp]; [|apply list_elem_of_singleton in Hp as ->].
  - unfold option_pattern_marked, option_letter in Hm. cbn [seqs] in Hm.
    apply group_first in Hm as (x & Hc & Hx & Hf); [|done].
    exists i, x. split; [done|]. split; [done|]. by apply Hletter.
  - unfold option_pattern_bare, option_letter in Hm. cbn [seqs] in Hm.
    apply single_char_group in Hm as (a & x & Hc & Hx & Hf); [|done|done].
    exists a, x. split; [done|]. split; [done|]. by apply Hletter.
Qed.

Lemma select_matches_from (patterns : list regex) (clean : text) (m : rmatch) :
  m ∈ select_matches patterns clean ->
  exists pattern, pattern ∈ patterns /\ m ∈ finditer pattern clean.
Proof.
  induction patterns as [|p ps IH]; cbn [select_matches].
  - intros Hm. by apply elem_of_nil in Hm.
  - destruct (2 <=? _)%nat.
    + intros Hm. exists p. split; [left|done].
    + intros Hm. destruct (IH Hm) as (q & Hq & Hmq). exists q. split; [by right|done].
Qed.

Lemma match_label_letter (clean : text) (m : rmatch) :
  m ∈ select_matches option_patterns clean ->
  match_label clean m ∈ [u "A"; u "B"; u "C"; u "D"].
Proof.
  intros Hm. apply select_matches_from in Hm as (p & Hp & Hm).
  destruct (option_pattern_capture p clean m Hp Hm) as (a & x & Hc & Hx & Hrange).
  unfold match_label, group1. rewrite Hc, (substring_single _ _ _ Hx). cbn [default map].
  change [u "A"; u "B"; u "C"; u "D"] with [[65]; [66]; [67]; [68]].
  unfold upper.
  assert (Hcases : x = 65 \/ x = 66 \/ x = 67 \/ x = 68
                   \/ x = 97 \/ x = 98 \/ x = 99 \/ x = 100) by lia.
  apply list_elem_of_In.
  destruct Hcases as [->|[->|[->|[->|[->|[->|[->| ->]]]]]]]; cbn; tauto.
Qed.

(** X10. For every input text: the stem [parse_question_content] returns
    has no blank at either end; every option has a label among "A", "B",
    "C", "D" and a content that is not empty and has no blank at either end;
    no label occurs twice, so there are at most four options. *)
Theorem parsed_options_are_labelled_A_to_D (ocr_text : text) :
  let r := parse_question_content ocr_text in
  strip (stem r) = stem r
  /\ Forall (fun o => label o ∈ [u "A"; u "B"; u "C"; u "D"]
                      /\ content o <> [] /\ strip (content o) = content o)
            (options r)
  /\ NoDup (map label (options r))
  /\ (length (options r) <= 4)%nat.
Proof.
  cbv zeta. rewrite parse_question_content_unfold.
  set (clean := clean_text ocr_text).
  destruct (select_matches option_patterns clean) as [|first rest] eqn:Hsel.
  { cbn. split; [apply strip_clean_text|]. split; [constructor|].
    split; [constructor|lia]. }
  cbn [stem options]. rewrite <- Hsel.
  set (le := fun a b : option_item => text_le (label a) (label b)).
  set (ms := select_matches option_patterns clean).
  destruct (collect_options_spec clean ms ∅) as [Hnd Hkept].
  assert (Hperm : sort_by le (collect_options clean ∅ ms) ≡ₚ collect_options clean ∅ ms)
    by apply sort_by_Permutation.
  assert (Hall : Forall (fun o => label o ∈ [u "A"; u "B"; u "C"; u "D"]
                          /\ content o <> [] /\ strip (content o) = content o)
                   (collect_options clean ∅ ms)).
  { apply Forall_forall. intros o Ho.
    destruct (Hkept o Ho) as [_ (i & m & Hi & Hl & _ & Hc & Hne)].
    split; [|split; [done|]].
    - rewrite Hl. apply match_label_letter. by eapply list_elem_of_lookup_2.
    - rewrite Hc. apply strip_idemp. }
  assert (Hnd' : NoDup (map label (sort_by le (collect_options clean ∅ ms))))
    by (by rewrite Hperm).
  split; [apply strip_idemp|]. split; [by rewrite Hperm|]. split; [done|].
  rewrite <- (length_map label).
  change 4%nat with (length [u "A"; u "B"; u "C"; u "D"]).
  apply submseteq_length, NoDup_submseteq; [done|].
  intros l Hl. apply list_elem_of_fmap in Hl as (o & -> & Ho).
  rewrite Hperm in Ho. rewrite Forall_forall in Hall. by apply Hall.
Qed.

End ContentOptions.

(** ** The numbers the templates can extract *)

Section Numbers.
Import Text Re ReSem Main.

Context `{Unicode}.
Hypothesis decimal_digit : forall c d, decimal c = Some d -> 0 <= d <= 9.

(** One or two decimal digits read as a number below 100. *)
Lemma digits12_value (s : text) (a b : nat) (c0 c1 : caps) (n : Z) :
  matches s digits12 a c0 b c1 ->
  int_of (substring s a b) = Some n -> 0 <= n <= 99.
Proof.
  unfold digits12, opt, digit. intros Hm.
  inversion Hm as [| | | |? ? ? ? j c2 ? ? Hd1 Hrest| | | | | |]; subst.
  inversion Hd1 as [|? ? ? x Hx Hfx| | | | | | | | |]; subst.
  assert (Hone : substring s a (S a) = [x]) by by apply substring_single.
  destruct (decimal x) as [d|] eqn:Hdx; [|done].
  pose proof (decimal_digit _ _ Hdx).
  inversion Hrest as [| | | | |? ? ? ? ? ? Hd2|? ? ? ? ? ? Heps| | | |]; subst.
  - inversion Hd2 as [|? ? ? y Hy Hfy| | | | | | | | |]; subst.
    destruct (decimal y) as [e|] eqn:Hdy; [|done].
    pose proof (decimal_digit _ _ Hdy).
    assert (Htwo : substring s a (S (S a)) = [x; y]).
    { unfold substring. replace (S (S a) - a)%nat with 2%nat by lia.
      rewrite (drop_S _ _ _ Hx), (drop_S _ _ _ Hy). done. }
    rewrite Htwo. cbn. rewrite Hdx, Hdy. intros [= <-]. lia.
  - inversion Heps; subst. rewrite Hone. cbn. rewrite Hdx. intros [= <-]. lia.
Qed.

Lemma dict_get_elem {V} (d : list (text * V)) (key : text) (v : V) :
  dict_get d key = Some v -> (key, v) ∈ d.
Proof.
  induction d as [|[k w] d IH]; cbn; [done|].
  destruct (decide (k = key)) as [->|]; [intros [= ->]; left|].
  intros Hd. right. by apply IH.
Qed.

Lemma chinese_num_range (key : text) (n : Z) :
  dict_get chinese_num_map key = Some n -> 1 <= n <= 20.
Proof.
  intros Hd. apply dict_get_elem in Hd.
  assert (Hall : Forall (fun kv : text * Z => 1 <= kv.2 <= 20) chinese_num_map).
  { unfold chinese_num_map. repeat (constructor; [cbn; lia|]). constructor. }
  rewrite Forall_forall in Hall. exact (Hall _ Hd).
Qed.

Lemma extract_question_number_range (t : text) (pattern : regex) (pt : ptype) (n : Z) :
  pt = chinese \/ groups pattern = [digits12] ->
  extract_question_number t pattern pt = Some n -> 0 <= n <= 99.
Proof.
  intros Hkind. unfold extract_question_number.
  destruct (re_match pattern t) as [m|] eqn:Hm; [|done].
  assert (Hch : forall key, dict_get chinese_num_map key = Some n -> 0 <= n <= 99).
  { intros key Hd. apply chinese_num_range in Hd. lia. }
  destruct Hkind as [->|Hg]; [apply Hch|].
  assert (Hnum : int_of (default [] (group1 t m)) = Some n -> 0 <= n <= 99).
  { apply match_at_matches in Hm as [_ Hm].
    unfold group1.
    destruct (caps_origin _ _ _ _ _ _ Hm) as [->|(g & a & b & c0 & c1 & Hin & -> & Hmg)];
      [done|].
    rewrite Hg in Hin. apply list_elem_of_singleton in Hin as ->.
    cbn [default]. by eapply digits12_value. }
  destruct pt; [exact Hnum | apply Hch | exact Hnum].
Qed.

(** X11. With decimal digits of values 0..9, the number extracted from a
    line lies in 0..99: the templates read at most two digits, and the table
    of Chinese numerals ends at twenty. Of the range test of the classifier
    only the lower bound can fail. *)
Theorem question_number_below_100 (t : text) (n : Z) :
  question_number t = Some n -> 0 <= n <= 99.
Proof.
  unfold question_number.
  assert (Hall : Forall (fun entry : regex * ptype =>
                           entry.2 = chinese \/ groups entry.1 = [digits12])
                   question_patterns).
  { unfold question_patterns.
    repeat (constructor; [cbn [fst snd]; first [by left | right; reflexivity]|]).
    constructor. }
  induction Hall as [|[pattern pt] rest Hkind _ IH]; cbn [first_number]; [done|].
  destruct (extract_question_number t pattern pt) as [k|] eqn:Hk; [|exact IH].
  intros [= ->]. by eapply extract_question_number_range.
Qed.

End Numbers.

Section NumbersExamples.
Import Text Re Main.

Lemma question_number_below_100_witness :
  (forall c d, decimal (Unicode := Sample.ascii_unicode) c = Some d -> 0 <= d <= 9)
  /\ question_number (H := Sample.ascii_unicode) (u "12. second") = Some 12
  /\ 0 <= 12 <= 99.
Proof.
  assert (Hdigit : forall c d,
            decimal (Unicode := Sample.ascii_unicode) c = Some d -> 0 <= d <= 9).
  { intros c d. cbn. unfold ascii_decimal.
    destruct (Z.leb_spec 48 c); [|done]. destruct (Z.leb_spec c 57); [|done].
    cbn. intros [= <-]. lia. }
  assert (Hnum : question_number (H := Sample.ascii_unicode) (u "12. second") = Some 12)
    by (vm_compute; reflexivity).
  split; [exact Hdigit|]. split; [exact Hnum|].
  exact (question_number_below_100 (H := Sample.ascii_unicode) Hdigit _ _ Hnum).
Defined.

End NumbersExamples.

(** ** Subject detection *)

Section SubjectUnknown.
Import Text Subject.
Context `{Builtins}.

Lemma foldl_count_keyword (s : subject) (text_lower : text) (kws : list text)
    (n : Z) (ms : list text) :
  let r := foldl (count_keyword s text_lower) (n, ms) kws in
  r.2 = ms ++ hits text_lower kws
  /\ n + Z.of_nat (length (hits text_lower kws)) <= r.1
     <= n + 3 * Z.of_nat (length (hits text_lower kws)).
Proof.
  revert n ms. induction kws as [|kw kws IH]; intros n ms; cbn zeta.
  - cbn. rewrite app_nil_r. split; [done|lia].
  - cbn [foldl hits List.filter]. unfold count_keyword at 2 4 6.
    destruct (contains text_lower (lower kw)).
    + destruct (IH (if is_formula_subject s && (length kw <=? 3)%nat
                    then n + 1 + 2 else n + 1) (ms ++ [kw])) as [Hm Hs].
      fold (hits text_lower kws). cbn [length]. rewrite Hm, <- app_assoc.
      split; [done|]. destruct (_ && _); lia.
    + apply IH.
Qed.

Lemma tally_spec (s : subject) (text_lower : text) (kws : list text) :
  (tally s text_lower kws).2 = hits text_lower kws
  /\ Z.of_nat (length (hits text_lower kws)) <= (tally s text_lower kws).1
     <= 3 * Z.of_nat (length (hits text_lower kws)).
Proof. apply (foldl_count_keyword s text_lower kws 0 []). Qed.

Lemma tally_positive (s : subject) (text_lower : text) (kws : list text) :
  0 < (tally s text_lower kws).1
  <-> exists kw, kw ∈ kws /\ contains text_lower (lower kw) = true.
Proof.
  destruct (tally_spec s text_lower kws) as [_ Hs]. split.
  - intros Hpos. destruct (hits text_lower kws) as [|kw l] eqn:Hh; [cbn in Hs; lia|].
    exists kw. assert (Hin : In kw (hits text_lower kws)) by (rewrite Hh; left; done).
    apply filter_In in Hin as [Hin Hc]. split; [by apply list_elem_of_In|done].
  - intros (kw & Hin & Hc).
    assert (Hh : In kw (hits text_lower kws))
      by (apply filter_In; split; [by apply list_elem_of_In|done]).
    destruct (hits text_lower kws); [done|]. cbn [length] in Hs. lia.
Qed.

Lemma score_subject_cases (text_lower : text) (s : subject) (f : features) :
  let t := tally s text_lower (keywords f) in
  (t.1 <= 0 /\ score_subject text_lower (s, f) = None)
  \/ (0 < t.1
      /\ score_subject text_lower (s, f)
         = Some (s, mkScore t.1 (take 5 t.2) (f_engine f) (f_name f))).
Proof.
  cbn zeta. unfold score_subject.
  destruct (tally s text_lower (keywords f)) as [n ms]. cbn [fst snd].
  destruct (Z.gtb_spec n 0); [right|left]; split; (done || lia).
Qed.

(** [max] keeps the first of the elements of greatest key. *)
Lemma foldl_best_split {A} (key : A -> Z) (xs pre mid : list A) (best : A) :
  (forall y, y ∈ pre -> key y < key best) ->
  (forall y, y ∈ mid -> key y <= key best) ->
  exists pre' post,
    pre ++ best :: mid ++ xs
    = pre' ++ foldl (fun best y => if key y >? key best then y else best) best xs :: post
    /\ (forall y, y ∈ pre' ->
          key y < key (foldl (fun best y => if key y >? key best then y else best) best xs))
    /\ (forall y, y ∈ post ->
          key y <= key (foldl (fun best y => if key y >? key best then y else best) best xs)).
Proof.
  revert pre mid best. induction xs as [|x xs IH]; intros pre mid best Hpre Hmid.
  - exists pre, mid. by rewrite app_nil_r.
  - cbn [foldl]. destruct (Z.gtb_spec (key x) (key best)) as [Hgt|Hle].
    + destruct (IH (pre ++ best :: mid) [] x) as (pre' & post & Heq & Hlt & Hge).
      * intros y Hy. apply elem_of_app in Hy as [Hy|Hy]; [specialize (Hpre y Hy); lia|].
        apply elem_of_cons in Hy as [->|Hy]; [lia|]. specialize (Hmid y Hy). lia.
      * intros y Hy. by apply elem_of_nil in Hy.
      * exists pre', post. split; [|done]. rewrite <- Heq. cbn. by rewrite <- app_assoc.
    + destruct (IH pre (mid ++ [x]) best) as (pre' & post & Heq & Hlt & Hge).
      * done.
      * intros y Hy. apply elem_of_app in Hy as [Hy|Hy]; [by apply Hmid|].
        apply list_elem_of_singleton in Hy as ->. lia.
      * exists pre', post. split; [|done]. rewrite <- Heq. by rewrite <- app_assoc.
Qed.

Lemma max_by_split {A} (key : A -> Z) (xs : list A) (b : A) :
  max_by key xs = Some b ->
  exists pre post, xs = pre ++ b :: post
    /\ (forall y, y ∈ pre -> key y < key b)
    /\ (forall y, y ∈ post -> key y <= key b).
Proof.
  destruct xs as [|x xs]; [done|]. cbn [max_by]. intros [= <-].
  destruct (foldl_best_split key xs [] [] x) as (pre & post & Heq & Hlt & Hge).
  - intros y Hy. by apply elem_of_nil in Hy.
  - intros y Hy. by apply elem_of_nil in Hy.
  - exists pre, post. by split.
Qed.

Lemma omap_cons_eq {A B} (g : A -> option B) (a : A) (l : list A) :
  omap g (a :: l) = match g a with Some y => y :: omap g l | None => omap g l end.
Proof. reflexivity. Qed.

Lemma omap_split {A B} (g : A -> option B) (l : list A) (pre' post' : list B) (b : B) :
  omap g l = pre' ++ b :: post' ->
  exists pre e post, l = pre ++ e :: post /\ g e = Some b
                     /\ omap g pre = pre' /\ omap g post = post'.
Proof.
  revert pre'. induction l as [|a l IH]; intros pre'.
  - by destruct pre'.
  - rewrite omap_cons_eq. destruct (g a) as [b'|] eqn:Hga.
    + destruct pre' as [|p pre'].
      * cbn. intros [= -> Hpost]. exists [], a, l. by cbn.
      * cbn. intros [= -> Hrest].
        destruct (IH pre' Hrest) as (pre & e & post & -> & He & Hpre & Hpost).
        exists (a :: pre), e, post. rewrite omap_cons_eq, Hga, Hpre. done.
    + intros Hrest.
      destruct (IH pre' Hrest) as (pre & e & post & -> & He & Hpre & Hpost).
      exists (a :: pre), e, post. rewrite omap_cons_eq, Hga. done.
Qed.

Lemma all_scores_nil (text_lower : text) :
  all_scores text_lower = []
  <-> forall s f kw, (s, f) ∈ SUBJECT_FEATURES -> kw ∈ keywords f ->
        contains text_lower (lower kw) = false.
Proof.
  unfold all_scores. split.
  - intros Hnil s f kw Hsf Hkw.
    destruct (contains text_lower (lower kw)) eqn:Hc; [|done]. exfalso.
    assert (Hpos : 0 < (tally s text_lower (keywords f)).1)
      by (apply tally_positive; eauto).
    destruct (score_subject_cases text_lower s f) as [[Hle _]|[_ Hsome]]; [lia|].
    assert (Hin : (s, mkScore (tally s text_lower (keywords f)).1
                     (take 5 (tally s text_lower (keywords f)).2) (f_engine f) (f_name f))
                  ∈ omap (score_subject text_lower) SUBJECT_FEATURES)
      by (apply list_elem_of_omap; eauto).
    rewrite Hnil in Hin. by apply elem_of_nil in Hin.
  - intros Hnone. apply omap_all_None. intros [s f] Hsf.
    destruct (score_subject_cases text_lower s f) as [[_ Hn]|[Hpos _]]; [done|].
    apply tally_positive in Hpos as (kw & Hkw & Hc).
    rewrite (Hnone s f kw Hsf Hkw) in Hc. done.
Qed.

(** X12. [detect_subject] answers "unknown" exactly when the text is empty
    or none of the keywords of the table, in lower case, occurs in the text
    in lower case; the answer is then the fixed one, with confidence 0 and
    the engine PaddleOCR. *)
Theorem detect_subject_unknown (text : text) :
  (d_subject (detect_subject text) = None
   <-> text = []
       \/ forall s f kw, (s, f) ∈ SUBJECT_FEATURES -> kw ∈ keywords f ->
            contains (lower text) (lower kw) = false)
  /\ (d_subject (detect_subject text) = None -> detect_subject text = unknown).
Proof.
  destruct text as [|c t]; [split; [split; [by left|done]|done]|].
  unfold detect_subject.
  destruct (max_by points (all_scores (lower (c :: t)))) as [[s info]|] eqn:Hmax.
  - split; [|done]. split; [done|]. intros [Hnil|Hnone]; [done|].
    apply all_scores_nil in Hnone. rewrite Hnone in Hmax. done.
  - split; [|done]. split; [|done]. intros _. right. apply all_scores_nil.
    by destruct (all_scores _).
Qed.

End SubjectUnknown.

Section SubjectBest.
Import Text Subject.
Context `{Builtins}.

(** In the table the formula subjects, and only they, name Pix2Text. *)
Lemma engine_by_subject (s : subject) (f : features) :
  (s, f) ∈ SUBJECT_FEATURES ->
  f_engine f = if is_formula_subject s then Pix2text else Paddleocr.
Proof.
  assert (Hall : Forall (fun e : subject * features =>
                           f_engine e.2 = if is_formula_subject e.1 then Pix2text else Paddleocr)
                   SUBJECT_FEATURES).
  { unfold SUBJECT_FEATURES. repeat (constructor; [reflexivity|]). constructor. }
  rewrite Forall_forall in Hall. intros Hin. exact (Hall _ Hin).
Qed.

Lemma all_scores_positive (text_lower : text) (e : subject * score_entry) :
  e ∈ all_scores text_lower -> 0 < points e.
Proof.
  intros He. apply list_elem_of_omap in He as ([s f] & _ & Hs).
  destruct (score_subject_cases text_lower s f) as [[_ Hn]|[Hpos Hsome]];
    rewrite Hs in *; [done|]. by injection Hsome as ->.
Qed.

Lemma sum_points_ge (l : list (subject * score_entry)) (e : subject * score_entry) :
  (forall x, x ∈ l -> 0 < points x) -> e ∈ l ->
  points e <= foldr Z.add 0 (map points l).
Proof.
  induction l as [|a l IH]; intros Hpos He; [by apply elem_of_nil in He|].
  cbn. assert (0 <= foldr Z.add 0 (map points l)).
  { clear -Hpos. induction l as [|b l IH]; cbn; [lia|].
    assert (0 < points b) by (apply Hpos; right; left).
    assert (0 <= foldr Z.add 0 (map points l)); [|lia].
    apply IH. intros x Hx. apply Hpos. apply elem_of_cons in Hx as [->|Hx].
    - left.
    - right. by right. }
  apply elem_of_cons in He as [->|He]; [lia|].
  assert (0 < points a) by (apply Hpos; left).
  assert (points e <= foldr Z.add 0 (map points l)); [|lia].
  apply IH; [|done]. intros x Hx. apply Hpos. by right.
Qed.

(** X13. When [detect_subject] names a subject, it is the first entry of the
    table whose tally is greatest: the entries before it have a smaller
    tally, the entries after it none greater, and its tally is positive and
    at most the sum of the positive tallies. The engine named is Pix2Text for
    math, physics and chemistry and PaddleOCR otherwise; the matched keywords
    are the first five keywords of the subject that occur in the text; and
    the confidence is the tally over that sum, rounded. *)
Theorem detect_subject_first_best (text : text) (s : subject) :
  d_subject (detect_subject text) = Some s ->
  exists before f after,
    SUBJECT_FEATURES = before ++ (s, f) :: after
    /\ let tally_of (e : subject * features) := (tally e.1 (lower text) (keywords e.2)).1 in
       let total := foldr Z.add 0 (map points (all_scores (lower text))) in
       0 < tally_of (s, f) <= total
       /\ (forall e, e ∈ before -> tally_of e < tally_of (s, f))
       /\ (forall e, e ∈ after -> tally_of e <= tally_of (s, f))
       /\ d_engine (detect_subject text)
          = (if is_formula_subject s then Pix2text else Paddleocr)
       /\ d_matched_keywords (detect_subject text)
          = Some (take 5 (List.filter (fun kw => contains (lower text) (lower kw))
                                      (keywords f)))
       /\ d_confidence (detect_subject text)
          = round2 (inject_Z (tally_of (s, f)) / inject_Z total)%Q.
Proof.
  destruct text as [|c t]; [done|]. unfold detect_subject.
  set (tl := lower (c :: t)).
  destruct (max_by points (all_scores tl)) as [[s0 info]|] eqn:Hmax; [|done].
  cbn [d_subject d_engine d_matched_keywords d_confidence]. intros [= Hs0]. subst s0.
  apply max_by_split in Hmax as (pre' & post' & Hscores & Hlt & Hge).
  pose proof Hscores as Hsplit. unfold all_scores in Hsplit.
  apply omap_split in Hsplit as (before & [s1 f] & after & Htable & Hbest & Hpre & Hpost).
  destruct (score_subject_cases tl s1 f) as [[_ Hn]|[Hpos Hsome]];
    rewrite Hbest in *; [done|].
  injection Hsome as Hs1 Hinfo. subst s1 info.
  set (best := (tally s tl (keywords f)).1) in *.
  assert (Hin : (s, mkScore best (take 5 (tally s tl (keywords f)).2)
                      (f_engine f) (f_name f)) ∈ all_scores tl).
  { rewrite Hscores. apply elem_of_app. right. left. }
  pose proof (sum_points_ge _ _ (all_scores_positive tl) Hin) as Htotal.
  cbn [points snd score] in Htotal.
  assert (Hside : forall (side : list (subject * features))
                         (side' : list (subject * score_entry)) (bound : Z),
             omap (score_subject tl) side = side' -> 0 < bound ->
             (forall y, y ∈ side' -> points y < bound) ->
             forall e, e ∈ side -> (tally e.1 tl (keywords e.2)).1 < bound).
  { intros side side' bound Hside Hb Hall [s' f'] He. cbn [fst snd].
    destruct (score_subject_cases tl s' f') as [[Hle _]|[_ Hsome]]; [lia|].
    assert (Hy : (s', mkScore (tally s' tl (keywords f')).1
                        (take 5 (tally s' tl (keywords f')).2) (f_engine f') (f_name f'))
                 ∈ side') by (rewrite <- Hside; apply list_elem_of_omap; eauto).
    exact (Hall _ Hy). }
  exists before, f, after. split; [done|]. cbv zeta. cbn [fst snd]. fold tl best.
  split; [lia|]. split.
  { apply (Hside before pre' best Hpre Hpos). intros y Hy. exact (Hlt y Hy). }
  split.
  { intros e He.
    assert (Hlt1 : (tally e.1 tl (keywords e.2)).1 < best + 1); [|lia].
    apply (Hside after post' (best + 1) Hpost ltac:(lia)); [|done].
    intros y Hy. specialize (Hge y Hy). cbn [points snd score] in Hge. lia. }
  split.
  { apply engine_by_subject. rewrite Htable. apply elem_of_app. right. left. }
  split.
  { cbn [matched]. destruct (tally_spec s tl (keywords f)) as [-> _]. done. }
  cbn [score]. destruct (Z.gtb_spec (foldr Z.add 0 (map points (all_scores tl))) 0); [done|lia].
Qed.

End SubjectBest.

Section SubjectExamples.
Import Text Subject.

Lemma detect_subject_first_best_witness :
  d_subject (detect_subject (H := Standin.ascii_builtins) (u "sin x")) = Some Math
  /\ d_engine (detect_subject (H := Standin.ascii_builtins) (u "sin x")) = Pix2text.
Proof.
  assert (Hmath : d_subject (detect_subject (H := Standin.ascii_builtins) (u "sin x"))
                  = Some Math) by (vm_compute; reflexivity).
  split; [exact Hmath|].
  destruct (detect_subject_first_best (H := Standin.ascii_builtins) (u "sin x") Math Hmath)
    as (before & f & after & _ & _ & _ & _ & Hengine & _).
  exact Hengine.
Defined.

(** "sin" counts three for math, and the letter "n", the lower case of the
    unit "N", three for physics: math stands first in the table. A text
    without a keyword is of unknown subject. *)
Example detect_subject_examples :
  let run t :=
    let d := detect_subject (H := Standin.ascii_builtins) t in
    (d_subject d, d_engine d, d_confidence d) in
  map (fun e => (e.1, points e))
      (all_scores (H := Standin.ascii_builtins) (u "sin x")) = [(Math, 3); (Physics, 3)]
  /\ run (u "sin x") = (Some Math, Pix2text, (1 # 2)%Q)
  /\ run (u "12345") = (None, Paddleocr, 0%Q).
Proof. vm_compute. repeat split. Qed.

End SubjectExamples.

(** ** Recognition: lines, engines and fallbacks *)

Section OcrBoxes.
Import Text EraseServer Subject Ocr.

(** Truncation keeps the order. *)
Lemma py_int_mono (a b : Q) : (a <= b)%Q -> py_int a <= py_int b.
Proof.
  unfold Qle, py_int. intros Hab.
  rewrite <- (Z.quot_mul_cancel_l (Qnum a) (Zpos (Qden a)) (Zpos (Qden b))) by lia.
  rewrite <- (Z.quot_mul_cancel_l (Qnum b) (Zpos (Qden b)) (Zpos (Qden a))) by lia.
  rewrite (Z.mul_comm (Zpos (Qden a)) (Zpos (Qden b))).
  apply Z.quot_le_mono; lia.
Qed.

Lemma foldl_min_le (xs : list Q) (m : Q) :
  let r := foldl (fun m y => if Qltb y m then y else m) m xs in
  (r <= m)%Q /\ forall y, y ∈ xs -> (r <= y)%Q.
Proof.
  revert m. induction xs as [|x xs IH]; intros m; cbn zeta; cbn [foldl].
  - split; [lra|]. intros y Hy. by apply elem_of_nil in Hy.
  - destruct (Qltb x m) eqn:Hx.
    + apply Qltb_lt in Hx. destruct (IH x) as [Hr Hall]. split; [lra|].
      intros y Hy. apply elem_of_cons in Hy as [->|Hy]; [done|by apply Hall].
    + apply Qltb_ge in Hx. destruct (IH m) as [Hr Hall]. split; [done|].
      intros y Hy. apply elem_of_cons in Hy as [->|Hy]; [lra|by apply Hall].
Qed.

Lemma foldl_max_ge (xs : list Q) (m : Q) :
  let r := foldl (fun m y => if Qltb m y then y else m) m xs in
  (m <= r)%Q /\ forall y, y ∈ xs -> (y <= r)%Q.
Proof.
  revert m. induction xs as [|x xs IH]; intros m; cbn zeta; cbn [foldl].
  - split; [lra|]. intros y Hy. by apply elem_of_nil in Hy.
  - destruct (Qltb m x) eqn:Hx.
    + apply Qltb_lt in Hx. destruct (IH x) as [Hr Hall]. split; [lra|].
      intros y Hy. apply elem_of_cons in Hy as [->|Hy]; [done|by apply Hall].
    + apply Qltb_ge in Hx. destruct (IH m) as [Hr Hall]. split; [done|].
      intros y Hy. apply elem_of_cons in Hy as [->|Hy]; [lra|by apply Hall].
Qed.

Lemma py_min_le_max (xs : list Q) (lo hi : Q) :
  py_min xs = Ok lo -> py_max xs = Ok hi -> (lo <= hi)%Q.
Proof.
  destruct xs as [|x xs]; [done|]. cbn. intros [= <-] [= <-].
  destruct (foldl_min_le xs x) as [Hlo _]. destruct (foldl_max_ge xs x) as [Hhi _].
  cbn zeta in *. lra.
Qed.

(** The box of a polygon has its corners in order. *)
Lemma bounds_ordered (poly : poly) (y0 y1 x0 x1 : Z) :
  bounds poly = Ok (y0, y1, x0, x1) -> y0 <= y1 /\ x0 <= x1.
Proof.
  unfold bounds.
  destruct (py_min (map snd poly)) as [ylo|] eqn:Hylo; [|done].
  destruct (py_max (map snd poly)) as [yhi|] eqn:Hyhi; [|done].
  destruct (py_min (map fst poly)) as [xlo|] eqn:Hxlo; [|done].
  destruct (py_max (map fst poly)) as [xhi|] eqn:Hxhi; [|done].
  cbn. intros [= <- <- <- <-].
  split; apply py_int_mono; by eapply py_min_le_max.
Qed.

Lemma bounds_nonempty (poly : poly) :
  poly <> [] -> exists b, bounds poly = Ok b.
Proof. destruct poly as [|p poly]; [done|]. intros _. cbn. by eexists. Qed.

Lemma page_line_ordered scores polys idx text l :
  page_line scores polys idx text = Ok l -> box_ordered l /\ l_text l = text.
Proof.
  unfold page_line. destruct (polys !! idx) as [poly|].
  - destruct (bounds poly) as [[[[y0 y1] x0] x1]|] eqn:Hb; [|done].
    cbn. intros [= <-]. split; [|done]. by apply (bounds_ordered poly).
  - intros [= <-]. split; [|done]. by split.
Qed.

Lemma legacy_line_ordered item l :
  legacy_line item = Ok l -> box_ordered l /\ l_text l = item.2.1.
Proof.
  destruct item as [bbox [text confidence]]. unfold legacy_line.
  destruct (bounds bbox) as [[[[y0 y1] x0] x1]|] eqn:Hb; [|done].
  cbn. intros [= <-]. split; [|done]. by apply (bounds_ordered bbox).
Qed.

(** What [append_each] leaves in [lines]: the lines that were there, then
    one line for each entry before the first that raised. *)
Lemma append_each_spec {A} (f : nat -> A -> result ocr_line) (xs : list A)
    (idx : nat) (lines : list ocr_line) :
  exists new,
    (append_each f idx xs lines).1 = lines ++ new
    /\ (length new <= length xs)%nat
    /\ (forall i l, new !! i = Some l -> exists x, xs !! i = Some x /\ f (idx + i)%nat x = Ok l)
    /\ ((append_each f idx xs lines).2 = None <-> length new = length xs)
    /\ (forall e, (append_each f idx xs lines).2 = Some e ->
          exists x, xs !! length new = Some x /\ f (idx + length new)%nat x = Raise e).
Proof.
  revert idx lines. induction xs as [|x xs IH]; intros idx lines; cbn [append_each].
  - exists []. rewrite app_nil_r. cbn. repeat split; try done. 
  - destruct (f idx x) as [l|e] eqn:Hf.
    + destruct (IH (S idx) (lines ++ [l])) as (new & Heq & Hlen & Hnew & Hnone & Hsome).
      exists (l :: new). rewrite Heq, <- app_assoc. cbn [length].
      split; [done|]. split; [lia|]. split; [|split].
      * intros [|i] l' Hl'.
        -- cbn in Hl'. injection Hl' as <-. exists x. by rewrite Nat.add_0_r.
        -- cbn in Hl'. destruct (Hnew i l' Hl') as (x' & Hx' & Hfx').
           exists x'. split; [done|]. by replace (idx + S i)%nat with (S idx + i)%nat by lia.
      * rewrite Hnone. lia.
      * intros e He. destruct (Hsome e He) as (x' & Hx' & Hfx').
        exists x'. split; [done|].
        by replace (idx + S (length new))%nat with (S idx + length new)%nat by lia.
    + exists []. rewrite app_nil_r. cbn. split; [done|]. split; [lia|].
      split; [done|]. split; [split; [done|lia]|].
      intros e' [= <-]. exists x. by rewrite Nat.add_0_r.
Qed.

End OcrBoxes.

Section OcrBands.
Import Text EraseServer Subject Ocr.

Lemma bands_from (k : nat) (ts : list text) :
  let lines :=
    omap id (imap (fun i t => match strip t with
                              | [] => None
                              | _ :: _ => Some (band (k + i) t)
                              end) ts) in
  map l_text lines = filter (fun t => strip t <> []) ts
  /\ Forall (fun l => exists i, ts !! i = Some (l_text l) /\ l = band (k + i) (l_text l)) lines
  /\ StronglySorted (fun a b => l_y1 a <= l_y0 b) lines.
Proof.
  revert k. induction ts as [|t ts IH]; intros k; cbn zeta.
  - cbn. repeat split; constructor.
  - rewrite imap_cons. rewrite omap_cons_eq.
    erewrite imap_ext; [|intros i x _; cbn; replace (k + S i)%nat with (S k + i)%nat by lia;
                         reflexivity].
    destruct (IH (S k)) as (Htexts & Hall & Hsorted).
    assert (Hshift : Forall (fun l => exists i, (t :: ts) !! i = Some (l_text l)
                                        /\ l = band (k + i) (l_text l))
                       (omap id (imap (fun i t0 => match strip t0 with
                                                   | [] => None
                                                   | _ :: _ => Some (band (S k + i) t0)
                                                   end) ts))).
    { eapply Forall_impl; [exact Hall|]. intros l (i & Hi & Hl).
      exists (S i). split; [done|]. by replace (k + S i)%nat with (S k + i)%nat by lia. }
    destruct (strip t) as [|c s] eqn:Hs; cbn [id].
    + rewrite filter_cons_False by (rewrite Hs; intros Hne; by apply Hne).
      done.
    + rewrite filter_cons_True by (by rewrite Hs).
      cbn [map]. rewrite Htexts. split; [by rewrite Nat.add_0_r|]. split.
      * constructor; [|done]. exists 0%nat. by rewrite Nat.add_0_r.
      * constructor; [done|]. rewrite List.Forall_forall. intros l Hl.
        apply list_elem_of_In in Hl. rewrite Forall_forall in Hall.
        destruct (Hall l Hl) as (i & _ & ->). cbn. lia.
Qed.

(** X14. The lines made up from the text alone, when the positions cannot be
    read: one for each line of the text that is not blank, in the order of
    the text; line [i] of the text, the blank ones counted, gets the rows
    from [30 i] to [30 i + 30], the columns 0 to 500 and confidence 1, so
    that the bands do not overlap. *)
Theorem fallback_lines_are_bands (p2t_text : text) :
  let lines := fallback_lines p2t_text in
  map l_text lines = filter (fun t => strip t <> []) (split_on 10 p2t_text)
  /\ Forall (fun l => exists i : nat,
               split_on 10 p2t_text !! i = Some (l_text l)
               /\ l_y0 l = 30 * Z.of_nat i /\ l_y1 l = l_y0 l + 30
               /\ l_x0 l = 0 /\ l_x1 l = 500 /\ l_confidence l = 1%Q) lines
  /\ StronglySorted (fun a b => l_y1 a <= l_y0 b) lines.
Proof.
  cbv zeta. destruct p2t_text as [|c t].
  { cbn. repeat split; constructor. }
  unfold fallback_lines.
  destruct (bands_from 0 (split_on 10 (c :: t))) as (Htexts & Hall & Hsorted).
  cbn zeta in *. split; [exact Htexts|]. split; [|exact Hsorted].
  eapply Forall_impl; [exact Hall|]. intros l (i & Hi & Hl).
  exists i. split; [done|]. rewrite Hl. cbn. repeat split; lia.
Qed.

End OcrBands.

Section OcrPositions.
Import Text EraseServer Subject Ocr.
Context `{Engines}.

(** Getting the engine and running it. *)
Lemma run_engine_cases (img : ndarray) (g : globals) :
  let attempt := (_ <-m get_ocr_engine ;; lift (predict img)) g in
  (engine_ready g /\ attempt.2 = predict img)
  \/ (~ engine_ready g /\ exists e, attempt = (g, Raise e)).
Proof.
  cbn zeta. unfold bind, get_ocr_engine, lift, engine_ready.
  destruct (ocr_engine g) eqn:Hg.
  - left. split; [by left|done].
  - destruct load_paddleocr as [[]|e] eqn:Hl.
    + left. split; [by right|done].
    + right. split; [|by exists e]. intros [?|?]; done.
Qed.

Lemma page_lines_complete (texts : list text) (scores : list Q) (polys : list poly)
    (lines : list ocr_line) :
  Forall (fun poly => poly <> []) (take (length texts) polys) ->
  exists new,
    append_each (page_line scores polys) 0 texts lines = (lines ++ new, None)
    /\ map l_text new = texts
    /\ forall i l, new !! i = Some l ->
         box_ordered l
         /\ l_confidence l = default 0%Q (scores !! i)
         /\ ((length polys <= i)%nat -> (l_y0 l, l_y1 l, l_x0 l, l_x1 l) = (0, 0, 0, 0)).
Proof.
  intros Hpolys.
  destruct (append_each_spec (page_line scores polys) texts 0 lines)
    as (new & Heq & Hlen & Hnew & Hnone & Hsome).
  destruct (append_each _ _ _ _) as [out [e|]] eqn:Hrun; cbn [fst snd] in *.
  - exfalso. destruct (Hsome e eq_refl) as (x & Hx & Hfx). cbn [Nat.add] in Hfx.
    unfold page_line in Hfx.
    destruct (polys !! length new) as [poly|] eqn:Hpoly; [|done].
    assert (Hne : poly <> []).
    { rewrite Forall_forall in Hpolys. apply Hpolys.
      apply list_elem_of_lookup. exists (length new). rewrite lookup_take_lt; [done|].
      by eapply lookup_lt_Some. }
    destruct (bounds_nonempty poly Hne) as [[[[y0 y1] x0] x1] Hb]. by rewrite Hb in Hfx.
  - exists new. split; [by rewrite Heq|].
    assert (Hfull : length new = length texts) by (by apply Hnone).
    split.
    + apply list_eq. intros i. rewrite list_lookup_fmap.
      destruct (new !! i) as [l|] eqn:Hl; cbn.
      * destruct (Hnew i l Hl) as (x & Hx & Hfx). cbn [Nat.add] in Hfx.
        apply page_line_ordered in Hfx as [_ ->]. done.
      * symmetry. apply lookup_ge_None. apply lookup_ge_None in Hl. lia.
    + intros i l Hl. destruct (Hnew i l Hl) as (x & Hx & Hfx). cbn [Nat.add] in Hfx.
      split; [by apply page_line_ordered in Hfx as [? _]|].
      unfold page_line in Hfx. destruct (polys !! i) as [poly|] eqn:Hpoly.
      * destruct (bounds poly) as [[[[y0 y1] x0] x1]|]; [|done].
        cbn [Nat.add] in Hfx. injection Hfx as <-. split; [done|].
        intros Hge. apply lookup_lt_Some in Hpoly. lia.
      * injection Hfx as <-. by split.
Qed.

Lemma page_lines_partial (texts : list text) (scores : list Q) (polys : list poly)
    (lines : list ocr_line) (k : nat) :
  (k < length texts)%nat -> polys !! k = Some [] ->
  Forall (fun poly => poly <> []) (take k polys) ->
  exists new e,
    append_each (page_line scores polys) 0 texts lines = (lines ++ new, Some e)
    /\ map l_text new = take k texts.
Proof.
  intros Hk Hempty Hpolys.
  destruct (append_each_spec (page_line scores polys) texts 0 lines)
    as (new & Heq & Hlen & Hnew & Hnone & Hsome).
  (* no line is made for entry [k] *)
  assert (Hshort : (length new <= k)%nat).
  { destruct (Nat.le_gt_cases (length new) k) as [|Hgt]; [done|]. exfalso.
    destruct (lookup_lt_is_Some_2 new k Hgt) as [l Hl].
    destruct (Hnew k l Hl) as (x & Hx & Hfx). cbn [Nat.add] in Hfx.
    unfold page_line in Hfx. by rewrite Hempty in Hfx. }
  destruct (append_each _ _ _ _) as [out [e|]] eqn:Hrun; cbn [fst snd] in *.
  - destruct (Hsome e eq_refl) as (x & Hx & Hfx). cbn [Nat.add] in Hfx.
    assert (Hat : length new = k).
    { destruct (Nat.eq_dec (length new) k) as [|Hne]; [done|]. exfalso.
      unfold page_line in Hfx.
      destruct (polys !! length new) as [poly|] eqn:Hpoly; [|done].
      assert (Hnonempty : poly <> []).
      { rewrite Forall_forall in Hpolys. apply Hpolys.
        apply list_elem_of_lookup. exists (length new). rewrite lookup_take_lt; [done|lia]. }
      destruct (bounds_nonempty poly Hnonempty) as [[[[y0 y1] x0] x1] Hb].
      by rewrite Hb in Hfx. }
    exists new, e. split; [by rewrite Heq|].
    apply list_eq. intros i. rewrite list_lookup_fmap.
    destruct (new !! i) as [l|] eqn:Hl; cbn.
    + destruct (Hnew i l Hl) as (x' & Hx' & Hfx'). cbn [Nat.add] in Hfx'.
      apply page_line_ordered in Hfx' as [_ ->].
      rewrite lookup_take_lt; [done|]. apply lookup_lt_Some in Hl. lia.
    + symmetry. apply lookup_ge_None. apply lookup_ge_None in Hl.
      rewrite length_take. lia.
  - assert (length new = length texts) by (by apply Hnone). lia.
Qed.

(** X15. When PaddleOCR cannot be loaded or its run raises, the lines are
    those made up from the text. When it returns a page in the current
    format in which the boxes of the recognised texts are not empty, there is
    one line per text, in order, with the score at its index (0 when there is
    none) and a box of zeros when there is no box at its index. When the box
    at index [k] is the first empty one, the [k] lines read before it are
    kept, and the made-up lines follow them. *)
Theorem get_lines_with_position_outcomes (img : ndarray) (p2t_text : text) (g : globals) :
  let lines := (get_lines_with_position img p2t_text g).2 in
  let ready := engine_ready g in
  ((~ ready \/ exists e, predict img = Raise e) -> lines = fallback_lines p2t_text)
  /\ forall texts scores polys rest,
       ready -> predict img = Ok (Page texts scores polys :: rest) ->
       (Forall (fun poly => poly <> []) (take (length texts) polys) ->
        map l_text lines = texts
        /\ forall i l, lines !! i = Some l ->
             l_confidence l = default 0%Q (scores !! i)
             /\ ((length polys <= i)%nat ->
                 (l_y0 l, l_y1 l, l_x0 l, l_x1 l) = (0, 0, 0, 0)))
       /\ (forall k, (k < length texts)%nat -> polys !! k = Some [] ->
             Forall (fun poly => poly <> []) (take k polys) ->
             exists read, lines = read ++ fallback_lines p2t_text
                          /\ map l_text read = take k texts).
Proof.
  cbv zeta. unfold get_lines_with_position.
  destruct (run_engine_cases img g) as [[Hready Hrun]|[Hnot (e & Hrun)]]; cbn zeta in *.
  - destruct ((_ <-m get_ocr_engine;; lift (predict img)) g) as [g' r]. cbn [snd] in Hrun.
    subst r. split.
    + intros [Hnot|(e & He)]; [done|]. by rewrite He.
    + intros texts scores polys rest _ Hp. rewrite Hp. cbn [extract_lines]. split.
      * intros Hpolys.
        destruct (page_lines_complete texts scores polys [] Hpolys)
          as (new & -> & Htexts & Hnew).
        cbn. split; [done|]. intros i l Hl. by destruct (Hnew i l Hl) as (_ & ? & ?).
      * intros k Hk Hempty Hpolys.
        destruct (page_lines_partial texts scores polys [] k Hk Hempty Hpolys)
          as (new & e & -> & Htexts).
        cbn. by exists new.
  - rewrite Hrun. split; [done|]. intros texts scores polys rest Hready. done.
Qed.

End OcrPositions.

Section OcrEngines.
Import Text EraseServer Subject Ocr.
Context `{Engines} `{Builtins}.

Lemma append_each_ordered {A} (f : nat -> A -> result ocr_line) (xs : list A)
    (idx : nat) (lines : list ocr_line) :
  (forall i x l, f i x = Ok l -> box_ordered l) ->
  Forall box_ordered lines -> Forall box_ordered (append_each f idx xs lines).1.
Proof.
  intros Hf Hlines.
  destruct (append_each_spec f xs idx lines) as (new & -> & _ & Hnew & _).
  apply Forall_app. split; [done|]. apply Forall_lookup. intros i l Hl.
  destruct (Hnew i l Hl) as (x & _ & Hfx). by eapply Hf.
Qed.

Lemma extract_lines_ordered (result : list page) (lines : list ocr_line) :
  Forall box_ordered lines -> Forall box_ordered (extract_lines result lines).1.
Proof.
  intros Hlines. destruct result as [|[texts scores polys|items] rest]; cbn [extract_lines].
  - done.
  - apply append_each_ordered; [|done]. intros i x l Hl. by apply page_line_ordered in Hl as [? _].
  - apply append_each_ordered; [|done]. intros i x l Hl. by apply legacy_line_ordered in Hl as [? _].
Qed.

Lemma fallback_lines_ordered (p2t_text : text) : Forall box_ordered (fallback_lines p2t_text).
Proof.
  destruct p2t_text as [|c t]; [constructor|]. unfold fallback_lines.
  destruct (bands_from 0 (split_on 10 (c :: t))) as (_ & Hall & _). cbn zeta in Hall.
  eapply Forall_impl; [exact Hall|]. intros l (i & _ & ->). split; cbn; lia.
Qed.

Lemma get_lines_with_position_ordered (img : ndarray) (p2t_text : text) (g : globals) :
  Forall box_ordered (get_lines_with_position img p2t_text g).2.
Proof.
  unfold get_lines_with_position.
  destruct ((_ <-m get_ocr_engine;; lift (predict img)) g) as [g' [result|e]].
  - pose proof (extract_lines_ordered result [] ltac:(constructor)) as Hord.
    destruct (extract_lines result []) as [lines [e|]]; cbn [fst snd] in *; [|done].
    apply Forall_app. split; [done|apply fallback_lines_ordered].
  - apply fallback_lines_ordered.
Qed.

Lemma paddle_lines_ordered (paddle_result : list page) (lines : list ocr_line) :
  paddle_lines paddle_result = Ok lines -> Forall box_ordered lines.
Proof.
  destruct paddle_result as [|[texts scores polys|items] rest]; cbn [paddle_lines].
  - intros [= <-]. constructor.
  - pose proof (append_each_ordered (page_line scores polys) texts 0 []) as Hord.
    destruct (append_each _ _ _ _) as [out [e|]]; [done|]. intros [= <-].
    apply Hord; [|constructor]. intros i x l Hl. by apply page_line_ordered in Hl as [? _].
  - intros [= <-]. constructor.
Qed.

Lemma sort_lines_sorted (lines : list ocr_line) :
  Sorted (fun a b => l_y0 a <= l_y0 b) (sort_lines lines).
Proof.
  assert (Hs : Sorted (fun a b => (l_y0 a <=? l_y0 b) = true) (sort_lines lines)).
  { apply sort_by_Sorted. intros a b. rewrite !Z.leb_le. lia. }
  induction Hs as [|a l Hs IH Hhd]; constructor; [done|].
  destruct Hhd; constructor. by apply Z.leb_le.
Qed.

(** The ways out of the last block. *)
Lemma paddle_or_nothing_cases (img : ndarray) (subject : option detection) (g : globals) :
  let r := (paddle_or_nothing img subject g).2 in
  (r = mkOcr [] [] None subject)
  \/ (exists lines,
        Forall box_ordered lines
        /\ r = mkOcr (join [10] (map l_text (sort_lines lines))) (sort_lines lines)
                     (Some Paddleocr)
                     (match subject with
                      | None => Some (detect_subject (join [10] (map l_text (sort_lines lines))))
                      | Some d => Some d
                      end)).
Proof.
  cbn zeta. unfold paddle_or_nothing, paddle_pass, bind, lift, ret.
  destruct (get_ocr_engine g) as [g1 [[]|e]]; [|by left].
  destruct (predict img) as [paddle_result|e]; [|by left].
  destruct (paddle_lines paddle_result) as [lines|e] eqn:Hlines; [|by left].
  right. exists lines. split; [by eapply paddle_lines_ordered|done].
Qed.

(** The last block does not look at the Pix2Text handle. *)
Lemma paddle_or_nothing_p2t (img : ndarray) (subject : option detection) (g : globals)
    (p : option bool) :
  (paddle_or_nothing img subject (mkGlobals (ocr_engine g) p)).2
  = (paddle_or_nothing img subject g).2.
Proof.
  unfold paddle_or_nothing, paddle_pass, bind, lift, ret, get_ocr_engine. cbn [ocr_engine].
  destruct (ocr_engine g).
  - destruct (predict img) as [r|e]; [|done]. by destruct (paddle_lines r).
  - destruct load_paddleocr as [[]|e]; [|done].
    destruct (predict img) as [r|e]; [|done]. by destruct (paddle_lines r).
Qed.

(** X16. Whatever the picture, the preference and the state of the engines,
    in the result of [multi_engine_ocr] every line has [y0 <= y1] and
    [x0 <= x1], and: with the engine "unknown" the text and the lines are
    empty; with "paddleocr" the lines are sorted by [y0], the text is their
    texts joined by newlines and a subject is reported; with "pix2text" the
    text is what Pix2Text read, and Pix2Text was either asked for or chosen
    by the subject detected in the quick pass. *)
Theorem multi_engine_ocr_result (img : ndarray) (preferred : option engine) (g : globals) :
  let r := (multi_engine_ocr img preferred g).2 in
  Forall (fun l => l_y0 l <= l_y1 l /\ l_x0 l <= l_x1 l) (o_lines r)
  /\ match o_engine r with
     | None => o_text r = [] /\ o_lines r = []
     | Some Paddleocr =>
         Sorted (fun a b => l_y0 a <= l_y0 b) (o_lines r)
         /\ o_text r = join [10] (map l_text (o_lines r))
         /\ is_Some (o_subject r)
     | Some Pix2text =>
         (exists out, recognize img = Ok out /\ o_text r = p2t_text_of out)
         /\ (preferred = Some Pix2text
             \/ (preferred = None
                 /\ exists d, o_subject r = Some d /\ d_engine d = Pix2text))
     end.
Proof.
  cbv zeta.
  assert (Hlast : forall subject g',
    let r := (paddle_or_nothing img subject g').2 in
    Forall box_ordered (o_lines r)
    /\ match o_engine r with
       | None => o_text r = [] /\ o_lines r = []
       | Some Paddleocr =>
           Sorted (fun a b => l_y0 a <= l_y0 b) (o_lines r)
           /\ o_text r = join [10] (map l_text (o_lines r))
           /\ is_Some (o_subject r)
       | Some Pix2text => False
       end).
  { intros subject g'. cbn zeta.
    destruct (paddle_or_nothing_cases img subject g') as [->|(lines & Hord & ->)]; cbn.
    - split; [constructor|done].
    - split.
      + unfold sort_lines. by rewrite sort_by_Permutation.
      + split; [apply sort_lines_sorted|]. split; [done|]. by destruct subject. }
  assert (Hpaddle : forall subject g',
    let r := (paddle_or_nothing img subject g').2 in
    Forall box_ordered (o_lines r)
    /\ match o_engine r with
       | None => o_text r = [] /\ o_lines r = []
       | Some Paddleocr =>
           Sorted (fun a b => l_y0 a <= l_y0 b) (o_lines r)
           /\ o_text r = join [10] (map l_text (o_lines r))
           /\ is_Some (o_subject r)
       | Some Pix2text =>
           (exists out, recognize img = Ok out /\ o_text r = p2t_text_of out)
           /\ (preferred = Some Pix2text
               \/ (preferred = None
                   /\ exists d, o_subject r = Some d /\ d_engine d = Pix2text))
       end).
  { intros subject g'. destruct (Hlast subject g') as [Hord Hshape]. split; [done|].
    destruct (o_engine _) as [[|]|]; done. }
  unfold multi_engine_ocr.
  (* the first block *)
  set (first := match preferred with
                | Some e => (g, None, e)
                | None =>
                    match quick_subject img g with
                    | (g0, Ok subject_info) => (g0, Some subject_info, d_engine subject_info)
                    | (g0, Raise _) => (g0, None, Paddleocr)
                    end
                end).
  assert (Hfirst : first.2 = Pix2text ->
            preferred = Some Pix2text
            \/ (preferred = None /\ exists d, first.1.2 = Some d /\ d_engine d = Pix2text)).
  { unfold first. destruct preferred as [e|]; [cbn; intros ->; by left|].
    destruct (quick_subject img g) as [g0 [d|e]]; cbn; [|done].
    intros Hd. right. split; [done|]. by exists d. }
  destruct first as [[g1 subject] [|]]; cbn [fst snd] in Hfirst; [|apply Hpaddle].
  destruct (get_p2t_engine g1) as [g2 [|]]; [|apply Hpaddle].
  destruct (recognize img) as [out|e] eqn:Hrec; [|apply Hpaddle].
  pose proof (get_lines_with_position_ordered img (p2t_text_of out) g2) as Hord.
  destruct (get_lines_with_position img (p2t_text_of out) g2) as [g3 lines].
  cbn [fst snd o_lines o_engine o_text o_subject] in *.
  split; [done|]. split; [by exists out|].
  destruct (Hfirst eq_refl) as [?|(? & d & -> & ?)]; [by left|].
  right. split; [done|]. by exists d.
Qed.

(** X17. When Pix2Text is asked for but is marked as unavailable, cannot be
    loaded, or raises on the picture, the result is the one of asking for
    PaddleOCR. *)
Theorem pix2text_failure_falls_back (img : ndarray) (g : globals) :
  p2t_engine g = Some false
  \/ (p2t_engine g = None /\ exists e, load_pix2text = Raise e)
  \/ (exists e, recognize img = Raise e) ->
  (multi_engine_ocr img (Some Pix2text) g).2 = (multi_engine_ocr img (Some Paddleocr) g).2.
Proof.
  intros Hfail. unfold multi_engine_ocr, get_p2t_engine.
  destruct (p2t_engine g) as [[|]|] eqn:Hp.
  - destruct Hfail as [?|[[? _]|(e & He)]]; [done|done|]. by rewrite He.
  - done.
  - destruct load_pix2text as [[]|e0] eqn:Hload.
    + destruct Hfail as [?|[(_ & e & ?)|(e & He)]]; [done|done|].
      rewrite He. apply paddle_or_nothing_p2t.
    + apply paddle_or_nothing_p2t.
Qed.

End OcrEngines.

Section Loading.
Import Ocr.

(** X18. The outcome of the first attempt to load Pix2Text is remembered:
    every later call of [get_p2t_engine] gives the same answer and leaves the
    state alone, whatever loading would give then. A failed load of PaddleOCR
    is not remembered: [get_ocr_engine] raises, leaves the state alone, and
    the next call tries again. *)
Theorem pix2text_load_is_tried_once (first later : Engines) (g : globals) :
  let g1 := (get_p2t_engine (H := first) g).1 in
  let available := (get_p2t_engine (H := first) g).2 in
  get_p2t_engine (H := later) g1 = (g1, available)
  /\ (p2t_engine g = None ->
      available = match load_pix2text (Engines := first) with Ok _ => true | Raise _ => false end)
  /\ (ocr_engine g = false ->
      forall e, load_paddleocr (Engines := first) = Raise e ->
      get_ocr_engine (H := first) g = (g, Raise e)
      /\ (load_paddleocr (Engines := later) = Ok tt ->
          get_ocr_engine (H := later) (get_ocr_engine (H := first) g).1
          = (mkGlobals true (p2t_engine g), Ok tt))).
Proof.
  cbv zeta. unfold get_p2t_engine, get_ocr_engine. split; [|split].
  - destruct (p2t_engine g) as [b|] eqn:Hp; cbn [fst snd]; [by rewrite Hp|].
    by destruct (load_pix2text (Engines := first)).
  - intros ->. by destruct (load_pix2text (Engines := first)).
  - intros -> e ->. split; [done|]. cbn [fst]. intros ->. by destruct g as [[] ?].
Qed.

End Loading.

Section OcrExamples.
Import Text Subject Ocr.

Lemma pix2text_failure_falls_back_witness :
  let g := mkGlobals false (Some false) in
  let img := Color3 Sample.blue_page in
  (p2t_engine g = Some false
   \/ (p2t_engine g = None
       /\ exists e, load_pix2text (Engines := Standin.paddle_only) = Raise e)
   \/ (exists e, recognize (Engines := Standin.paddle_only) img = Raise e))
  /\ (multi_engine_ocr (H := Standin.paddle_only) (H0 := Standin.ascii_builtins)
        img (Some Pix2text) g).2
     = (multi_engine_ocr (H := Standin.paddle_only) (H0 := Standin.ascii_builtins)
          img (Some Paddleocr) g).2.
Proof.
  cbv zeta.
  assert (Hfail : p2t_engine (mkGlobals false (Some false)) = Some false
                  \/ (p2t_engine (mkGlobals false (Some false)) = None
                      /\ exists e, load_pix2text (Engines := Standin.paddle_only) = Raise e)
                  \/ (exists e, recognize (Engines := Standin.paddle_only)
                                  (Color3 Sample.blue_page) = Raise e))
    by (left; reflexivity).
  split; [exact Hfail|].
  exact (pix2text_failure_falls_back (H := Standin.paddle_only)
           (H0 := Standin.ascii_builtins) (Color3 Sample.blue_page)
           (mkGlobals false (Some false)) Hfail).
Defined.

(** The lines PaddleOCR reads come back sorted from the top of the page,
    with the corners truncated and the missing score as 0. *)
Example multi_engine_ocr_paddle_example :
  let r := (multi_engine_ocr (H := Standin.paddle_only) (H0 := Standin.ascii_builtins)
              (Color3 Sample.blue_page) (Some Pix2text) (mkGlobals false None)).2 in
  o_engine r = Some Paddleocr
  /\ o_lines r = [ mkOcrLine (u "1. first") 0 10 22 0 80;
                  mkOcrLine (u "2. second") (9 # 10) 40 52 0 90 ]
  /\ o_text r = u "1. first" ++ [10] ++ u "2. second".
Proof. vm_compute. repeat split. Qed.

(** With PaddleOCR out of order the lines are made up from the text
    Pix2Text read, the blank line keeping its band free. *)
Example multi_engine_ocr_pix2text_example :
  let r := (multi_engine_ocr (H := Standin.pix2text_only) (H0 := Standin.ascii_builtins)
              (Color3 Sample.blue_page) (Some Pix2text) (mkGlobals false None)).2 in
  o_engine r = Some Pix2text
  /\ o_lines r = [ mkOcrLine (u "1. x") 1 0 30 0 500;
                  mkOcrLine (u "A. 1 B. 2") 1 60 90 0 500 ].
Proof. vm_compute. repeat split. Qed.

End OcrExamples.

(** ** Correction: the sheet outline and the report *)

Section Sheet.
Import EraseServer Erase Correct.
Context `{Contours}.

Lemma first_sheet_from (img_gray : grid Z) (candidates : list polygon) (pts : polygon) :
  first_sheet img_gray candidates = Some pts ->
  exists c, c ∈ candidates /\ sheet_like img_gray c = Some pts.
Proof.
  induction candidates as [|c cs IH]; cbn [first_sheet]; [done|].
  destruct (sheet_like img_gray c) as [approx|] eqn:Hc.
  - intros [= <-]. exists c. split; [left|done].
  - intros Hcs. destruct (IH Hcs) as (c' & Hin & Hc'). exists c'. split; [by right|done].
Qed.

Lemma find_document_contour_four (img_gray : grid Z) (pts : polygon) :
  find_document_contour img_gray = Some pts -> length pts = 4%nat.
Proof.
  unfold find_document_contour. cbv zeta.
  destruct (findContours _) as [|c0 cs]; [done|].
  intros Hfound. apply first_sheet_from in Hfound as (c & _ & Hsheet).
  unfold sheet_like in Hsheet.
  destruct (Nat.eqb_spec (length (approxPolyDP c)) 4) as [Hfour|]; [|done].
  destruct (Qltb _ _); [|done]. by injection Hsheet as <-.
Qed.

Lemma by_area_descending_sorted (contours : list polygon) :
  by_area_descending contours ≡ₚ contours
  /\ StronglySorted (fun a b => (contourArea b <= contourArea a)%Q)
                    (by_area_descending contours).
Proof.
  split; [apply sort_by_Permutation|].
  assert (Hs : Sorted (fun a b => Qle_bool (contourArea b) (contourArea a) = true)
                 (by_area_descending contours)).
  { apply sort_by_Sorted. intros a b. rewrite !Qle_bool_iff.
    destruct (Qlt_le_dec (contourArea a) (contourArea b)) as [Hlt|Hle];
      [right; by apply Qlt_le_weak|by left]. }
  apply Sorted_StronglySorted in Hs.
  - induction Hs as [|a l Hs IH Hall]; constructor; [done|].
    eapply List.Forall_impl; [|exact Hall]. intros b. apply Qle_bool_iff.
  - intros a b c. rewrite !Qle_bool_iff. intros ? ?. lra.
Qed.

Lemma filter_none {A} (P : A -> Prop) `{!forall x, Decision (P x)} (l : list A) :
  Forall (fun x => ~ P x) l -> filter P l = [].
Proof.
  induction 1 as [|x l Hx _ IH]; [done|]. by rewrite filter_cons_False.
Qed.

(** In a list sorted by falling area, what is strictly larger than an
    entry stands before it. *)
Lemma larger_before (sorted : list polygon) (i : nat) (c : polygon) :
  StronglySorted (fun a b => (contourArea b <= contourArea a)%Q) sorted ->
  sorted !! i = Some c ->
  (length (filter (fun x => Qltb (contourArea c) (contourArea x)) sorted) <= i)%nat.
Proof.
  intros Hs Hi.
  rewrite <- (take_drop_middle sorted i c Hi) in Hs |- *.
  apply StronglySorted_app_1_r in Hs as Htail.
  apply StronglySorted_inv in Htail as [_ Hafter].
  rewrite filter_app, length_app.
  rewrite (filter_none _ (c :: drop (S i) sorted)).
  - pose proof (length_filter (fun x => Qltb (contourArea c) (contourArea x))
                  (take i sorted)) as Hle.
    rewrite length_take in Hle. cbn [length]. lia.
  - constructor.
    + intros Hlt. apply Is_true_true, Qltb_lt in Hlt. lra.
    + apply Forall_forall. intros x Hx Hlt. apply Is_true_true, Qltb_lt in Hlt.
      rewrite List.Forall_forall in Hafter. apply list_elem_of_In in Hx.
      specialize (Hafter x Hx). cbn beta in Hafter. lra.
Qed.

(** X19. What [find_document_contour] returns has four corners and an area
    above a tenth of the picture, and is the approximation of one of the
    contours found, one with fewer than five contours of greater area. *)
Theorem find_document_contour_spec (img_gray : grid Z) (pts : polygon) :
  find_document_contour img_gray = Some pts ->
  let contours := findContours (dilate (blurred_edges img_gray) 3 2) in
  length pts = 4%nat
  /\ (inject_Z (height img_gray * width img_gray) * (1 # 10) < contourArea pts)%Q
  /\ exists c, c ∈ contours /\ pts = approxPolyDP c
       /\ (length (filter (fun x => Qltb (contourArea c) (contourArea x)) contours) < 5)%nat.
Proof.
  unfold find_document_contour. cbv zeta.
  set (contours := findContours (dilate (blurred_edges img_gray) 3 2)).
  destruct contours as [|c0 cs] eqn:Hcs; [done|]. rewrite <- Hcs. clear Hcs c0 cs.
  intros Hfound. apply first_sheet_from in Hfound as (c & Hc & Hsheet).
  unfold sheet_like in Hsheet.
  destruct (Nat.eqb_spec (length (approxPolyDP c)) 4) as [Hfour|]; [|done].
  destruct (Qltb _ _) eqn:Harea; [|done]. injection Hsheet as <-.
  split; [done|]. split; [by apply Qltb_lt|].
  destruct (by_area_descending_sorted contours) as [Hperm Hsorted].
  apply list_elem_of_lookup in Hc as [i Hi].
  assert (Hlt : (i < 5)%nat).
  { apply lookup_lt_Some in Hi. rewrite length_take in Hi. lia. }
  rewrite lookup_take_lt in Hi by done.
  exists c. split; [|split; [done|]].
  - rewrite <- Hperm. by eapply list_elem_of_lookup_2.
  - rewrite <- Hperm. pose proof (larger_before _ i c Hsorted Hi). lia.
Qed.

End Sheet.

Section PipelineSteps.
Import EraseServer Erase Subject Correct.
Context `{OpenCV} `{Contours} `{Builtins}.

Lemma rectangular_map2d {A B} (f : A -> B) (g : grid A) :
  rectangular g -> rectangular (map2d f g).
Proof.
  unfold rectangular, map2d. intros Hr. apply Forall_fmap.
  assert (Hhd : length (hd [] (map (map f) g)) = length (hd [] g))
    by (destruct g; cbn; [done|apply length_map]).
  eapply Forall_impl; [exact Hr|]. intros row Hrow. cbn.
  rewrite length_map, Hhd. exact Hrow.
Qed.

Lemma rectangular_tabulate {B} (rows cols : nat) (f : Z -> Z -> B) :
  rectangular (tabulate rows cols f).
Proof.
  unfold rectangular, tabulate. apply Forall_forall. intros row Hrow.
  apply list_elem_of_fmap in Hrow as (y & -> & Hy). rewrite length_map, length_seq.
  destruct rows; cbn; [by apply elem_of_nil in Hy|]. by rewrite length_map, length_seq.
Qed.

(** Rectifying a colour picture by four corners gives a colour picture. *)
Lemma perspective_transform_colour (c : image) (pts : polygon) :
  length pts = 4%nat ->
  exists c', perspective_transform (Color3 c) pts = Ok (Color3 c') /\ rectangular c'.
Proof.
  intros Hlen. destruct (order_points_spec pts) as (r & Hr & _); [by destruct pts|].
  unfold perspective_transform. rewrite Hr. cbn [rbind target_size warpPerspective].
  eexists. split; [reflexivity|]. apply rectangular_tabulate.
Qed.

(** Straightening a colour picture gives the picture itself with angle 0,
    or a colour picture turned by an angle of at least half a degree. *)
Lemma detect_and_correct_rotation_colour (c : image) :
  rectangular c ->
  detect_and_correct_rotation (Color3 c) = (Color3 c, 0%Q)
  \/ exists c' angle,
       detect_and_correct_rotation (Color3 c) = (Color3 c', angle)
       /\ rectangular c' /\ (1 # 2 <= Qabs angle)%Q.
Proof.
  intros Hr. generalize (detect_and_correct_rotation_cases (Color3 c)).
  destruct (hough_lines _) as [lines|]; cbv beta iota; [|intros ->; by left].
  destruct (kept_angles lines) as [|a l]; cbv beta iota zeta; [intros ->; by left|].
  destruct (Qltb (Qabs (median (a :: l))) (1 # 2)) eqn:Hsmall; cbv beta iota;
    [intros ->; by left|].
  intros ->. right. apply Qltb_ge in Hsmall.
  destruct (applied_angle_bounds _ Hsmall) as [Hlo _].
  unfold rotate. destruct (rotated_size _ _ _) as [new_w new_h].
  eexists _, _. split; [reflexivity|]. split; [apply rectangular_tabulate|done].
Qed.

Lemma auto_crop_whitespace_colour (c : image) :
  rectangular c ->
  exists c', auto_crop_whitespace (Color3 c) 10 = Color3 c'
    /\ (shape0 (Color3 c') = shape0 (Color3 c) -> shape1 (Color3 c') = shape1 (Color3 c) ->
        c' = c).
Proof.
  intros Hr.
  pose proof (auto_crop_whitespace_same_shape (Color3 c) 10 ltac:(lia) Hr) as Hsame.
  destruct (auto_crop_whitespace_window (Color3 c) 10 ltac:(lia) Hr)
    as (top & bottom & left & right & Hcrop & _).
  rewrite Hcrop in *. cbn [crop_nd] in *. eexists. split; [reflexivity|].
  intros H0' H1'. specialize (Hsame H0' H1'). by injection Hsame.
Qed.

End PipelineSteps.

Section PipelineReport.
Import EraseServer Erase Subject Correct.
Context `{OpenCV} `{Contours} `{Builtins}.

(** Step 1 on a colour picture: it is left alone, or rectified and flagged. *)
Lemma correct_perspective_cases (c : image) (result : flags) :
  correct_perspective (Color3 c) result = Ok (Color3 c, result)
  \/ exists c', rectangular c'
       /\ correct_perspective (Color3 c) result
          = Ok (Color3 c', mkFlags true true (f_rotation_angle result) (f_cropped result)).
Proof.
  unfold correct_perspective. cbv zeta.
  destruct (find_document_contour _) as [contour|] eqn:Hfind; [|by left].
  right. apply find_document_contour_four in Hfind.
  destruct (perspective_transform_colour c contour Hfind) as (c' & -> & Hr).
  by exists c'.
Qed.

(** Step 2: the picture is left alone; or turned by an angle of more than
    half a degree, which is reported; or turned by exactly half a degree,
    which is not. *)
Lemma correct_rotation_cases (c : image) (result : flags) :
  rectangular c ->
  correct_rotation (Color3 c) result = (Color3 c, result)
  \/ (exists c' angle, rectangular c'
        /\ correct_rotation (Color3 c) result
           = (Color3 c', mkFlags true (f_perspective_applied result) (round2 angle)
                                 (f_cropped result)))
  \/ (exists c' angle, rectangular c' /\ (Qabs angle == 1 # 2)%Q
        /\ detect_and_correct_rotation (Color3 c) = (Color3 c', angle)
        /\ correct_rotation (Color3 c) result = (Color3 c', result)).
Proof.
  intros Hr. unfold correct_rotation.
  destruct (detect_and_correct_rotation_colour c Hr) as [->|(c' & angle & -> & Hr' & Hge)].
  - by left.
  - right. destruct (Qltb (1 # 2) (Qabs angle)) eqn:Hbig.
    + left. by exists c', angle.
    + right. apply Qltb_ge in Hbig. exists c', angle.
      split; [done|]. split; [lra|]. done.
Qed.

(** Step 3: the picture is left alone, or cut and flagged. *)
Lemma correct_crop_cases (c : image) (result : flags) :
  rectangular c ->
  correct_crop (Color3 c) result = (Color3 c, result)
  \/ exists c',
       correct_crop (Color3 c) result
       = (Color3 c', mkFlags true (f_perspective_applied result)
                             (f_rotation_angle result) true).
Proof.
  intros Hr. unfold correct_crop. cbv zeta.
  destruct (auto_crop_whitespace_colour c Hr) as (c' & -> & Hsame).
  destruct (bool_decide_reflect
              ((shape0 (Color3 c'), shape1 (Color3 c')) <> (shape0 (Color3 c), shape1 (Color3 c))))
    as [Hdiff|Heq].
  - right. by exists c'.
  - left. apply dec_stable in Heq. injection Heq as H0' H1'.
    by rewrite (Hsame H0' H1').
Qed.

(** X20. On a picture with rows of one length [correct_image] returns, and
    its report is consistent with what was done: a step is reported only
    when it was switched on, and then [corrected] is set; when [corrected] is
    not set the reported angle is 0 and the picture is the input, unless the
    rotation step found a skew of exactly half a degree, which is taken out
    but not reported; with all three steps off nothing is done. *)
Theorem correct_image_report (img_array : image)
    (auto_perspective auto_rotate auto_crop : bool) :
  rectangular img_array ->
  exists r,
    correct_image img_array auto_perspective auto_rotate auto_crop = Ok r
    /\ (perspective_applied r = true -> auto_perspective = true /\ corrected r = true)
    /\ (cropped r = true -> auto_crop = true /\ corrected r = true)
    /\ (corrected r = false ->
        rotation_angle r = 0%Q
        /\ (c_image r = Color3 img_array
            \/ exists rotated angle,
                 auto_rotate = true /\ (Qabs angle == 1 # 2)%Q
                 /\ detect_and_correct_rotation (Color3 (map2d swap_rb img_array))
                    = (rotated, angle)
                 /\ bgr2rgb rotated = Ok (c_image r)))
    /\ (auto_perspective = false -> auto_rotate = false -> auto_crop = false ->
        r = mkCorrection false false 0 false (Color3 img_array)).
Proof.
  intros Hrect. unfold correct_image. cbv zeta.
  set (bgr := map2d swap_rb img_array).
  set (start := mkFlags false false 0 false).
  assert (Hbgr : rectangular bgr) by (by apply rectangular_map2d).
  assert (Hback : Color3 (map2d swap_rb bgr) = Color3 img_array)
    by (unfold bgr; by rewrite map2d_swap_rb_involutive).
  (* step 1 *)
  assert (Hstep1 : exists c1 r1,
            (if auto_perspective then correct_perspective (Color3 bgr) start
             else Ok (Color3 bgr, start)) = Ok (Color3 c1, r1)
            /\ rectangular c1
            /\ ((c1 = bgr /\ r1 = start)
                \/ (auto_perspective = true /\ r1 = mkFlags true true 0 false))).
  { destruct auto_perspective; [|exists bgr, start; by auto].
    destruct (correct_perspective_cases bgr start) as [->|(c' & Hr' & ->)].
    - exists bgr, start. by auto.
    - exists c', (mkFlags true true 0 false). by auto. }
  destruct Hstep1 as (c1 & r1 & -> & Hr1 & Hcase1). cbn [rbind]. cbv beta iota.
  (* step 2 *)
  assert (Hstep2 : exists c2 r2,
            (if auto_rotate then correct_rotation (Color3 c1) r1 else (Color3 c1, r1))
            = (Color3 c2, r2)
            /\ rectangular c2
            /\ ((c2 = c1 /\ r2 = r1)
                \/ (exists angle, auto_rotate = true
                      /\ r2 = mkFlags true (f_perspective_applied r1) (round2 angle)
                                      (f_cropped r1))
                \/ (exists angle, auto_rotate = true /\ (Qabs angle == 1 # 2)%Q
                      /\ detect_and_correct_rotation (Color3 c1) = (Color3 c2, angle)
                      /\ r2 = r1))).
  { destruct auto_rotate; [|exists c1, r1; by auto].
    destruct (correct_rotation_cases c1 r1 Hr1)
      as [->|[(c' & angle & Hr' & ->)|(c' & angle & Hr' & Hhalf & Hdet & ->)]].
    - exists c1, r1. by auto.
    - exists c', (mkFlags true (f_perspective_applied r1) (round2 angle) (f_cropped r1)).
      split; [done|]. split; [done|]. right. left. by exists angle.
    - exists c', r1. split; [done|]. split; [done|]. right. right. by exists angle. }
  destruct Hstep2 as (c2 & r2 & -> & Hr2 & Hcase2). cbv beta iota.
  (* step 3 *)
  assert (Hstep3 : exists c3 r3,
            (if auto_crop then correct_crop (Color3 c2) r2 else (Color3 c2, r2))
            = (Color3 c3, r3)
            /\ ((c3 = c2 /\ r3 = r2)
                \/ (auto_crop = true
                    /\ r3 = mkFlags true (f_perspective_applied r2)
                                    (f_rotation_angle r2) true))).
  { destruct auto_crop; [|exists c2, r2; by auto].
    destruct (correct_crop_cases c2 r2 Hr2) as [->|(c' & ->)].
    - exists c2, r2. by auto.
    - eexists c', _. by auto. }
  destruct Hstep3 as (c3 & r3 & -> & Hcase3). cbv beta iota. cbn [bgr2rgb rbind].
  eexists. split; [reflexivity|].
  cbn [corrected perspective_applied rotation_angle cropped c_image].
  destruct Hcase1 as [[-> ->]|[Hp ->]];
    destruct Hcase2 as [[-> ->]|[(angle & Hrot & ->)|(angle & Hrot & Hhalf & Hdet & ->)]];
    destruct Hcase3 as [[-> ->]|[Hc ->]]; cbn; subst.
  all: repeat split; try done; try (intros; congruence).
  all: try (intros _; by left).
  all: try (intros _; right; exists (Color3 c2), angle; by cbn).
  all: try (by left).
  all: right; exists (Color3 c2), angle; by cbn.
Qed.

End PipelineReport.

Section CorrectExamples.
Import EraseServer Erase Subject Correct.

Lemma find_document_contour_spec_witness :
  let img_gray := replicate 10 (replicate 10 255) in
  let sheet := [(0, 0); (9, 0); (9, 9); (0, 9)] in
  find_document_contour (H := Standin.outlines [sheet]) img_gray = Some sheet
  /\ length sheet = 4%nat
  /\ (inject_Z (height img_gray * width img_gray) * (1 # 10)
      < contourArea (Contours := Standin.outlines [sheet]) sheet)%Q.
Proof.
  cbv zeta.
  assert (Hfound : find_document_contour
                     (H := Standin.outlines [[(0, 0); (9, 0); (9, 9); (0, 9)]])
                     (replicate 10 (replicate 10 255))
                   = Some [(0, 0); (9, 0); (9, 9); (0, 9)]) by (vm_compute; reflexivity).
  split; [exact Hfound|].
  destruct (find_document_contour_spec
              (H := Standin.outlines [[(0, 0); (9, 0); (9, 9); (0, 9)]])
              (replicate 10 (replicate 10 255)) _ Hfound) as (Hfour & Harea & _).
  split; [exact Hfour|exact Harea].
Defined.

Lemma correct_image_report_witness :
  rectangular (Sample.blank_page 4 4)
  /\ exists r,
       correct_image (H := Sample.failing_cv) (H0 := Standin.outlines [])
         (H1 := Standin.ascii_builtins) (Sample.blank_page 4 4) true true true = Ok r
       /\ (corrected r = false -> rotation_angle r = 0%Q).
Proof.
  assert (Hrect : rectangular (Sample.blank_page 4 4)) by (cbn; repeat constructor).
  split; [exact Hrect|].
  destruct (correct_image_report (H := Sample.failing_cv) (H0 := Standin.outlines [])
              (H1 := Standin.ascii_builtins) (Sample.blank_page 4 4) true true true Hrect)
    as (r & Hr & _ & _ & Hplain & _).
  exists r. split; [exact Hr|]. intros Hc. by destruct (Hplain Hc).
Defined.

End CorrectExamples.

(** ** The handlers of [/erase-handwriting] *)

Section SplitOn.
Import Text.

Lemma split_on_nonempty (sep : Z) (t : text) : split_on sep t <> [].
Proof.
  destruct t as [|c t]; cbn; [done|].
  destruct (c =? sep); [done|]. by destruct (split_on sep t).
Qed.

Lemma split_on_absent (sep : Z) (t : text) : sep ∉ t -> split_on sep t = [t].
Proof.
  induction t as [|c t IH]; intros Hsep; cbn; [done|].
  apply not_elem_of_cons in Hsep as [Hne Hsep].
  destruct (Z.eqb_spec c sep); [congruence|]. by rewrite IH.
Qed.

Lemma split_on_app (sep : Z) (p q : text) :
  sep ∉ p -> split_on sep (p ++ sep :: q) = p :: split_on sep q.
Proof.
  induction p as [|c p IH]; intros Hsep; cbn.
  - by rewrite Z.eqb_refl.
  - apply not_elem_of_cons in Hsep as [Hne Hsep].
    destruct (Z.eqb_spec c sep); [congruence|]. by rewrite IH.
Qed.

Lemma split_on_head_absent (sep : Z) (t : text) : sep ∉ hd [] (split_on sep t).
Proof.
  induction t as [|c t IH]; cbn; [apply not_elem_of_nil|].
  destruct (Z.eqb_spec c sep); cbn; [apply not_elem_of_nil|].
  destruct (split_on sep t) as [|w ws] eqn:Hs; cbn in *.
  - apply not_elem_of_cons. split; [done|apply not_elem_of_nil].
  - apply not_elem_of_cons. by split.
Qed.

End SplitOn.

Section Endpoints.
Import Text Erase Correct Api.
Context `{OpenCV} `{Codec}.

(** X21. Of a data URL, a prefix without a comma followed by a comma and a
    payload, the handlers decode the payload up to its first comma, hence all
    of a payload without one; a text without a comma is decoded as it is. The
    text decoded never holds a comma. *)
Theorem data_url_payload_spec (prefix payload : text) :
  44 ∉ prefix ->
  data_url_payload prefix = prefix
  /\ data_url_payload (prefix ++ 44 :: payload) = hd [] (split_on 44 payload)
  /\ (44 ∉ payload -> data_url_payload (prefix ++ 44 :: payload) = payload)
  /\ 44 ∉ data_url_payload (prefix ++ 44 :: payload).
Proof.
  intros Hprefix.
  assert (Hcut : data_url_payload (prefix ++ 44 :: payload) = hd [] (split_on 44 payload)).
  { unfold data_url_payload. rewrite bool_decide_eq_true_2.
    - rewrite split_on_app by done. cbn [nth].
      pose proof (split_on_nonempty 44 payload). by destruct (split_on 44 payload).
    - apply elem_of_app. right. left. }
  split; [unfold data_url_payload; by rewrite bool_decide_eq_false_2|].
  split; [done|]. split.
  - intros Hpayload. by rewrite Hcut, split_on_absent.
  - rewrite Hcut. apply split_on_head_absent.
Qed.

Lemma as_status_500_cases {A} (body : outcome A) :
  (exists a, as_status_500 body = Done a)
  \/ (exists e, body = Failed e /\ as_status_500 body = Failed (HTTPException 500 (str_of e))).
Proof. destruct body as [a|e]; [left|right]; by eexists. Qed.

(** X22. Whatever goes wrong in the two [/erase-handwriting] handlers comes
    out with status 500. This holds of the missing picture as well: the
    exception with status 400 is raised inside the [try] block and caught by
    its handler, which wraps its text in one with status 500. *)
Theorem erase_endpoints_answer_500 (data : request) (doc_cleaner : cleaner_state) :
  let main := (main_erase_handwriting data doc_cleaner).2 in
  let server := server_erase_handwriting data in
  (forall f, main = Failed f -> exists detail, f = HTTPException 500 detail)
  /\ (forall f, server = Failed f -> exists detail, f = HTTPException 500 detail)
  /\ (req_image data = None \/ req_image data = Some [] ->
      main = Failed (HTTPException 500 (str_of missing_image))
      /\ server = Failed (HTTPException 500 (str_of missing_image))).
Proof.
  cbv zeta. unfold main_erase_handwriting, server_erase_handwriting.
  destruct (main_erase_body data doc_cleaner) as [dc body] eqn:Hmain. cbn [snd].
  split; [|split].
  - intros f Hf. destruct (as_status_500_cases body) as [[a Ha]|(e & _ & He)];
      rewrite Hf in *; [done|]. injection He as ->. by eexists.
  - intros f Hf.
    destruct (as_status_500_cases (server_erase_body data)) as [[a Ha]|(e & _ & He)];
      rewrite Hf in *; [done|]. injection He as ->. by eexists.
  - intros Hmissing.
    assert (Hbody : body = Failed missing_image /\ server_erase_body data = Failed missing_image).
    { unfold main_erase_body, server_erase_body in *.
      destruct Hmissing as [Hi|Hi]; rewrite Hi in *; by injection Hmain as _ <-. }
    destruct Hbody as [-> ->]. done.
Qed.

Lemma erase_mode_of_unknown (name : string) :
  known_mode name = false -> erase_mode_of name = OtherMode name.
Proof.
  unfold known_mode, erase_mode_of.
  destruct (String.eqb name "auto"); [done|]. destruct (String.eqb name "blue"); [done|].
  destruct (String.eqb name "black"); [done|]. by destruct (String.eqb name "color").
Qed.

Lemma erase_opencv_nd_unknown (c : image) (name : string) :
  erase_opencv_nd (Color3 c) (OtherMode name) = Ok (Color3 c).
Proof.
  cbn [erase_opencv_nd]. do 2 f_equal. unfold erase_handwriting_opencv. cbn [is_auto].
  unfold final_mask, union_mask. cbn [is_blue_mode is_colour_mode is_dark_mode].
  rewrite dilate_zeros, fill_white_zeros. apply map2d_swap_rb_involutive.
Qed.

(** X23. A mode string that is none of "auto", "blue", "black", "color" (nor
    "ai") is treated differently by the two handlers: [main.py] passes it on,
    so that the picture comes back as it was sent, with the method reported
    as OpenCV; [erase_server.py] replaces it by "auto" and erases. *)
Theorem unknown_mode_at_the_endpoints (image_data : text) (name : string) (c : image)
    (doc_cleaner : cleaner_state) :
  image_data <> [] -> known_mode name = false -> name <> "ai"%string ->
  load_image (data_url_payload image_data) = Ok (Color3 c) ->
  main_erase_handwriting (mkRequest (Some image_data) (Some name)) doc_cleaner
  = (doc_cleaner,
     as_status_500
       (of_result (b <-r encode_image_to_base64 (Color3 c) ;;
                   Ok (mkErased b name (Some opencv)))))
  /\ server_erase_handwriting (mkRequest (Some image_data) (Some name))
     = as_status_500
         (of_result (b <-r encode_image_to_base64
                             (Color3 (erase_handwriting_process c Auto)) ;;
                     Ok (mkErased b "auto"%string None))).
Proof.
  intros Hdata Hunknown Hai Hload.
  unfold main_erase_handwriting, main_erase_body, server_erase_handwriting, server_erase_body.
  cbn [req_image req_mode default from_option id]. destruct image_data as [|ch rest]; [done|].
  rewrite Hload, Hunknown. apply String.eqb_neq in Hai. rewrite Hai.
  rewrite (erase_mode_of_unknown name Hunknown), erase_opencv_nd_unknown.
  split; reflexivity.
Qed.

End Endpoints.

Section ApiExamples.
Import Text Erase Correct Api.

Lemma data_url_payload_spec_witness :
  (44 ∉ u "data:image/png;base64")
  /\ data_url_payload (u "data:image/png;base64" ++ 44 :: u "iVBORw0KGgo=")
     = u "iVBORw0KGgo=".
Proof.
  assert (Hprefix : 44 ∉ u "data:image/png;base64").
  { refine (bool_decide_unpack _ _). vm_compute. exact I. }
  assert (Hpayload : 44 ∉ u "iVBORw0KGgo=").
  { refine (bool_decide_unpack _ _). vm_compute. exact I. }
  split; [exact Hprefix|].
  destruct (data_url_payload_spec (u "data:image/png;base64") (u "iVBORw0KGgo=") Hprefix)
    as (_ & _ & Hwhole & _).
  exact (Hwhole Hpayload).
Defined.

Lemma unknown_mode_at_the_endpoints_witness :
  let data := mkRequest (Some [65]) (Some "red"%string) in
  (main_erase_handwriting (H := Sample.failing_cv)
     (H0 := Standin.fixed_codec (Color3 Sample.blue_page)) data None).2
  = Done (mkErased (u "data:image/png;base64,iVBORw0KGgo=") "red"%string (Some opencv))
  /\ server_erase_handwriting (H := Sample.failing_cv)
       (H0 := Standin.fixed_codec (Color3 Sample.blue_page)) data
     = Done (mkErased (u "data:image/png;base64,iVBORw0KGgo=") "auto"%string None).
Proof.
  cbv zeta.
  assert (Hdata : [65] <> ([] : list Z)) by discriminate.
  assert (Hunknown : known_mode "red" = false) by reflexivity.
  assert (Hai : "red"%string <> "ai"%string) by discriminate.
  assert (Hload : load_image (Codec := Standin.fixed_codec (Color3 Sample.blue_page))
                    (data_url_payload [65]) = Ok (Color3 Sample.blue_page)) by reflexivity.
  destruct (unknown_mode_at_the_endpoints (H := Sample.failing_cv)
              (H0 := Standin.fixed_codec (Color3 Sample.blue_page))
              [65] "red"%string Sample.blue_page None Hdata Hunknown Hai Hload)
    as [Hmain Hserver].
  split.
  - rewrite Hmain. vm_compute. reflexivity.
  - rewrite Hserver. vm_compute. reflexivity.
Defined.

End ApiExamples.
